(** * Configuration resolution and SSR externalization of vite

    A shallow embedding of
      - packages/vite/src/node/config.ts  (mergeConfig, mergeAlias,
        normalizeAlias, normalizeSingleAlias, sortUserPlugins, the plugin
        pipeline of resolveConfig, loadConfigFromFile, loadEnv), and
      - the SSR externalization module (resolveSSRExternal,
        shouldExternalizeForSSR),
    together with the properties the specification states about them.

    Conventions.  JavaScript strings are Rocq strings (8-bit characters;
    ids, paths and option names are ASCII).  A run of JavaScript code ends
    in an [outcome]: it returns, it throws, or it leaves the modelled
    fragment.  Whatever the code obtains from the host (file system, module
    resolution, user functions) is a field of a host record; the file
    system, the accumulator set and the hook log are explicit state. *)

From stdpp Require Import gmap strings list fin_maps.
From Stdlib Require Import String Ascii ZArith Lia List Bool DecimalString.
Import ListNotations.
Local Open Scope string_scope.
Set Warnings "-register-all".

(* ===================================================================== *)
(** * JavaScript values and outcomes *)
(* ===================================================================== *)

Module JS.

(** Result of running a piece of code. [Throw msg] is an exception whose
    message is [msg]. [Unknown] marks a run the embedding does not
    determine: the recursion budget is exhausted (the code would still be
    recursing), control enters a user function attached to a data object,
    or the prototype of an object is replaced (the values below have no
    prototype of their own). *)
Inductive outcome (A : Type) : Type :=
| Ret (a : A)
| Throw (msg : string)
| Unknown.
Arguments Ret {A} a.
Arguments Throw {A} msg.
Arguments Unknown {A}.

Definition bind {A B} (m : outcome A) (k : A -> outcome B) : outcome B :=
  match m with
  | Ret a => k a
  | Throw e => Throw e
  | Unknown => Unknown
  end.

Definition omap {A B} (f : A -> B) (m : outcome A) : outcome B :=
  bind m (fun a => Ret (f a)).

(** [xs.map(f)] for a callback that may throw: left to right, the first
    exception ends the traversal. *)
Fixpoint mapM {A B} (f : A -> outcome B) (l : list A) : outcome (list B) :=
  match l with
  | [] => Ret []
  | x :: l' => bind (f x) (fun y => bind (mapM f l') (fun ys => Ret (y :: ys)))
  end.

(** Values. Numbers are only carried around by the code modelled here (never
    computed on), so integers stand for them. A function is an opaque token;
    a regular expression is its source text. An object is a plain one: the
    list of its own enumerable data properties in enumeration order (keys
    pairwise distinct), with Object.prototype as its prototype. Values are
    finite trees: an object that contains itself is not a value, and
    nothing said below about all values covers one. *)
Inductive value : Type :=
| VUndefined
| VNull
| VBool (b : bool)
| VNum (n : Z)
| VStr (s : string)
| VRegExp (src : string)
| VFun (id : string)
| VArr (elems : list value)
| VObj (props : list (string * value)).

(** Induction on values, through arrays and objects. *)

Section ValueInduction.
Variable P : value -> Prop.
Hypothesis HUndefined : P VUndefined.
Hypothesis HNull : P VNull.
Hypothesis HBool : forall b, P (VBool b).
Hypothesis HNum : forall n, P (VNum n).
Hypothesis HStr : forall s, P (VStr s).
Hypothesis HRegExp : forall s, P (VRegExp s).
Hypothesis HFun : forall s, P (VFun s).
Hypothesis HArr : forall l, Forall P l -> P (VArr l).
Hypothesis HObj : forall o, Forall (fun kv => P (snd kv)) o -> P (VObj o).

Fixpoint value_nested_ind (v : value) : P v :=
  match v with
  | VUndefined => HUndefined
  | VNull => HNull
  | VBool b => HBool b
  | VNum n => HNum n
  | VStr s => HStr s
  | VRegExp s => HRegExp s
  | VFun s => HFun s
  | VArr l =>
      HArr l ((fix go (l : list value) : Forall P l :=
                 match l with
                 | [] => @Forall_nil _ P
                 | x :: l' => @Forall_cons _ P x l' (value_nested_ind x) (go l')
                 end) l)
  | VObj o =>
      HObj o ((fix go (o : list (string * value)) : Forall (fun kv => P (snd kv)) o :=
                 match o with
                 | [] => @Forall_nil _ (fun kv => P (snd kv))
                 | (k, x) :: o' =>
                     @Forall_cons _ (fun kv => P (snd kv)) (k, x) o'
                       (value_nested_ind x) (go o')
                 end) o)
  end.
End ValueInduction.

Definition obj : Type := list (string * value).

(** [o[key]] on own properties; absent reads as [undefined]. *)
Fixpoint get (key : string) (o : obj) : value :=
  match o with
  | [] => VUndefined
  | (k, v) :: o' => if String.eqb k key then v else get key o'
  end.

Fixpoint has (key : string) (o : obj) : bool :=
  match o with
  | [] => false
  | (k, _) :: o' => String.eqb k key || has key o'
  end.

Fixpoint replace (key : string) (v : value) (o : obj) : obj :=
  match o with
  | [] => []
  | (k, w) :: o' =>
      if String.eqb k key then (k, v) :: o' else (k, w) :: replace key v o'
  end.

(** [o[key] = v]: an existing property keeps its place, a new one is
    appended (the place JavaScript gives to a new integer-like key, ahead
    of the string keys, is not tracked: nothing below reads the key order
    of an object that was written to). *)
Definition set (key : string) (v : value) (o : obj) : obj :=
  if has key o then replace key v o else (o ++ [(key, v)])%list.

Definition keys (o : obj) : list string := map fst o.

(** [v == null] *)
Definition nullish (v : value) : bool :=
  match v with
  | VUndefined | VNull => true
  | _ => false
  end.

(** ToBoolean *)
Definition truthy (v : value) : bool :=
  match v with
  | VUndefined | VNull => false
  | VBool b => b
  | VNum n => negb (Z.eqb n 0)
  | VStr s => negb (String.eqb s EmptyString)
  | _ => true
  end.

Definition isArray (v : value) : bool :=
  match v with
  | VArr _ => true
  | _ => false
  end.

(** Modelled from the spec: [isObject] is imported from ./utils, which is
    not among the sources; the specification calls the values it accepts
    "plain mapping objects" (arrays, functions, regular expressions and
    null are not). *)
Definition isObject (v : value) : bool :=
  match v with
  | VObj _ => true
  | _ => false
  end.

(** [s.startsWith(p)], [s.endsWith(p)], [s.includes(p)],
    [s.slice(0, s.length - 1)] *)
Definition startsWith (s p : string) : bool := String.prefix p s.

Definition endsWith (s p : string) : bool :=
  let n := String.length s in
  let m := String.length p in
  Nat.leb m n && String.eqb (substring (n - m) m s) p.

Definition includes (s p : string) : bool :=
  match String.index 0 p s with
  | Some _ => true
  | None => false
  end.

Definition dropLast (s : string) : string :=
  substring 0 (String.length s - 1) s.

(** The decimal numeral of an array index, as in [Object.keys([x, y])]. *)
Definition indexKey (i : nat) : string :=
  NilZero.string_of_uint (Nat.to_uint i).

Fixpoint indexed_from {A} (i : nat) (l : list A) : list (string * A) :=
  match l with
  | [] => []
  | x :: l' => (indexKey i, x) :: indexed_from (S i) l'
  end.

Definition chars (s : string) : list value :=
  map (fun c => VStr (String c EmptyString)) (list_ascii_of_string s).

(** Own enumerable properties of any value, as [Object.keys], [for..in]
    and object spread see them: the properties of an object, the indices
    of an array or of a string, nothing for the other values. *)
Definition ownProps (v : value) : obj :=
  match v with
  | VObj o => o
  | VArr l => indexed_from 0 l
  | VStr s => indexed_from 0 (chars s)
  | _ => []
  end.

(** The value of [v.name] for a [v] that is neither null nor undefined,
    for the names the code reads: an own property of an object; the
    inherited [find] of an array and [apply] of a function; [undefined]
    otherwise. *)
Definition prop (v : value) (name : string) : value :=
  match v with
  | VObj o => get name o
  | VArr _ => if String.eqb name "find" then VFun "Array.prototype.find"
              else VUndefined
  | VFun _ => if String.eqb name "apply" then VFun "Function.prototype.apply"
              else VUndefined
  | _ => VUndefined
  end.

(** Member access [v.name]: on null and undefined it throws. *)
Definition member (v : value) (name : string) : outcome value :=
  match v with
  | VUndefined | VNull =>
      Throw ("Cannot read properties of null or undefined (reading '" ++ name ++ "')")
  | _ => Ret (prop v name)
  end.

(** [xs.flat()] (depth one) *)
Definition flat (l : list value) : list value :=
  flat_map (fun v => match v with VArr l' => l' | _ => [v] end) l.

End JS.

(* ===================================================================== *)
(** * Node's path module (posix flavour) *)
(* ===================================================================== *)

Module Path.

Record ext_state : Type := mkExt {
  startDot : Z;
  startPart : Z;
  end_ : Z;
  matchedSlash : bool;
  preDotState : Z
}.

Definition is_slash (c : ascii) : bool := Ascii.eqb c "/"%char.
Definition is_dot (c : ascii) : bool := Ascii.eqb c "."%char.

(** The backwards scan of [path.extname]; [rev_tail] holds the characters
    at indices [i], [i-1], ..., [0]. *)
Fixpoint extname_scan (rev_tail : list ascii) (i : Z) (st : ext_state)
  : ext_state :=
  match rev_tail with
  | [] => st
  | code :: rest =>
      if is_slash code then
        if negb (matchedSlash st)
        then mkExt (startDot st) (i + 1) (end_ st) (matchedSlash st)
                   (preDotState st)
        else extname_scan rest (i - 1) st
      else
        let st1 :=
          if Z.eqb (end_ st) (-1)
          then mkExt (startDot st) (startPart st) (i + 1) false (preDotState st)
          else st in
        let st2 :=
          if is_dot code then
            if Z.eqb (startDot st1) (-1)
            then mkExt i (startPart st1) (end_ st1) (matchedSlash st1)
                       (preDotState st1)
            else if negb (Z.eqb (preDotState st1) 1)
            then mkExt (startDot st1) (startPart st1) (end_ st1)
                       (matchedSlash st1) 1
            else st1
          else if negb (Z.eqb (startDot st1) (-1))
          then mkExt (startDot st1) (startPart st1) (end_ st1)
                     (matchedSlash st1) (-1)
          else st1 in
        extname_scan rest (i - 1) st2
  end.

(** [path.extname(p)] *)
Definition extname (p : string) : string :=
  let st := extname_scan (rev (list_ascii_of_string p))
                         (Z.of_nat (String.length p) - 1)
                         (mkExt (-1) 0 (-1) true 0) in
  if Z.eqb (startDot st) (-1)
     || Z.eqb (end_ st) (-1)
     || Z.eqb (preDotState st) 0
     || (Z.eqb (preDotState st) 1
         && Z.eqb (startDot st) (end_ st - 1)
         && Z.eqb (startDot st) (startPart st + 1))
  then EmptyString
  else substring (Z.to_nat (startDot st))
                 (Z.to_nat (end_ st - startDot st)) p.

(** The backwards scan of [path.dirname] over indices [i], ..., [1]:
    the index of the separator that ends the directory part, if any. *)
Fixpoint dirname_scan (rev_tail : list ascii) (i : nat) (matched : bool)
  : option nat :=
  match i, rev_tail with
  | S i', code :: rest =>
      if is_slash code then
        if negb matched then Some i else dirname_scan rest i' matched
      else dirname_scan rest i' false
  | _, _ => None
  end.

(** [path.dirname(p)] *)
Definition dirname (p : string) : string :=
  match p with
  | EmptyString => "."
  | String c0 _ =>
      let hasRoot := is_slash c0 in
      match dirname_scan (rev (list_ascii_of_string p))
                         (String.length p - 1) true with
      | None => if hasRoot then "/" else "."
      | Some e => if hasRoot && Nat.eqb e 1 then "//" else substring 0 e p
      end
  end.

End Path.

(* ===================================================================== *)
(** * SSR externalization: the runtime matcher *)
(* ===================================================================== *)

Module SSRMatch.
Import JS.

(** The callback of [externals.some] in [shouldExternalizeForSSR]. *)
Definition matchesExternal (id e : string) : bool :=
  if String.eqb id e then true
  else if startsWith id (e ++ "/")
          && (negb (truthy (VStr (Path.extname id))) || endsWith id ".js")
  then true
  else false.

Definition shouldExternalizeForSSR (id : string) (externals : list string)
  : bool :=
  existsb (matchesExternal id) externals.

(** The matcher in the words of the specification: [e] is listed, and
    either the import is [e] itself, or it is a deep import [e/...] that
    has no file extension or ends in the plain script extension. *)
Definition spec_externalizes (id : string) (externals : list string) : Prop :=
  exists e, In e externals /\
    (id = e \/
     (String.prefix (e ++ "/") id = true /\
      (Path.extname id = EmptyString \/ endsWith id ".js" = true))).

End SSRMatch.

(* ===================================================================== *)
(** * config.ts: the config merger and the alias normalizer *)
(* ===================================================================== *)

Module Merge.
Import JS.

(** [replacement.endsWith('/')] for a replacement of any type. Only a
    string has the method; a data object may carry a function of that name
    of its own, whose behaviour is not described here. *)
Definition replacement_endsWith (replacement : value) : outcome bool :=
  match replacement with
  | VStr r => Ret (endsWith r "/")
  | VUndefined | VNull =>
      Throw "Cannot read properties of undefined (reading 'endsWith')"
  | VObj o =>
      match get "endsWith" o with
      | VFun _ => Unknown
      | _ => Throw "replacement.endsWith is not a function"
      end
  | _ => Throw "replacement.endsWith is not a function"
  end.

(** [normalizeSingleAlias({ find, replacement })] *)
Definition normalizeSingleAlias (alias : value) : outcome value :=
  bind (member alias "find") (fun find =>
  bind (member alias "replacement") (fun replacement =>
  let keep := Ret (VObj [("find", find); ("replacement", replacement)]) in
  match find with
  | VStr f =>
      if endsWith f "/" then
        bind (replacement_endsWith replacement) (fun slash =>
        if slash then
          match replacement with
          | VStr r =>
              Ret (VObj [("find", VStr (dropLast f));
                         ("replacement", VStr (dropLast r))])
          | _ => Unknown
          end
        else keep)
      else keep
  | _ => keep
  end)).

(** [normalizeAlias(o)] *)
Definition normalizeAlias (o : value) : outcome (list value) :=
  match o with
  | VArr l => mapM normalizeSingleAlias l
  | VUndefined | VNull => Throw "Cannot convert undefined or null to object"
  | _ =>
      mapM (fun find =>
              normalizeSingleAlias
                (VObj [("find", VStr find);
                       ("replacement", get find (ownProps o))]))
           (keys (ownProps o))
  end.

(** [mergeAlias(a = [], b = [])] *)
Definition mergeAlias (a b : value) : outcome value :=
  let a := match a with VUndefined => VArr [] | _ => a end in
  let b := match b with VUndefined => VArr [] | _ => b end in
  bind (normalizeAlias a) (fun xs =>
  bind (normalizeAlias b) (fun ys =>
  Ret (VArr (xs ++ ys)%list))).

(** [[].concat(existing, value)]: an array argument contributes its
    elements, any other argument itself. *)
Definition concatSpread (v : value) : list value :=
  match v with
  | VArr l => l
  | _ => [v]
  end.

(** The methods every plain object inherits from Object.prototype. *)
Definition prototypeMethods : list string :=
  ["constructor"; "__defineGetter__"; "__defineSetter__"; "hasOwnProperty";
   "__lookupGetter__"; "__lookupSetter__"; "isPrototypeOf";
   "propertyIsEnumerable"; "toString"; "valueOf"; "toLocaleString"].

(** [merged[key]] as the loop reads it: the own property when there is
    one; otherwise what Object.prototype gives, which is the prototype
    itself under [__proto__] (a plain object without enumerable
    properties), a function under the name of a method, [undefined]
    under any other name. *)
Definition existingOf (merged : obj) (key : string) : value :=
  if has key merged then get key merged
  else if String.eqb key "__proto__" then VObj []
  else if existsb (String.eqb key) prototypeMethods
  then VFun ("Object.prototype." ++ key)
  else VUndefined.

(** The key reaches the accessor of Object.prototype instead of a
    property of [o]: it is [__proto__] and [o] has no own property of
    that name. *)
Definition reachesPrototype (key : string) (o : obj) : bool :=
  negb (has key o) && String.eqb key "__proto__".

(** [merged[key] = v]: an own property is overwritten, a new one is
    created, except when the key reaches the accessor of Object.prototype,
    which ignores a primitive and makes any other value the prototype of
    the copy. *)
Definition assign (key : string) (v : value) (merged : obj) : outcome obj :=
  if reachesPrototype key merged then
    match v with
    | VUndefined | VBool _ | VNum _ | VStr _ => Ret merged
    | _ => Unknown
    end
  else Ret (set key v merged).

(** [mergeConfig(a, b, isRoot)], by recursion on the override: the inner
    loop is [for (const key in b)], [merged] starts as the copy [{ ...a }]
    (the spread defines own properties, also one named [__proto__]). *)
Fixpoint mergeConfigRec (a : obj) (b : value) (isRoot : bool) {struct b}
  : outcome obj :=
  match b with
  | VObj props =>
      (fix loop (merged : obj) (entries : list (string * value)) {struct entries}
         : outcome obj :=
         match entries with
         | [] => Ret merged
         | (key, val) :: rest =>
             if nullish val then loop merged rest
             else
               let existing := existingOf merged key in
               let store (v : value) :=
                 bind (assign key v merged) (fun merged' => loop merged' rest) in
               match existing, val with
               | VArr xs, VArr ys => store (VArr (xs ++ ys)%list)
               | VObj ea, VObj _ =>
                   bind (mergeConfigRec ea val false) (fun m => store (VObj m))
               | _, _ =>
                   if negb (nullish existing) && isRoot
                      && String.eqb key "alias"
                   then bind (mergeAlias existing val) store
                   else if negb (nullish existing) && isRoot
                           && String.eqb key "assetsInclude"
                   then store (VArr (concatSpread existing
                                     ++ concatSpread val)%list)
                   else store val
               end
         end) a props
  | _ => Ret a
  end.

Definition mergeConfig (a b : obj) (isRoot : bool) : outcome obj :=
  mergeConfigRec a (VObj b) isRoot.

(** What one round of the loop stores under [key], given the value
    [existing] found there and the non-nullish override [val]. *)
Definition mergeField (isRoot : bool) (key : string) (existing val : value)
  : outcome value :=
  match existing, val with
  | VArr xs, VArr ys => Ret (VArr (xs ++ ys)%list)
  | VObj ea, VObj eb => omap VObj (mergeConfig ea eb false)
  | _, _ =>
      if negb (nullish existing) && isRoot && String.eqb key "alias"
      then mergeAlias existing val
      else if negb (nullish existing) && isRoot
              && String.eqb key "assetsInclude"
      then Ret (VArr (concatSpread existing ++ concatSpread val)%list)
      else Ret val
  end.

(** The test that guards the root-only branch of the loop:
    [existing != null && isRoot] and the key is one of the two special
    ones. *)
Definition rootSpecial (isRoot : bool) (key : string) (existing : value)
  : bool :=
  negb (nullish existing) && isRoot
  && (String.eqb key "alias" || String.eqb key "assetsInclude").

(** The loop of [mergeConfig], round by round. *)
Fixpoint mergeLoop (isRoot : bool) (merged : obj)
  (entries : list (string * value)) : outcome obj :=
  match entries with
  | [] => Ret merged
  | (key, val) :: rest =>
      if nullish val then mergeLoop isRoot merged rest
      else bind (mergeField isRoot key (existingOf merged key) val) (fun v =>
           bind (assign key v merged) (fun merged' =>
           mergeLoop isRoot merged' rest))
  end.

(** No plain mapping met by the merge (the value itself, and the mappings
    nested in it through mappings) owns a property named [__proto__]. *)
Fixpoint protoFree (v : value) : bool :=
  match v with
  | VObj props =>
      (fix go (l : list (string * value)) : bool :=
         match l with
         | [] => true
         | (k, x) :: l' =>
             negb (String.eqb k "__proto__") && protoFree x && go l'
         end) props
  | _ => true
  end.

(** The alias entries on which the normalizer does not fail: the entry is
    neither null nor undefined, and a literal [find] that ends in a
    separator comes with a string replacement (as the declared type
    [Alias] has it). *)
Definition aliasEntryTyped (alias : value) : bool :=
  negb (nullish alias) &&
  match prop alias "find" with
  | VStr f =>
      if endsWith f "/"
      then match prop alias "replacement" with VStr _ => true | _ => false end
      else true
  | _ => true
  end.

(** The same for a whole [alias] option: a list of entries, or any other
    value, read as a mapping from find patterns to replacements. *)
Definition aliasTyped (o : value) : bool :=
  match o with
  | VArr l => forallb aliasEntryTyped l
  | VUndefined | VNull => true
  | _ =>
      forallb (fun find => aliasEntryTyped
                 (VObj [("find", VStr find);
                        ("replacement", get find (ownProps o))]))
              (keys (ownProps o))
  end.

End Merge.

(* ===================================================================== *)
(** * config.ts: plugin ordering, config loading, config resolution *)
(* ===================================================================== *)

Module Config.
Import JS.

(** What the run leaves behind: a call of a plugin hook ([this] object and
    hook name), a call of the function a config file exports, an error
    report of the logger, the shutdown of the compilation service. *)
Inductive event : Type :=
| EHook (plugin : value) (hook : string)
| EConfigFn
| ELogError (msg : string)
| EStopService.

(** The file system (path to content) and the events so far. *)
Record world : Type := mkWorld {
  files : gmap string string;
  log : list event
}.

(** The collaborators of this module. *)
Record host : Type := mkHost {
  (** process.cwd() *)
  cwd : string;
  (** path.resolve(...segments) *)
  pathResolve : list string -> string;
  (** normalizePath of ./utils *)
  normalizePath : string -> string;
  (** lookupFile(dir, ['package.json']) of ./utils: the manifest's text *)
  lookupPackageJson : string -> option string;
  (** JSON.parse *)
  jsonParse : string -> outcome value;
  (** bundleConfigFile(fileName, mjs): the rollup job *)
  bundleConfigFile : string -> bool -> outcome string;
  (** evaluating module text as a native ES module: its namespace *)
  importModule : string -> outcome value;
  (** evaluating module text through require: its exports *)
  requireModule : string -> outcome value;
  (** calling a user function: [this], the function, the arguments *)
  callFunction : value -> value -> list value -> outcome value;
  (** lines 249-371 of resolveConfig (root, alias, env, base, build
      options, resolver, resolvePlugins): from the merged config and the
      ordered user plugins to the resolved config *)
  finishResolve : obj -> list value -> outcome value
}.

(** Code that reads and writes the world and may throw. *)
Definition M (A : Type) : Type := world -> outcome A * world.

Definition ret {A} (a : A) : M A := fun w => (Ret a, w).
Definition throw {A} (msg : string) : M A := fun w => (Throw msg, w).
Definition lift {A} (m : outcome A) : M A := fun w => (m, w).
Definition emit (e : event) : M unit :=
  fun w => (Ret tt, mkWorld (files w) (log w ++ [e])).

Definition bindM {A B} (m : M A) (k : A -> M B) : M B :=
  fun w =>
    match m w with
    | (Ret a, w') => k a w'
    | (Throw e, w') => (Throw e, w')
    | (Unknown, w') => (Unknown, w')
    end.

Notation "'let*' x ':=' m 'in' k" := (bindM m (fun x => k))
  (at level 10, x name, m at level 100, k at level 200).
Notation "'run' m 'in' k" := (bindM m (fun _ => k))
  (at level 10, m at level 100, k at level 200).

(** [try { body } catch (e) { handler(e) }] *)
Definition tryCatch {A} (body : M A) (handler : string -> M A) : M A :=
  fun w =>
    match body w with
    | (Throw e, w') => handler e w'
    | r => r
    end.

(** [try { body } finally { cleanup }] *)
Definition tryFinally {A} (body : M A) (cleanup : M unit) : M A :=
  fun w =>
    match body w with
    | (Unknown, w') => (Unknown, w')
    | (r, w') =>
        match cleanup w' with
        | (Ret _, w'') => (r, w'')
        | (Throw e, w'') => (Throw e, w'')
        | (Unknown, w'') => (Unknown, w'')
        end
    end.

(** [xs.forEach(f)] *)
Fixpoint forEach {A} (f : A -> M unit) (l : list A) : M unit :=
  match l with
  | [] => ret tt
  | x :: l' => run f x in forEach f l'
  end.

(** A loop that threads an accumulator through [xs.forEach]. *)
Fixpoint foldM {A S} (f : S -> A -> M S) (s : S) (l : list A) : M S :=
  match l with
  | [] => ret s
  | x :: l' => let* s' := f s x in foldM f s' l'
  end.

(** fs.existsSync, fs.writeFileSync, fs.unlinkSync, reading a module file *)
Definition existsSync (path : string) (w : world) : bool :=
  bool_decide (is_Some (files w !! path)).

Definition writeFileSync (path code : string) : M unit :=
  fun w => (Ret tt, mkWorld (<[path := code]> (files w)) (log w)).

Definition unlinkSync (path : string) : M unit :=
  fun w =>
    match files w !! path with
    | Some _ => (Ret tt, mkWorld (delete path (files w)) (log w))
    | None => (Throw "ENOENT: no such file or directory, unlink", w)
    end.

Definition readModule (path : string) : M string :=
  fun w =>
    match files w !! path with
    | Some code => (Ret code, w)
    | None => (Throw "Cannot find module", w)
    end.

(** ** sortUserPlugins *)

Definition enforces (tag : string) (p : value) : outcome bool :=
  omap (fun e => match e with VStr t => String.eqb t tag | _ => false end)
       (member p "enforce").

(** One round of the [forEach] in [sortUserPlugins]: push [p] on one of
    the three arrays. *)
Definition pushPlugin (acc : list value * list value * list value) (p : value)
  : outcome (list value * list value * list value) :=
  let '(prePlugins, normalPlugins, postPlugins) := acc in
  bind (enforces "pre" p) (fun isPre =>
  if isPre then Ret ((prePlugins ++ [p])%list, normalPlugins, postPlugins)
  else bind (enforces "post" p) (fun isPost =>
  if isPost then Ret (prePlugins, normalPlugins, (postPlugins ++ [p])%list)
  else Ret (prePlugins, (normalPlugins ++ [p])%list, postPlugins))).

Fixpoint pushPlugins (acc : list value * list value * list value)
  (l : list value) : outcome (list value * list value * list value) :=
  match l with
  | [] => Ret acc
  | p :: l' => bind (pushPlugin acc p) (fun acc' => pushPlugins acc' l')
  end.

Definition sortUserPlugins (plugins : option (list value))
  : outcome (list value * list value * list value) :=
  match plugins with
  | Some l => pushPlugins ([], [], []) (flat l)
  | None => Ret ([], [], [])
  end.

(** ** loadConfigFromFile *)

(** [JSON.parse(pkg).type === 'module'], under the [try] whose [catch] is
    empty. *)
Definition packageIsModule (h : host) (configRoot : string) : bool :=
  match lookupPackageJson h configRoot with
  | Some pkg =>
      truthy (VStr pkg) &&
      match bind (jsonParse h pkg) (fun v => member v "type") with
      | Ret (VStr "module") => true
      | _ => false
      end
  | None => false
  end.

(** The messages after which a failed [require] falls through to the
    bundling path. *)
Definition ignored (msg : string) : bool :=
  includes msg "Cannot use import statement"
  || includes msg "Must use import to load ES Module"
  || includes msg "Unexpected token"
  || includes msg "Unexpected identifier".

(** [loadConfigFromBundledFile(fileName, bundledCode)]: with the extension
    loader replaced for [fileName], [require(fileName)] compiles
    [bundledCode]. *)
Definition loadConfigFromBundledFile (h : host) (fileName bundledCode : string)
  : M value :=
  let* _ := readModule fileName in
  let* raw := lift (requireModule h bundledCode) in
  let* esm := lift (member raw "__esModule") in
  if truthy esm then lift (member raw "default") else ret raw.

Definition configEnvValue (command mode : value) : value :=
  VObj [("mode", mode); ("command", command)].

(** The discovery of the config file: the resolved path, [isTS], [isMjs].
    A path that [path.resolve] returns is absolute, hence never the empty
    (falsy) string. *)
Definition discover (h : host) (configFile : option string)
  (configRoot : string) (isMjs0 : bool) (w : world)
  : option string * bool * bool :=
  match configFile with
  | Some f => (Some (pathResolve h [f]), false, isMjs0)
  | None =>
      let js := pathResolve h [configRoot; "vite.config.js"] in
      let mjs := pathResolve h [configRoot; "vite.config.mjs"] in
      let ts := pathResolve h [configRoot; "vite.config.ts"] in
      if existsSync js w then (Some js, false, isMjs0)
      else if existsSync mjs w then (Some mjs, false, true)
      else if existsSync ts w then (Some ts, true, isMjs0)
      else (None, false, isMjs0)
  end.

(** The body of the outer [try] of [loadConfigFromFile]. *)
Definition loadBody (h : host) (configEnv : value) (resolvedPath : string)
  (isTS isMjs : bool) : M (string * value) :=
  let* userConfig1 :=
    (if isMjs then
       if isTS then
         let* code := lift (bundleConfigFile h resolvedPath true) in
         run writeFileSync (resolvedPath ++ ".js") code in
         let* text := readModule (resolvedPath ++ ".js") in
         let* ns := lift (importModule h text) in
         let* dflt := lift (member ns "default") in
         run unlinkSync (resolvedPath ++ ".js") in
         ret dflt
       else
         let* text := readModule resolvedPath in
         let* ns := lift (importModule h text) in
         lift (member ns "default")
     else ret VUndefined) in
  let* userConfig2 :=
    (if negb (truthy userConfig1) && negb isTS && negb isMjs then
       tryCatch
         (let* text := readModule resolvedPath in lift (requireModule h text))
         (fun msg => if ignored msg then ret userConfig1 else throw msg)
     else ret userConfig1) in
  let* userConfig3 :=
    (if negb (truthy userConfig2) then
       let* code := lift (bundleConfigFile h resolvedPath false) in
       loadConfigFromBundledFile h resolvedPath code
     else ret userConfig2) in
  let* config :=
    (match userConfig3 with
     | VFun _ =>
         run emit EConfigFn in
         lift (callFunction h VUndefined userConfig3 [configEnv])
     | _ => ret userConfig3
     end) in
  if negb (isObject config)
  then throw "config must export or return an object."
  else ret (normalizePath h resolvedPath, config).

(** [loadConfigFromFile(configEnv, configFile, configRoot)]; [None] is the
    [null] of "no config file found". *)
Definition loadConfigFromFile (h : host) (configEnv : value)
  (configFile : option string) (configRoot : option string)
  : M (option (string * value)) :=
  fun w =>
    let configRoot := match configRoot with Some r => r | None => cwd h end in
    let configFile :=
      match configFile with
      | Some f => if truthy (VStr f) then Some f else None
      | None => None
      end in
    let isMjs0 := packageIsModule h configRoot in
    match discover h configFile configRoot isMjs0 w with
    | (None, _, _) => (Ret None, w)
    | (Some resolvedPath, isTS, isMjs) =>
        tryFinally
          (tryCatch
             (let* r := loadBody h configEnv resolvedPath isTS isMjs in ret (Some r))
             (fun msg =>
                run emit (ELogError ("failed to load config from " ++ resolvedPath)) in
                throw msg))
          (emit EStopService) w
    end.

(** ** resolveConfig: the plugin pipeline *)

(** [f.call(this, ...args)]: only a function can be called. A hook call is
    recorded before control passes to the user's code. *)
Definition invokeHook (h : host) (p : value) (hook : string) (f : value)
  (args : list value) : M value :=
  match f with
  | VFun _ => run emit (EHook p hook) in lift (callFunction h p f args)
  | _ => throw ("p." ++ hook ++ " is not a function")
  end.

(** The callback of the [filter] over the raw plugins:
    [!p.apply || p.apply === command]. *)
Definition appliesTo (command : string) (p : value) : outcome bool :=
  omap (fun a => negb (truthy a)
                 || match a with VStr c => String.eqb c command | _ => false end)
       (member p "apply").

Fixpoint filterO {A} (f : A -> outcome bool) (l : list A) : outcome (list A) :=
  match l with
  | [] => Ret []
  | x :: l' =>
      bind (f x) (fun keep =>
      bind (filterO f l') (fun r => Ret (if keep then x :: r else r)))
  end.

(** [(config.plugins || []).flat().filter(...)] *)
Definition rawUserPlugins (config : obj) (command : string)
  : outcome (list value) :=
  match get "plugins" config with
  | VArr l => filterO (appliesTo command) (flat l)
  | v => if truthy v then Throw "(config.plugins || []).flat is not a function"
         else Ret []
  end.

(** One round of the first [userPlugins.forEach]: the [config] hook of
    [p], its result merged onto the accumulated config. *)
Definition configHook (h : host) (configEnv : value) (config : obj) (p : value)
  : M obj :=
  let* hook := lift (member p "config") in
  if truthy hook then
    let* res := invokeHook h p "config" hook [VObj config; configEnv] in
    if truthy res then lift (Merge.mergeConfig config (ownProps res) true)
    else ret config
  else ret config.

(** One round of the second [userPlugins.forEach]. *)
Definition configResolvedHook (h : host) (resolved : value) (p : value)
  : M unit :=
  let* hook := lift (member p "configResolved") in
  if truthy hook then
    run invokeHook h p "configResolved" hook [resolved] in ret tt
  else ret tt.

(** The part of [resolveConfig] that starts from the config as it stands
    after the config file is merged in (lines 231-247 and 373-378; the
    code in between is [finishResolve]). Returns the ordered user plugins
    and the resolved config. *)
Definition resolvePlugins (h : host) (configEnv : value) (config : obj)
  (command : string) : M (list value * value) :=
  let* raw := lift (rawUserPlugins config command) in
  let* sorted := lift (sortUserPlugins (Some raw)) in
  let '(prePlugins, normalPlugins, postPlugins) := sorted in
  let userPlugins := (prePlugins ++ normalPlugins ++ postPlugins)%list in
  let* config' := foldM (configHook h configEnv) config userPlugins in
  let* resolved := lift (finishResolve h config' userPlugins) in
  run forEach (configResolvedHook h resolved) userPlugins in
  ret (userPlugins, resolved).

(** Lines 214-226 of [resolveConfig]: the inline config, with the config
    file's export merged under it unless [configFile] is [false]. *)
Definition mergedUserConfig (h : host) (inlineConfig : obj) (configEnv : value)
  : M obj :=
  match get "configFile" inlineConfig with
  | VBool false => ret inlineConfig
  | configFile =>
      let* loadResult :=
        loadConfigFromFile h configEnv
          (match configFile with VStr f => Some f | _ => None end)
          (match get "root" inlineConfig with VStr r => Some r | _ => None end)
      in
      match loadResult with
      | Some (_, fileConfig) =>
          lift (Merge.mergeConfig (ownProps fileConfig) inlineConfig true)
      | None => ret inlineConfig
      end
  end.

(** [resolveConfig(inlineConfig, command, defaultMode)] *)
Definition resolveConfig (h : host) (inlineConfig : obj) (command : string)
  (defaultMode : string) : M value :=
  let mode := if truthy (get "mode" inlineConfig) then get "mode" inlineConfig
              else VStr defaultMode in
  let configEnv := configEnvValue (VStr command) mode in
  let* config := mergedUserConfig h inlineConfig configEnv in
  let* r := resolvePlugins h configEnv config command in
  ret (snd r).

(** The plugin order in the words of the specification: drop the plugins
    whose [apply] is set and differs from the command, then the [pre]
    plugins, the untagged ones and the [post] ones, each group in
    registration order. *)
Definition hasApplyOther (command : string) (p : value) : bool :=
  truthy (prop p "apply")
  && negb (match prop p "apply" with
           | VStr c => String.eqb c command
           | _ => false
           end).

Definition enforceTag (p : value) : string :=
  match prop p "enforce" with
  | VStr t => if String.eqb t "pre" then "pre"
              else if String.eqb t "post" then "post"
              else "normal"
  | _ => "normal"
  end.

Definition hasTag (tag : string) (p : value) : bool :=
  String.eqb (enforceTag p) tag.

Definition spec_order (command : string) (registered : list value)
  : list value :=
  let kept := List.filter (fun p => negb (hasApplyOther command p)) registered in
  (List.filter (hasTag "pre") kept ++ List.filter (hasTag "normal") kept
   ++ List.filter (hasTag "post") kept)%list.

(** A plugin that has the hook [name]. *)
Definition hasHook (name : string) (p : value) : bool :=
  truthy (prop p name).

(** The hook calls among the events. *)
Definition hookEvents (l : list event) : list event :=
  List.filter (fun e => match e with EHook _ _ => true | _ => false end) l.

(** The plugins registered in a config, nested lists flattened. *)
Definition registeredPlugins (config : obj) : list value :=
  match get "plugins" config with
  | VArr l => flat l
  | _ => []
  end.

(** The hook calls of an ordered plugin list: one per plugin that has the
    hook, in the order of the list. *)
Definition hookCalls (name : string) (plugins : list value) : list event :=
  map (fun p => EHook p name) (List.filter (hasHook name) plugins).

(** A piece of code keeps a relation between the world before and the
    world after, however it ends. *)
Definition preserves {A} (R : world -> world -> Prop) (m : M A) : Prop :=
  forall w r w', m w = (r, w') -> R w w'.

(** The hook calls recorded so far are unchanged. *)
Definition sameHooks (w w' : world) : Prop :=
  hookEvents (log w') = hookEvents (log w).

(** A path that names no file still names none. *)
Definition staysAbsent (path : string) (w w' : world) : Prop :=
  files w !! path = None -> files w' !! path = None.


End Config.

(* ===================================================================== *)
(** * config.ts: loadEnv *)
(* ===================================================================== *)

Module Env.
Import JS.

(** A string-to-string object: [process.env], a parsed .env file, the
    result. *)
Definition dict : Type := list (string * string).

Fixpoint dget (key : string) (d : dict) : option string :=
  match d with
  | [] => None
  | (k, v) :: d' => if String.eqb k key then Some v else dget key d'
  end.

Fixpoint dreplace (key v : string) (d : dict) : dict :=
  match d with
  | [] => []
  | (k, w) :: d' =>
      if String.eqb k key then (k, v) :: d' else (k, w) :: dreplace key v d'
  end.

Definition dset (key v : string) (d : dict) : dict :=
  match dget key d with
  | Some _ => dreplace key v d
  | None => (d ++ [(key, v)])%list
  end.

(** The members every object literal inherits: for these names [env[key]]
    is not [undefined] although [env] has no such property of its own. *)
Definition inherited : list string :=
  ["constructor"; "__defineGetter__"; "__defineSetter__"; "hasOwnProperty";
   "__lookupGetter__"; "__lookupSetter__"; "isPrototypeOf";
   "propertyIsEnumerable"; "toString"; "valueOf"; "__proto__";
   "toLocaleString"].

(** [env[key] === undefined] *)
Definition isUndefinedIn (env : dict) (key : string) : bool :=
  match dget key env with
  | Some _ => false
  | None => negb (existsb (String.eqb key) inherited)
  end.

Record host : Type := mkHost {
  (** lookupFile(root, [file], true) of ./utils: the path of the file *)
  lookupFile : string -> string -> option string;
  (** dotenv.parse(fs.readFileSync(path)) *)
  parseFile : string -> outcome dict;
  (** dotenvExpand({ parsed, ignoreProcessEnv: true }): the expanded entries *)
  dotenvExpand : dict -> dict
}.

(** The first loop: variables of the process that start with the prefix. *)
Fixpoint fromProcess (prefix : string) (entries : dict) (env : dict) : dict :=
  match entries with
  | [] => env
  | (key, v) :: rest =>
      fromProcess prefix rest
        (if startsWith key prefix && isUndefinedIn env key
         then dset key v env else env)
  end.

(** The loop over the entries of one parsed file; the state is the result
    so far and [process.env]. *)
Fixpoint fromFile (prefix : string) (entries : dict) (st : dict * dict)
  : dict * dict :=
  match entries with
  | [] => st
  | (key, v) :: rest =>
      let '(env, penv) := st in
      fromFile prefix rest
        (if startsWith key prefix && isUndefinedIn env key
         then (dset key v env, penv)
         else if String.eqb key "NODE_ENV"
         then (env, dset "VITE_USER_NODE_ENV" v penv)
         else (env, penv))
  end.

Fixpoint fromFiles (h : host) (root prefix : string) (envFiles : list string)
  (st : dict * dict) : outcome (dict * dict) :=
  match envFiles with
  | [] => Ret st
  | file :: rest =>
      match lookupFile h root file with
      | Some path =>
          if truthy (VStr path) then
            bind (parseFile h path) (fun parsed =>
            fromFiles h root prefix rest
              (fromFile prefix (dotenvExpand h parsed) st))
          else fromFiles h root prefix rest st
      | None => fromFiles h root prefix rest st
      end
  end.

(** [loadEnv(mode, root, prefix)]: the returned mapping and [process.env]
    afterwards. *)
Definition loadEnv (h : host) (penv : dict) (mode root : string)
  (prefix : string) : outcome (dict * dict) :=
  if String.eqb mode "local" then
    Throw ("'local' cannot be used as a mode name because it conflicts with "
           ++ "the .local postfix for .env files.")
  else
    let envFiles := [".env." ++ mode ++ ".local"; ".env." ++ mode;
                     ".env.local"; ".env"] in
    fromFiles h root prefix envFiles (fromProcess prefix penv [], penv).

Definition defaultPrefix : string := "VITE_".

(** Every key of a mapping starts with the prefix. *)
Definition allPrefixed (prefix : string) (env : dict) : Prop :=
  forall key, In key (map fst env) -> startsWith key prefix = true.

End Env.

(* ===================================================================== *)
(** * SSR externalization: the resolver *)
(* ===================================================================== *)

Module SSR.
Import JS.

Record SSROptions : Type := mkSSROptions {
  external : option (list string);
  noExternal : option (list string)
}.

(** The fields of [ResolvedConfig] the resolver reads. *)
Record ResolvedConfig : Type := mkConfig {
  root : string;
  ssr : option SSROptions
}.

(** The collaborators of the resolver. *)
Record host : Type := mkHost {
  (** lookupFile(root, ['package.json']) of ../utils: the manifest's text *)
  lookupFile : string -> option string;
  (** JSON.parse *)
  jsonParse : string -> outcome value;
  (** tryNodeResolve(id, undefined, { root, ... })?.id *)
  tryNodeResolve : string -> string -> outcome (option string);
  (** require.resolve(id, { paths: [root] }) *)
  requireResolve : string -> string -> outcome string;
  (** resolveFrom(id, root) of ../utils *)
  resolveFrom : string -> string -> outcome string;
  (** fs.readFileSync(entry, 'utf-8') *)
  readFileSync : string -> outcome string
}.

(** What the walk asks of the host, in order: each question with the
    directory and the id whose classification asks it. *)
Inductive probe : Type :=
| PResolve (root id : string)
| PRequireResolve (root id : string)
| PRead (root id entry : string).

(** The accumulator set (a [Set]: insertion order, no duplicates) and the
    probes so far. *)
Record state : Type := mkState {
  ssrExternals : list string;
  probes : list probe
}.

Definition mem (id : string) (l : list string) : bool :=
  existsb (String.eqb id) l.

(** [ssrExternals.add(id)] *)
Definition add (id : string) (st : state) : state :=
  mkState (if mem id (ssrExternals st) then ssrExternals st
           else (ssrExternals st ++ [id])%list)
          (probes st).

Definition addAll (ids : list string) (st : state) : state :=
  fold_left (fun s id => add id s) ids st.

Definition probed (p : probe) (st : state) : state :=
  mkState (ssrExternals st) (probes st ++ [p])%list.

(** [/\.m?js$/.test(entry)] *)
Definition isJsEntry (entry : string) : bool :=
  endsWith entry ".js" || endsWith entry ".mjs".

(** The CommonJS markers
    [/\bmodule\.exports\b|\bexports[.\[]|\brequire\s*\(/]. The text is held
    in UTF-8, one byte per character of the string: a word character of
    [\b] is an ASCII letter, digit or underscore, and the white space of
    [\s] takes one, two or three bytes. *)
Definition isWordChar (c : ascii) : bool :=
  let n := nat_of_ascii c in
  (Nat.leb 48 n && Nat.leb n 57) || (Nat.leb 65 n && Nat.leb n 90)
  || (Nat.leb 97 n && Nat.leb n 122) || Nat.eqb n 95.

(** Tab, line feed, vertical tab, form feed, carriage return, space. *)
Definition isSpaceChar (c : ascii) : bool :=
  let n := nat_of_ascii c in
  (Nat.leb 9 n && Nat.leb n 13) || Nat.eqb n 32.

(** U+00A0, the no-break space. *)
Definition isSpace2 (a b : ascii) : bool :=
  Nat.eqb (nat_of_ascii a) 194 && Nat.eqb (nat_of_ascii b) 160.

(** U+1680; U+2000 to U+200A, U+2028, U+2029, U+202F; U+205F; U+3000;
    U+FEFF. *)
Definition isSpace3 (a b c : ascii) : bool :=
  let a := nat_of_ascii a in
  let b := nat_of_ascii b in
  let c := nat_of_ascii c in
  (Nat.eqb a 225 && Nat.eqb b 154 && Nat.eqb c 128)
  || (Nat.eqb a 226 && Nat.eqb b 128
      && ((Nat.leb 128 c && Nat.leb c 138)
          || Nat.eqb c 168 || Nat.eqb c 169 || Nat.eqb c 175))
  || (Nat.eqb a 226 && Nat.eqb b 129 && Nat.eqb c 159)
  || (Nat.eqb a 227 && Nat.eqb b 128 && Nat.eqb c 128)
  || (Nat.eqb a 239 && Nat.eqb b 187 && Nat.eqb c 191).

Fixpoint stripPrefix (lit cs : list ascii) : option (list ascii) :=
  match lit, cs with
  | [], _ => Some cs
  | a :: lit', c :: cs' => if Ascii.eqb a c then stripPrefix lit' cs' else None
  | _ :: _, [] => None
  end.

(** [\s*]: the longest run of white space is skipped. *)
Fixpoint skipSpaces (cs : list ascii) : list ascii :=
  match cs with
  | [] => []
  | a :: cs1 =>
      if isSpaceChar a then skipSpaces cs1
      else
        match cs1 with
        | [] => cs
        | b :: cs2 =>
            if isSpace2 a b then skipSpaces cs2
            else
              match cs2 with
              | [] => cs
              | c :: cs3 => if isSpace3 a b c then skipSpaces cs3 else cs
              end
        end
  end.

(** One of the three alternatives matches at the head of [cs] (the word
    boundary in front is checked by the caller). *)
Definition markerHere (cs : list ascii) : bool :=
  match stripPrefix (list_ascii_of_string "module.exports") cs with
  | Some [] => true
  | Some (c :: _) => negb (isWordChar c)
  | None => false
  end
  || match stripPrefix (list_ascii_of_string "exports") cs with
     | Some (c :: _) => Ascii.eqb c "."%char || Ascii.eqb c "["%char
     | _ => false
     end
  || match stripPrefix (list_ascii_of_string "require") cs with
     | Some rest => match skipSpaces rest with
                    | c :: _ => Ascii.eqb c "("%char
                    | [] => false
                    end
     | None => false
     end.

Fixpoint scanMarkers (prevIsWord : bool) (cs : list ascii) : bool :=
  (negb prevIsWord && markerHere cs)
  || match cs with
     | [] => false
     | c :: cs' => scanMarkers (isWordChar c) cs'
     end.

Definition hasCjsMarkers (content : string) : bool :=
  scanMarkers false (list_ascii_of_string content).

(** [Object.keys(pkg.field || {})] *)
Definition manifestKeys (pkg : value) (field : string) : outcome (list string) :=
  bind (member pkg field) (fun v =>
  Ret (keys (ownProps (if truthy v then v else VObj [])))).

(** One round of [for (const id of deps)]. [recur] is the recursive call
    [resolveSSRExternal({ ...config, root: depRoot }, knownImports,
    ssrExternals)], whose returned list is dropped. *)
Definition classify (recur : ResolvedConfig -> state -> outcome state)
  (h : host) (config : ResolvedConfig) (id : string) (st : state)
  : outcome state :=
  let st1 := probed (PResolve (root config) id) st in
  match tryNodeResolve h id (root config) with
  | Unknown => Unknown
  | Throw _ => Ret st1
  | Ret entry =>
      let st2 := probed (PRequireResolve (root config) id) st1 in
      match requireResolve h id (root config) with
      | Unknown => Unknown
      | Throw _ => Ret st2
      | Ret requireEntry =>
          match entry with
          | None => Ret (add id st2)
          | Some entry =>
              if negb (truthy (VStr entry)) then Ret (add id st2)
              else if negb (includes entry "node_modules") then
                bind (resolveFrom h (id ++ "/package.json") (root config))
                     (fun pkgPath =>
                recur (mkConfig (Path.dirname pkgPath) (ssr config)) st2)
              else if negb (String.eqb entry requireEntry) then
                Ret (add id st2)
              else if negb (isJsEntry entry) then Ret st2
              else
                let st3 := probed (PRead (root config) id entry) st2 in
                bind (readFileSync h entry) (fun content =>
                Ret (if hasCjsMarkers content then add id st3 else st3))
          end
      end
  end.

Fixpoint classifyAll (recur : ResolvedConfig -> state -> outcome state)
  (h : host) (config : ResolvedConfig) (deps : list string) (st : state)
  : outcome state :=
  match deps with
  | [] => Ret st
  | id :: rest =>
      bind (classify recur h config id st) (fun st' =>
      classifyAll recur h config rest st')
  end.

Definition configExternal (config : ResolvedConfig) : option (list string) :=
  match ssr config with
  | Some o => external o
  | None => None
  end.

Definition configNoExternal (config : ResolvedConfig) : option (list string) :=
  match ssr config with
  | Some o => noExternal o
  | None => None
  end.

(** Lines 192-199: the user's lists and the tool's own name. *)
Definition finish (config : ResolvedConfig) (st : state)
  : list string * state :=
  let st' := match configExternal config with
             | Some ext => addAll ext st
             | None => st
             end in
  let externals := ssrExternals st' in
  let externals := match configNoExternal config with
                   | Some no => List.filter (fun id => negb (mem id no)) externals
                   | None => externals
                   end in
  (List.filter (fun id => negb (String.eqb id "vite")) externals, st').

(** [resolveSSRExternal(config, knownImports, ssrExternals)]. The set is
    shared with the recursive calls, so it is returned with the list.
    [fuel] bounds the depth of the recursion into linked packages; a run
    that needs more ends in [Unknown]. *)
Fixpoint resolveSSRExternal (fuel : nat) (h : host) (config : ResolvedConfig)
  (knownImports : list string) (st : state) : outcome (list string * state) :=
  match fuel with
  | O => Unknown
  | S fuel' =>
      match lookupFile h (root config) with
      | None => Ret ([], st)
      | Some pkgContent =>
          if negb (truthy (VStr pkgContent)) then Ret ([], st)
          else
            bind (jsonParse h pkgContent) (fun pkg =>
            bind (manifestKeys pkg "devDependencies") (fun devDeps =>
            bind (manifestKeys pkg "dependencies") (fun pkgDeps =>
            let deps := (knownImports ++ pkgDeps)%list in
            bind (classifyAll
                    (fun c s => omap snd (resolveSSRExternal fuel' h c knownImports s))
                    h config deps (addAll devDeps st)) (fun st' =>
            Ret (finish config st')))))
      end
  end.

(** The manifest of [root] is found and lists these names. *)
Definition manifestOf (h : host) (root : string)
  (devDeps pkgDeps : list string) : Prop :=
  exists pkgContent pkg,
    lookupFile h root = Some pkgContent /\
    truthy (VStr pkgContent) = true /\
    jsonParse h pkgContent = Ret pkg /\
    manifestKeys pkg "devDependencies" = Ret devDeps /\
    manifestKeys pkg "dependencies" = Ret pkgDeps.

(** The root's manifest is found: [lookupFile] returns a non-empty text. *)
Definition manifestFound (h : host) (root : string) : Prop :=
  exists pkgContent,
    lookupFile h root = Some pkgContent /\ truthy (VStr pkgContent) = true.

(** [id] is listed in [ssr.external], in [ssr.noExternal]. *)
Definition listedExternal (config : ResolvedConfig) (id : string) : bool :=
  match configExternal config with
  | Some ext => mem id ext
  | None => false
  end.

Definition listedNoExternal (config : ResolvedConfig) (id : string) : bool :=
  match configNoExternal config with
  | Some no => mem id no
  | None => false
  end.

(** [id] is a candidate of the pass at [root]: the manifest of [root]
    is found, and [id] is a known import or one of its [dependencies]
    names. *)
Definition candidateOf (h : host) (knownImports : list string)
  (root id : string) : Prop :=
  exists devDeps pkgDeps,
    manifestOf h root devDeps pkgDeps /\ In id (knownImports ++ pkgDeps)%list.

(** What justifies a probe. A resolution is of a candidate of its root;
    the second one follows a first one that returned. A read is of the
    entry of a candidate of its root, when both resolutions returned that
    entry, it is inside an installation directory and it is a script. *)
Definition candidate (h : host) (knownImports : list string) (p : probe)
  : Prop :=
  match p with
  | PResolve root id => candidateOf h knownImports root id
  | PRequireResolve root id =>
      candidateOf h knownImports root id /\
      exists entry, tryNodeResolve h id root = Ret entry
  | PRead root id entry =>
      candidateOf h knownImports root id /\
      tryNodeResolve h id root = Ret (Some entry) /\
      requireResolve h id root = Ret entry /\
      includes entry "node_modules" = true /\
      isJsEntry entry = true
  end.

(** How a state relates to an earlier one of the same pass: the set only
    gains members and stays free of duplicates, the probes are extended by
    justified ones. *)
Definition grows (h : host) (knownImports : list string) (st st' : state)
  : Prop :=
  incl (ssrExternals st) (ssrExternals st') /\
  (NoDup (ssrExternals st) -> NoDup (ssrExternals st')) /\
  exists ext, probes st' = (probes st ++ ext)%list
              /\ Forall (candidate h knownImports) ext.

(** The probes the classification of [id] at [root] makes, as the
    answers of the host have it: the first resolution always; the second
    when the first returned; the read when both returned the same script
    inside an installation directory. *)
Definition classificationProbes (h : host) (root id : string) : list probe :=
  PResolve root id ::
  match tryNodeResolve h id root with
  | Ret entry =>
      PRequireResolve root id ::
      match requireResolve h id root, entry with
      | Ret requireEntry, Some e =>
          if truthy (VStr e) && includes e "node_modules"
             && String.eqb e requireEntry && isJsEntry e
          then [PRead root id e] else []
      | _, _ => []
      end
  | _ => []
  end.

(** The directories a pass started at [root0] enters: [root0] itself,
    and the directory of the manifest of every candidate that resolves
    outside an installation directory (a linked package), from a directory
    it enters whose manifest is found. *)
Inductive visited (h : host) (knownImports : list string) (root0 : string)
  : string -> Prop :=
| visited_root : visited h knownImports root0 root0
| visited_link (r id entry requireEntry pkgPath : string) :
    visited h knownImports root0 r ->
    candidateOf h knownImports r id ->
    tryNodeResolve h id r = Ret (Some entry) ->
    requireResolve h id r = Ret requireEntry ->
    truthy (VStr entry) = true ->
    includes entry "node_modules" = false ->
    resolveFrom h (id ++ "/package.json") r = Ret pkgPath ->
    visited h knownImports root0 (Path.dirname pkgPath).

(** Two states of the same pass run from two initial sets [S1] and [S2]:
    the probes are the same, and the sets are the initial ones extended by
    the same ids. *)
Definition twin (S1 S2 : list string) (st1 st2 : state) : Prop :=
  probes st1 = probes st2 /\
  exists added,
    (forall x, In x (ssrExternals st1) <-> In x S1 \/ In x added) /\
    (forall x, In x (ssrExternals st2) <-> In x S2 \/ In x added).

End SSR.

(* ===================================================================== *)
(** * Concrete projects used to exercise the definitions *)
(* ===================================================================== *)

Module Examples.
Import JS.

(** ** A project for the SSR resolver

    /app lists mocha as a devDependency and lodash, linked and esm-only as
    dependencies; linked is a workspace package at /ws/linked that depends
    on cjs-dep. mocha does not resolve. *)
Definition appManifest : value :=
  VObj [("devDependencies", VObj [("mocha", VStr "^8.0.0")]);
        ("dependencies", VObj [("lodash", VStr "^4.0.0");
                               ("linked", VStr "workspace:*");
                               ("esm-only", VStr "^1.0.0")])].

Definition linkedManifest : value :=
  VObj [("dependencies", VObj [("cjs-dep", VStr "^1.0.0")])].

Definition ssrHost : SSR.host :=
  SSR.mkHost
    (fun root =>
       if String.eqb root "/app" then Some "<package.json of /app>"
       else if String.eqb root "/ws/linked" then Some "<package.json of linked>"
       else None)
    (fun text =>
       if String.eqb text "<package.json of /app>" then Ret appManifest
       else if String.eqb text "<package.json of linked>" then Ret linkedManifest
       else Throw "Unexpected token")
    (fun id root =>
       if String.eqb id "lodash" then Ret (Some "/app/node_modules/lodash/lodash.js")
       else if String.eqb id "linked" then Ret (Some "/ws/linked/index.js")
       else if String.eqb id "esm-only" then Ret (Some "/app/node_modules/esm-only/index.mjs")
       else if String.eqb id "cjs-dep" then Ret (Some "/app/node_modules/cjs-dep/index.mjs")
       else if String.eqb id "left-pad" then Ret None
       else Throw "Cannot find module")
    (fun id root =>
       if String.eqb id "lodash" then Ret "/app/node_modules/lodash/lodash.js"
       else if String.eqb id "linked" then Ret "/ws/linked/index.js"
       else if String.eqb id "esm-only" then Ret "/app/node_modules/esm-only/index.mjs"
       else if String.eqb id "cjs-dep" then Ret "/app/node_modules/cjs-dep/index.cjs"
       else if String.eqb id "left-pad" then Ret "/app/node_modules/left-pad/index.js"
       else Throw "Cannot find module")
    (fun id root =>
       if String.eqb id "linked/package.json" then Ret "/ws/linked/package.json"
       else Throw "Cannot find module")
    (fun entry =>
       if String.eqb entry "/app/node_modules/lodash/lodash.js"
       then Ret "var _ = {}; module.exports = _;"
       else if String.eqb entry "/app/node_modules/esm-only/index.mjs"
       then Ret "export default function exportsTable () {}"
       else Throw "ENOENT").

Definition appConfig : SSR.ResolvedConfig :=
  SSR.mkConfig "/app"
    (Some (SSR.mkSSROptions (Some ["forced"; "vite"]) (Some ["lodash"]))).

Definition emptyState : SSR.state := SSR.mkState [] [].

(** /plain has an empty manifest; the user forces the tool itself. *)
Definition plainHost : SSR.host :=
  SSR.mkHost
    (fun root => if String.eqb root "/plain" then Some "{}" else None)
    (fun text => Ret (VObj []))
    (fun id root => Throw "Cannot find module")
    (fun id root => Throw "Cannot find module")
    (fun id root => Throw "Cannot find module")
    (fun entry => Throw "ENOENT").

Definition plainConfig : SSR.ResolvedConfig :=
  SSR.mkConfig "/plain" (Some (SSR.mkSSROptions (Some ["vite"]) None)).

(** /dev lists mocha, which resolves to a CommonJS entry, under
    devDependencies, and the optimizer has seen it imported. *)
Definition devManifest : value :=
  VObj [("devDependencies", VObj [("mocha", VStr "^8.0.0")])].

Definition devHost : SSR.host :=
  SSR.mkHost
    (fun root => if String.eqb root "/dev" then Some "<package.json of /dev>" else None)
    (fun text => Ret devManifest)
    (fun id root => Ret (Some "/dev/node_modules/mocha/index.js"))
    (fun id root => Ret "/dev/node_modules/mocha/index.js")
    (fun id root => Throw "Cannot find module")
    (fun entry => Ret "module.exports = require('./lib/mocha')").

Definition devConfig : SSR.ResolvedConfig := SSR.mkConfig "/dev" None.

(** /loop is a workspace package that lists itself as a dependency. *)
Definition loopHost : SSR.host :=
  SSR.mkHost
    (fun root => Some "<package.json of /loop>")
    (fun text => Ret (VObj [("dependencies", VObj [("loop", VStr "workspace:*")])]))
    (fun id root => Ret (Some "/loop/index.js"))
    (fun id root => Ret "/loop/index.js")
    (fun id root => Ret "/loop/package.json")
    (fun entry => Ret "export {}").

(** ** A project for the config loader and the plugin pipeline

    /site is an ES-module package ("type": "module") whose config file is
    vite.config.ts. The compiled config exports four plugins,
    A (untagged), B (pre), C (post), D (pre), and a serve-only plugin E;
    every plugin has both hooks. *)
Definition plugin (name : string) (tags : list (string * value)) : value :=
  VObj ((("name", VStr name) :: tags) ++
        [("config", VFun (name ++ ".config"));
         ("configResolved", VFun (name ++ ".configResolved"))])%list.

Definition pluginA : value := plugin "A" [].
Definition pluginB : value := plugin "B" [("enforce", VStr "pre")].
Definition pluginC : value := plugin "C" [("enforce", VStr "post")].
Definition pluginD : value := plugin "D" [("enforce", VStr "pre")].
Definition pluginE : value := plugin "E" [("apply", VStr "serve")].

Definition siteConfig : value :=
  VObj [("plugins", VArr [pluginA; VArr [pluginB; pluginE]; pluginC; pluginD])].

Definition siteHost (importResult : outcome value) : Config.host :=
  Config.mkHost
    "/site"
    (fun segments => String.concat "/" segments)
    (fun path => path)
    (fun dir => if String.eqb dir "/site" then Some "<package.json of /site>" else None)
    (fun text => Ret (VObj [("type", VStr "module")]))
    (fun fileName mjs => Ret ("<bundle of " ++ fileName ++ ">"))
    (fun text => if String.eqb text "<bundle of /site/vite.config.ts>"
                 then importResult else Throw "SyntaxError")
    (fun text => Throw "Must use import to load ES Module")
    (fun this f args =>
       match f with
       | VFun "B.config" => Ret (VObj [("define", VObj [("FLAG", VBool true)])])
       | _ => Ret VUndefined
       end)
    (fun config userPlugins => Ret (VObj (("command", VStr "build") :: config))).

Definition siteWorld : Config.world :=
  Config.mkWorld {[ "/site/vite.config.ts" := "<source of vite.config.ts>" ]} [].

(** The compiled config evaluates. *)
Definition goodSite : Config.host :=
  siteHost (Ret (VObj [("default", siteConfig)])).

(** The compiled config throws while it is evaluated. *)
Definition brokenSite : Config.host :=
  siteHost (Throw "boom").

Definition buildEnv : value := Config.configEnvValue (VStr "build") (VStr "production").

(** ** An environment for loadEnv *)
Definition envHost : Env.host :=
  Env.mkHost
    (fun root file =>
       if String.eqb file ".env" then Some (root ++ "/.env")
       else if String.eqb file ".env.production" then Some (root ++ "/.env.production")
       else None)
    (fun path =>
       if String.eqb path "/site/.env"
       then Ret [("VITE_TITLE", "site"); ("SECRET", "hunter2"); ("NODE_ENV", "production")]
       else Ret [("VITE_TITLE", "prod site"); ("VITE_API", "/api")])
    (fun parsed => parsed).

Definition processEnv : Env.dict :=
  [("PATH", "/usr/bin"); ("VITE_INLINE", "1"); ("HOME", "/root")].

(** ** Configs for the merger *)
Definition srcAlias : value :=
  VObj [("find", VStr "/src/"); ("replacement", VStr "/root/")].

Definition libAlias : value :=
  VObj [("find", VStr "/lib"); ("replacement", VStr "/vendor/lib")].

Definition badAlias : value :=
  VObj [("find", VStr "/a/"); ("replacement", VNum 5)].

End Examples.

(* ===================================================================== *)
(** * config.ts: the resolved alias list and the public base *)
(* ===================================================================== *)

Module Resolve.
Import JS.

(** The internal alias of lines 260: a regular expression for the reserved
    prefix, and a function as the replacement. *)
Definition clientAlias : value :=
  VObj [("find", VRegExp "^\/@vite\/");
        ("replacement", VFun "() => CLIENT_DIR + '/'")].

(** [config.resolve?.alias || config.alias || []] *)
Definition userAliasOption (config : obj) : value :=
  let resolveAlias :=
    match get "resolve" config with
    | VUndefined | VNull => VUndefined
    | r => prop r "alias"
    end in
  if truthy resolveAlias then resolveAlias
  else if truthy (get "alias" config) then get "alias" config
  else VArr [].

(** Lines 255-262 of [resolveConfig]: the alias list of the resolved
    config. *)
Definition resolvedAlias (config : obj) : outcome value :=
  Merge.mergeAlias (VArr [clientAlias]) (userAliasOption config).

(** The number of entries an [alias] option holds: the elements of a list,
    the keys of any other value; [undefined] stands for the empty list. *)
Definition aliasEntries (o : value) : nat :=
  match o with
  | VArr l => List.length l
  | VUndefined => 0
  | _ => List.length (ownProps o)
  end.

(** The warnings of [resolveBaseUrl], by message. *)
Inductive warning : Type :=
| WInvalidBase (base : string)
| WLeadingSlash
| WTrailingSlash.

(** The collaborators of [resolveBaseUrl]. *)
Record host : Type := mkHost {
  (** isExternalUrl of ./utils *)
  isExternalUrl : string -> bool;
  (** url.parse(base).pathname; [None] is null *)
  parsePathname : string -> option string
}.

(** [resolveBaseUrl(base = '/', isBuild, logger)]: the base and the
    warnings logged, in order. *)
Definition resolveBaseUrl (h : host) (base : option string) (isBuild : bool)
  : string * list warning :=
  let base := match base with Some b => b | None => "/" end in
  if String.eqb base EmptyString || String.eqb base "./" then
    (if isBuild then base else "/", [])
  else
    let '(base, w1) :=
      if startsWith base "." then ("/", [WInvalidBase base]) else (base, []) in
    let '(base, w2) :=
      if isExternalUrl h base then
        if negb isBuild then
          (match parsePathname h base with
           | Some p => if truthy (VStr p) then p else "/"
           | None => "/"
           end, [])
        else (base, [])
      else if negb (startsWith base "/") then ("/" ++ base, [WLeadingSlash])
      else (base, []) in
    let '(base, w3) :=
      if negb (endsWith base "/") then (base ++ "/", [WTrailingSlash])
      else (base, []) in
    (base, (w1 ++ w2 ++ w3)%list).

End Resolve.

(* ===================================================================== *)
(** * Relations between the world before and after a piece of code *)
(* ===================================================================== *)

Module Effects.
Import JS Config.

(** The only events added are calls of the function a config file
    exports. *)
Definition onlyConfigFn (w w' : world) : Prop :=
  exists l, log w' = (log w ++ l)%list /\ Forall (fun e => e = EConfigFn) l.

(** The file system is the same. *)
Definition filesSame (w w' : world) : Prop := files w' = files w.

(** The file system is the same at one path. *)
Definition sameAt (path : string) (w w' : world) : Prop :=
  files w' !! path = files w !! path.

(** What the discovery block of [loadConfigFromFile] finds for the
    arguments of a call: the resolved path, [isTS] and [isMjs]. *)
Definition discovered (h : host) (configFile configRoot : option string)
  (w : world) : option string * bool * bool :=
  let configRoot := match configRoot with Some r => r | None => cwd h end in
  discover h
    (match configFile with
     | Some f => if truthy (VStr f) then Some f else None
     | None => None
     end)
    configRoot (packageIsModule h configRoot) w.

End Effects.

(* ===================================================================== *)
(** * What the walk of the SSR resolver decides *)
(* ===================================================================== *)

Module Walk.
Import JS SSR.

(** The heuristic of lines 149-189 adds [id], resolved from [root]: both
    resolutions return, and either there is no ESM entry, or the entry lies
    in an installation directory and differs from the entry of [require],
    or it is a script whose text holds a CommonJS marker. *)
Definition classifiedCjs (h : host) (root id : string) : Prop :=
  exists entry requireEntry,
    tryNodeResolve h id root = Ret entry /\
    requireResolve h id root = Ret requireEntry /\
    match entry with
    | None => True
    | Some e =>
        truthy (VStr e) = false \/
        (includes e "node_modules" = true /\
         (e <> requireEntry \/
          (isJsEntry e = true /\
           exists content,
             readFileSync h e = Ret content /\ hasCjsMarkers content = true)))
    end.

(** The ways an id gets into the set during a pass: the user lists it in
    [ssr.external]; it is a devDependency of the manifest of a directory
    the pass enters; it is a candidate of such a manifest and the
    heuristic adds it there. *)
Definition admitted (h : host) (knownImports : list string)
  (config : ResolvedConfig) (id : string) : Prop :=
  listedExternal config id = true \/
  exists root devDeps pkgDeps,
    visited h knownImports (SSR.root config) root /\
    manifestOf h root devDeps pkgDeps /\
    (In id devDeps \/
     (In id (knownImports ++ pkgDeps)%list /\ classifiedCjs h root id)).

Definition onlyAdmitted (h : host) (knownImports : list string)
  (config : ResolvedConfig) (st st' : state) : Prop :=
  forall x, In x (ssrExternals st') ->
            In x (ssrExternals st) \/ admitted h knownImports config x.

(** The classification of [id] from [root] needs no recursion and no
    answer the host does not give: the resolutions return or throw, an ESM
    entry lies in an installation directory, and the entry that would be
    scanned can be read. *)
Definition staysLocal (h : host) (root id : string) : Prop :=
  match tryNodeResolve h id root with
  | Unknown => False
  | Throw _ => True
  | Ret entry =>
      match requireResolve h id root with
      | Unknown => False
      | Throw _ => True
      | Ret requireEntry =>
          match entry with
          | None => True
          | Some e =>
              truthy (VStr e) = true ->
              includes e "node_modules" = true /\
              (String.eqb e requireEntry = true -> isJsEntry e = true ->
               exists content, readFileSync h e = Ret content)
          end
      end
  end.

(** The import id holds a path separator. *)
Definition hasSlash (id : string) : bool :=
  existsb Path.is_slash (list_ascii_of_string id).

End Walk.

(* ===================================================================== *)
(** * More concrete projects *)
(* ===================================================================== *)

Module Examples2.
Import JS.

(** /cjs is a CommonJS package with both vite.config.js and
    vite.config.ts on disk. *)
Definition cjsHost : Config.host :=
  Config.mkHost
    "/cjs"
    (fun segments => String.concat "/" segments)
    (fun path => path)
    (fun dir => None)
    (fun text => Throw "Unexpected token")
    (fun fileName mjs => Ret ("<bundle of " ++ fileName ++ ">"))
    (fun text => Throw "Cannot use import statement outside a module")
    (fun text => if String.eqb text "<source of vite.config.js>"
                 then Ret (VObj [("base", VStr "/app/")])
                 else Throw "SyntaxError")
    (fun this f args => Ret VUndefined)
    (fun config userPlugins => Ret (VObj config)).

Definition cjsWorld : Config.world :=
  Config.mkWorld
    (<[ "/cjs/vite.config.js" := "<source of vite.config.js>" ]>
       {[ "/cjs/vite.config.ts" := "<source of vite.config.ts>" ]})
    [].

(** /empty has no config file at all. *)
Definition emptyWorld : Config.world := Config.mkWorld ∅ [].

(** The hooks of plugin A throw. *)
Definition failingHooks : Config.host :=
  Config.mkHost
    "/site"
    (fun segments => String.concat "/" segments)
    (fun path => path)
    (fun dir => None)
    (fun text => Throw "Unexpected token")
    (fun fileName mjs => Throw "no bundle")
    (fun text => Throw "no import")
    (fun text => Throw "no require")
    (fun this f args =>
       match f with
       | VFun "A.config" => Throw "A failed"
       | _ => Ret VUndefined
       end)
    (fun config userPlugins => Ret (VObj config)).

Definition fourPlugins : obj :=
  [("plugins", VArr [Examples.pluginA; Examples.pluginB; Examples.pluginC;
                     Examples.pluginD])].

(** Two .env files that disagree on NODE_ENV. *)
Definition nodeEnvHost : Env.host :=
  Env.mkHost
    (fun root file =>
       if String.eqb file ".env" then Some (root ++ "/.env")
       else if String.eqb file ".env.staging" then Some (root ++ "/.env.staging")
       else None)
    (fun path =>
       if String.eqb path "/site/.env" then Ret [("NODE_ENV", "production")]
       else Ret [("NODE_ENV", "staging")])
    (fun parsed => parsed).

(** A host that takes http(s) URLs as external and splits off their
    path after the host name www.example.com. *)
Definition urlHost : Resolve.host :=
  Resolve.mkHost
    (fun s => JS.startsWith s "http://" || JS.startsWith s "https://")
    (fun s =>
       if JS.startsWith s "https://www.example.com" then
         Some (substring 23 (String.length s - 23) s)
       else None).

End Examples2.

(* ===================================================================== *)
(** * Properties *)
(* ===================================================================== *)

Local Open Scope list_scope.

(** ** Objects *)

Section ObjectFacts.
Import JS.

Lemma eqb_key_refl (k : string) : String.eqb k k = true.
Proof. apply String.eqb_refl. Qed.

Lemma get_replace_same key v (o : obj) :
  has key o = true -> get key (replace key v o) = v.
Proof.
  induction o as [|[k w] o IH]; simpl; [discriminate|].
  destruct (String.eqb k key) eqn:E; simpl; rewrite E; auto.
Qed.

Lemma get_replace_other key k v (o : obj) :
  k <> key -> get k (replace key v o) = get k o.
Proof.
  intros Hne. induction o as [|[k' w] o IH]; simpl; [reflexivity|].
  destruct (String.eqb k' key) eqn:E; simpl.
  - apply String.eqb_eq in E. subst k'.
    destruct (String.eqb key k) eqn:E'; [|reflexivity].
    apply String.eqb_eq in E'. congruence.
  - destruct (String.eqb k' k); auto.
Qed.

Lemma get_app_new key v (o : obj) :
  has key o = false -> get key (o ++ [(key, v)]) = v.
Proof.
  induction o as [|[k w] o IH]; simpl.
  - now rewrite String.eqb_refl.
  - destruct (String.eqb k key); simpl; [discriminate|auto].
Qed.

Lemma get_app_other key k v (o : obj) :
  k <> key -> get k (o ++ [(key, v)]) = get k o.
Proof.
  intros Hne. induction o as [|[k' w] o IH]; simpl.
  - destruct (String.eqb key k) eqn:E; [|reflexivity].
    apply String.eqb_eq in E. congruence.
  - destruct (String.eqb k' k); auto.
Qed.

Lemma get_set_same key v (o : obj) : get key (set key v o) = v.
Proof.
  unfold set. destruct (has key o) eqn:E.
  - now apply get_replace_same.
  - now apply get_app_new.
Qed.

Lemma get_set_other key k v (o : obj) :
  k <> key -> get k (set key v o) = get k o.
Proof.
  intros Hne. unfold set. destruct (has key o).
  - now apply get_replace_other.
  - now apply get_app_other.
Qed.

Lemma has_replace key k v (o : obj) : has k (replace key v o) = has k o.
Proof.
  induction o as [|[k' w] o IH]; simpl; [reflexivity|].
  destruct (String.eqb k' key); simpl; [reflexivity|now rewrite IH].
Qed.

Lemma has_app key k v (o : obj) :
  has k (o ++ [(key, v)]) = has k o || String.eqb key k.
Proof.
  induction o as [|[k' w] o IH]; simpl.
  - now rewrite orb_false_r.
  - rewrite IH. now rewrite orb_assoc.
Qed.

Lemma has_set_other key k v (o : obj) :
  k <> key -> has k (set key v o) = has k o.
Proof.
  intros Hne. unfold set. destruct (has key o).
  - apply has_replace.
  - rewrite has_app. destruct (String.eqb key k) eqn:E.
    + apply String.eqb_eq in E. congruence.
    + now rewrite orb_false_r.
Qed.

Lemma has_set_same key v (o : obj) : has key (set key v o) = true.
Proof.
  unfold set. destruct (has key o) eqn:E.
  - now rewrite has_replace.
  - rewrite has_app, String.eqb_refl. apply orb_true_r.
Qed.

Lemma get_absent key (o : obj) : has key o = false -> get key o = VUndefined.
Proof.
  induction o as [|[k w] o IH]; simpl; [reflexivity|].
  destruct (String.eqb k key); simpl; [discriminate|auto].
Qed.

Lemma has_keys key (o : obj) : has key o = true <-> In key (keys o).
Proof.
  induction o as [|[k w] o IH]; simpl.
  - split; [discriminate|tauto].
  - rewrite orb_true_iff, IH, String.eqb_eq. tauto.
Qed.

End ObjectFacts.

(** ** The config merger *)

Section MergeFacts.
Import JS Merge.

(** The recursive definition runs the loop round by round. *)
Lemma mergeConfig_loop (b : obj) : forall (a : obj) (isRoot : bool),
  mergeConfig a b isRoot = mergeLoop isRoot a b.
Proof.
  unfold mergeConfig. induction b as [|[key val] b IH]; intros a isRoot.
  - reflexivity.
  - specialize (IH) as IHb. cbn [mergeConfigRec mergeLoop].
    cbn [mergeConfigRec] in IHb.
    destruct (nullish val) eqn:Hn; [apply IHb|].
    unfold mergeField. cbv zeta.
    destruct (existingOf a key) eqn:Hg, val;
      cbn [bind omap nullish negb andb];
      try discriminate;
      repeat match goal with
      | |- context [if ?c then _ else _] => destruct c
      | |- context [bind (mergeAlias ?x ?y) _] => destruct (mergeAlias x y)
      end; cbn [bind];
      try reflexivity;
      try (match goal with
           | |- bind (assign ?k ?v ?o) _ = _ => destruct (assign k v o)
           end; cbn [bind]; solve [apply IHb|reflexivity]).
    unfold mergeConfig. cbn [mergeConfigRec].
    match goal with |- context [bind ?m _] => destruct m end;
      cbn [bind omap]; try reflexivity.
    match goal with
    | |- bind (assign ?k ?v ?o) _ = _ => destruct (assign k v o)
    end; cbn [bind]; solve [apply IHb|reflexivity].
Qed.

Lemma assign_inv key v (merged merged' : obj) :
  assign key v merged = Ret merged' ->
  if reachesPrototype key merged then merged' = merged
  else merged' = set key v merged.
Proof.
  unfold assign. destruct (reachesPrototype key merged).
  - destruct v; intros H; now inversion H.
  - intros H. now inversion H.
Qed.

Lemma assign_other key v (merged : obj) :
  String.eqb key "__proto__" = false ->
  assign key v merged = Ret (set key v merged).
Proof.
  intros E. unfold assign, reachesPrototype. rewrite E.
  now rewrite andb_false_r.
Qed.

Lemma assign_get_other key k v (merged merged' : obj) :
  assign key v merged = Ret merged' -> k <> key ->
  get k merged' = get k merged /\ has k merged' = has k merged.
Proof.
  intros H Hne. apply assign_inv in H.
  destruct (reachesPrototype key merged); subst merged'; [auto|].
  now rewrite get_set_other, has_set_other.
Qed.

(** Under any key that has a property of its own in [merged], and under
    any key but [__proto__], the loop stores what it would store had it
    read the own property: an inherited method is no array and no plain
    mapping, and its name is not one of the two special ones. *)
Lemma mergeField_existingOf isRoot key (merged : obj) (v : value) :
  reachesPrototype key merged = false ->
  mergeField isRoot key (existingOf merged key) v
  = mergeField isRoot key (get key merged) v.
Proof.
  unfold reachesPrototype, existingOf. intros H.
  destruct (has key merged) eqn:Hh; [reflexivity|]. cbn [negb andb] in H.
  rewrite H. rewrite (get_absent _ _ Hh).
  destruct (existsb (String.eqb key) prototypeMethods) eqn:Hm;
    [|reflexivity].
  assert (Ea : String.eqb key "alias" = false).
  { destruct (String.eqb key "alias") eqn:E; [|reflexivity].
    apply String.eqb_eq in E. subst key. discriminate. }
  assert (Ei : String.eqb key "assetsInclude" = false).
  { destruct (String.eqb key "assetsInclude") eqn:E; [|reflexivity].
    apply String.eqb_eq in E. subst key. discriminate. }
  unfold mergeField. rewrite Ea, Ei.
  destruct v; cbn [nullish negb andb]; now rewrite ?andb_false_r.
Qed.

(** What the merged copy holds under each key, for an override whose keys
    are pairwise distinct. *)
Lemma mergeLoop_get (isRoot : bool) (entries : obj) :
  NoDup (keys entries) ->
  forall (merged m : obj), mergeLoop isRoot merged entries = Ret m ->
  forall key,
    if nullish (get key entries) || reachesPrototype key merged
    then get key m = get key merged /\ has key m = has key merged
    else mergeField isRoot key (get key merged) (get key entries)
         = Ret (get key m) /\ has key m = true.
Proof.
  induction entries as [|[k v] rest IH]; intros Hnd merged m Hm key.
  - simpl in *. inversion Hm. auto.
  - simpl in Hnd. inversion Hnd as [|? ? Hnotin Hnd']; subst.
    assert (Habs : get k rest = VUndefined).
    { apply get_absent. destruct (has k rest) eqn:E; [|reflexivity].
      apply has_keys in E. contradiction. }
    cbn [mergeLoop] in Hm. cbn [get].
    destruct (nullish v) eqn:Hv.
    + specialize (IH Hnd' _ _ Hm key).
      destruct (String.eqb k key) eqn:E.
      * apply String.eqb_eq in E. subst key. rewrite Hv.
        rewrite Habs in IH. cbn [nullish orb] in *. exact IH.
      * exact IH.
    + destruct (mergeField isRoot k (existingOf merged k) v) as [v'| |] eqn:Hf;
        cbn [bind] in Hm; try discriminate.
      destruct (assign k v' merged) as [merged'| |] eqn:Ha;
        cbn [bind] in Hm; try discriminate.
      specialize (IH Hnd' _ _ Hm key).
      destruct (String.eqb k key) eqn:E.
      * apply String.eqb_eq in E. subst key. rewrite Hv.
        rewrite Habs in IH. cbn [nullish orb] in *.
        apply assign_inv in Ha.
        destruct (reachesPrototype k merged) eqn:Hr.
        -- subst merged'. exact IH.
        -- subst merged'. destruct IH as [IHg IHh].
           rewrite get_set_same in IHg. rewrite has_set_same in IHh.
           rewrite mergeField_existingOf in Hf by assumption.
           split; [now rewrite IHg|exact IHh].
      * assert (Hne : key <> k).
        { intros ->. now rewrite String.eqb_refl in E. }
        destruct (assign_get_other _ _ _ _ _ Ha Hne) as [Hg Hh].
        unfold reachesPrototype in *. rewrite Hg, Hh in IH. exact IH.
Qed.

Lemma mergeConfig_get (a b m : obj) (isRoot : bool) :
  NoDup (keys b) -> mergeConfig a b isRoot = Ret m ->
  forall key,
    if nullish (get key b) || reachesPrototype key a
    then get key m = get key a /\ has key m = has key a
    else mergeField isRoot key (get key a) (get key b) = Ret (get key m)
         /\ has key m = true.
Proof.
  intros Hnd Hm. rewrite mergeConfig_loop in Hm.
  exact (mergeLoop_get isRoot b Hnd a m Hm).
Qed.

Lemma reachesPrototype_other key (a : obj) :
  String.eqb key "__proto__" = false -> reachesPrototype key a = false.
Proof. intros E. unfold reachesPrototype. rewrite E. apply andb_false_r. Qed.

Lemma own_value_not_prototype key (a : obj) :
  nullish (get key a) = false -> reachesPrototype key a = false.
Proof.
  intros H. unfold reachesPrototype. destruct (has key a) eqn:E;
    [reflexivity|]. rewrite (get_absent _ _ E) in H. discriminate.
Qed.

(** C4 (as amended). The generic rules of [mergeConfig], for a merge that
    returns: a key that the override lacks or holds with a nullish value
    keeps the base value; two arrays are concatenated, base elements first,
    nothing dropped; two plain mappings are merged recursively; at the root
    a non-nullish base value under [alias] or [assetsInclude] is handled
    apart; in every other case the override's value replaces the base's
    value, except under [__proto__] when the base has no own property of
    that name: the assignment then reaches the accessor of
    Object.prototype, and the copy gets no such property. The three
    documented examples evaluate as stated. *)
Theorem mergeConfig_generic_rules (a b m : obj) (isRoot : bool) (key : string) :
  NoDup (keys b) ->
  mergeConfig a b isRoot = Ret m ->
  (nullish (get key b) = true ->
     get key m = get key a /\ has key m = has key a) /\
  (forall xs ys, get key a = VArr xs -> get key b = VArr ys ->
     get key m = VArr (xs ++ ys)) /\
  (forall ea eb, get key a = VObj ea -> get key b = VObj eb ->
     exists r, mergeConfig ea eb false = Ret r /\ get key m = VObj r) /\
  (nullish (get key b) = false ->
   isArray (get key a) && isArray (get key b) = false ->
   isObject (get key a) && isObject (get key b) = false ->
   rootSpecial isRoot key (get key a) = false ->
   reachesPrototype key a = false ->
     get key m = get key b) /\
  (reachesPrototype key a = true ->
     has key m = false /\ get key m = VUndefined) /\
  mergeConfig [("a", VArr [VNum 1])] [("a", VArr [VNum 2])] true
    = Ret [("a", VArr [VNum 1; VNum 2])] /\
  mergeConfig [("a", VNum 1)] [("a", VNum 2)] true = Ret [("a", VNum 2)] /\
  mergeConfig [("a", VNum 1)] [("a", VUndefined)] true = Ret [("a", VNum 1)].
Proof.
  intros Hnd Hm. pose proof (mergeConfig_get a b m isRoot Hnd Hm key) as H.
  split; [|split; [|split; [|split; [|split; [|repeat split; reflexivity]]]]].
  - intros Hn. rewrite Hn in H. exact H.
  - intros xs ys Ha Hb.
    rewrite own_value_not_prototype in H by now rewrite Ha.
    rewrite Ha, Hb in H. cbn in H. destruct H as [H _]. congruence.
  - intros ea eb Ha Hb.
    rewrite own_value_not_prototype in H by now rewrite Ha.
    rewrite Ha, Hb in H. cbn [nullish mergeField orb] in H.
    destruct H as [H _].
    unfold omap in H. destruct (mergeConfig ea eb false) as [r| |];
      cbn [bind] in H; try discriminate.
    exists r. split; [reflexivity|congruence].
  - intros Hn Harr Hobj Hsp Hr. rewrite Hn, Hr in H. cbn [orb] in H.
    destruct H as [H _]. unfold rootSpecial in Hsp.
    unfold mergeField in H.
    destruct (get key a) eqn:Ha, (get key b) eqn:Hb;
      cbn [isArray isObject andb nullish negb] in *; try discriminate;
      destruct isRoot; cbn [andb] in *;
      destruct (String.eqb key "alias"); cbn [orb] in *; try discriminate;
      destruct (String.eqb key "assetsInclude"); try discriminate;
      congruence.
  - intros Hr. rewrite Hr, orb_true_r in H. destruct H as [Hg Hh].
    unfold reachesPrototype in Hr. apply andb_true_iff in Hr as [Hr _].
    apply negb_true_iff in Hr. rewrite Hh, Hg.
    split; [exact Hr|now apply get_absent].
Qed.

(** The same rules at a concrete pair of configs. *)
Lemma mergeConfig_generic_rules_witness :
  NoDup (keys [("root", VStr "/site"); ("build", VUndefined);
               ("plugins", VArr [VStr "q"])]) /\
  get "plugins"
    [("build", VObj [("minify", VBool false)]);
     ("plugins", VArr [VStr "p"; VStr "q"]); ("root", VStr "/site")]
  = VArr ([VStr "p"] ++ [VStr "q"]).
Proof.
  assert (Hnd : NoDup (keys [("root", VStr "/site"); ("build", VUndefined);
                             ("plugins", VArr [VStr "q"])])).
  { repeat constructor; cbn; intuition discriminate. }
  split; [exact Hnd|].
  destruct (mergeConfig_generic_rules
              [("build", VObj [("minify", VBool false)]);
               ("plugins", VArr [VStr "p"])]
              [("root", VStr "/site"); ("build", VUndefined);
               ("plugins", VArr [VStr "q"])]
              [("build", VObj [("minify", VBool false)]);
               ("plugins", VArr [VStr "p"; VStr "q"]); ("root", VStr "/site")]
              true "plugins" Hnd eq_refl) as (_ & Harr & _).
  apply Harr; reflexivity.
Defined.

(** C4, the claim as stated fails: with plain mappings on both sides the
    override's value does not replace the base's value (the two are merged),
    and at the root a scalar [assetsInclude] is not replaced either. *)
Lemma mergeConfig_replace_counterexample :
  mergeConfig [("a", VObj [("x", VNum 1)])] [("a", VObj [("y", VNum 2)])] true
    = Ret [("a", VObj [("x", VNum 1); ("y", VNum 2)])] /\
  nullish (VObj [("y", VNum 2)]) = false /\
  isArray (VObj [("x", VNum 1)]) && isArray (VObj [("y", VNum 2)]) = false /\
  VObj [("x", VNum 1); ("y", VNum 2)] <> VObj [("y", VNum 2)] /\
  mergeConfig [("assetsInclude", VStr "a")] [("assetsInclude", VStr "b")] true
    = Ret [("assetsInclude", VArr [VStr "a"; VStr "b"])] /\
  VArr [VStr "a"; VStr "b"] <> VStr "b".
Proof. repeat split; try reflexivity; discriminate. Qed.

(** *** The alias normalizer *)

Lemma normalizeSingleAlias_strings (f r : string) :
  normalizeSingleAlias (VObj [("find", VStr f); ("replacement", VStr r)])
  = Ret (if endsWith f "/" && endsWith r "/"
         then VObj [("find", VStr (dropLast f)); ("replacement", VStr (dropLast r))]
         else VObj [("find", VStr f); ("replacement", VStr r)]).
Proof.
  unfold normalizeSingleAlias. cbn.
  destruct (endsWith f "/"); cbn; [|reflexivity].
  destruct (endsWith r "/"); reflexivity.
Qed.

Lemma normalizeSingleAlias_total (alias : value) :
  aliasEntryTyped alias = true -> exists r, normalizeSingleAlias alias = Ret r.
Proof.
  unfold aliasEntryTyped, normalizeSingleAlias, member.
  intros H. apply andb_true_iff in H as [Hn H].
  destruct alias; try discriminate; cbn [bind];
    (set (f := prop _ "find") in *; set (r := prop _ "replacement") in *;
     clearbody f r;
     destruct f as [| | | |fs| | | |]; try (eexists; reflexivity);
     destruct (endsWith fs "/"); [|eexists; reflexivity];
     destruct r as [| | | |rs| | | |]; try discriminate; cbn;
     destruct (endsWith rs "/"); eexists; reflexivity).
Qed.

Lemma mapM_total {A B} (f : A -> outcome B) (P : A -> bool) (l : list A) :
  (forall x, P x = true -> exists y, f x = Ret y) ->
  forallb P l = true -> exists r, mapM f l = Ret r.
Proof.
  intros Hf. induction l as [|x l IH]; cbn; intros H.
  - eexists; reflexivity.
  - apply andb_true_iff in H as [Hx Hl].
    destruct (Hf x Hx) as [y Hy]. destruct (IH Hl) as [r Hr].
    rewrite Hy, Hr. cbn. eexists; reflexivity.
Qed.

Lemma normalizeAlias_props_total (o : obj) :
  forallb (fun find => aliasEntryTyped
             (VObj [("find", VStr find); ("replacement", get find o)]))
          (keys o) = true ->
  exists l,
    mapM (fun find => normalizeSingleAlias
            (VObj [("find", VStr find); ("replacement", get find o)]))
         (keys o) = Ret l.
Proof.
  apply mapM_total. intros x Hx. now apply normalizeSingleAlias_total.
Qed.

Lemma normalizeAlias_total (o : value) :
  nullish o = false -> aliasTyped o = true ->
  exists l, normalizeAlias o = Ret l.
Proof.
  intros Hn Ht.
  destruct o; cbn in Hn; try discriminate; cbn [normalizeAlias];
    try (apply normalizeAlias_props_total; exact Ht).
  apply (mapM_total _ aliasEntryTyped);
    [intros x Hx; now apply normalizeSingleAlias_total|exact Ht].
Qed.

Lemma mergeAlias_total (x y : value) :
  nullish x = false -> nullish y = false ->
  aliasTyped x = true -> aliasTyped y = true ->
  exists al, mergeAlias x y = Ret al.
Proof.
  intros Hx Hy Tx Ty.
  destruct (normalizeAlias_total x Hx Tx) as [xs Hxs].
  destruct (normalizeAlias_total y Hy Ty) as [ys Hys].
  exists (VArr (xs ++ ys)). unfold mergeAlias.
  destruct x; try discriminate; destruct y; try discriminate;
    rewrite Hxs; cbn [bind]; rewrite Hys; reflexivity.
Qed.

Lemma protoFree_cons (k : string) (v : value) (rest : obj) :
  protoFree (VObj ((k, v) :: rest))
  = negb (String.eqb k "__proto__") && protoFree v && protoFree (VObj rest).
Proof. reflexivity. Qed.

Lemma existingOf_get key (merged : obj) :
  String.eqb key "__proto__" = false ->
  existsb (String.eqb key) prototypeMethods = false ->
  existingOf merged key = get key merged.
Proof.
  intros E M. unfold existingOf. rewrite E, M.
  destruct (has key merged) eqn:H; [reflexivity|].
  symmetry. now apply get_absent.
Qed.

(** Below the root the merge returns for every override that owns no
    property named [__proto__]. *)
Lemma mergeConfig_nested_total (b : obj) :
  protoFree (VObj b) = true ->
  forall a : obj, exists m, mergeConfig a b false = Ret m.
Proof.
  change (protoFree (VObj b) = true ->
          forall a, exists m, mergeConfigRec a (VObj b) false = Ret m).
  generalize (VObj b). intros v.
  induction v as [| | | | | | | |o IH] using value_nested_ind; intros Hp a;
    try (exists a; reflexivity).
  change (exists m, mergeConfig a o false = Ret m).
  rewrite mergeConfig_loop. revert a.
  induction o as [|[k v] rest IHrest]; intros a; cbn [mergeLoop].
  - eexists; reflexivity.
  - inversion IH as [|? ? Hv Hrest]; subst. cbn [snd] in Hv.
    rewrite protoFree_cons in Hp.
    apply andb_true_iff in Hp as [Hp Hprest].
    apply andb_true_iff in Hp as [Hk Hpv]. apply negb_true_iff in Hk.
    destruct (nullish v) eqn:Hn; [now apply IHrest|].
    assert (Hf : exists v', mergeField false k (existingOf a k) v = Ret v').
    { unfold mergeField.
      destruct (existingOf a k) eqn:Hg, v; cbn [nullish negb andb];
        try (eexists; reflexivity).
      destruct (Hv Hpv props) as [m Hm]. unfold mergeConfig, omap.
      rewrite Hm. eexists; reflexivity. }
    destruct Hf as [v' Hf]. rewrite Hf. cbn [bind].
    rewrite assign_other by assumption. cbn [bind]. now apply IHrest.
Qed.

Lemma mergeLoop_root_total (entries : obj) :
  NoDup (keys entries) ->
  protoFree (VObj entries) = true ->
  forall merged : obj,
    (has "alias" entries = true ->
       aliasTyped (get "alias" merged) = true /\
       aliasTyped (get "alias" entries) = true) ->
    exists m, mergeLoop true merged entries = Ret m.
Proof.
  induction entries as [|[k v] rest IH]; intros Hnd Hp merged Hal;
    cbn [mergeLoop].
  - eexists; reflexivity.
  - inversion Hnd as [|? ? Hnotin Hnd']; subst.
    rewrite protoFree_cons in Hp.
    apply andb_true_iff in Hp as [Hp Hprest].
    apply andb_true_iff in Hp as [Hk Hpv]. apply negb_true_iff in Hk.
    assert (Hrest : forall merged',
              (k = "alias" \/ get "alias" merged' = get "alias" merged) ->
              has "alias" rest = true ->
              aliasTyped (get "alias" merged') = true /\
              aliasTyped (get "alias" rest) = true).
    { intros merged' Hm' Hhas.
      destruct (String.eqb k "alias") eqn:E.
      - apply String.eqb_eq in E. subst k. apply has_keys in Hhas.
        contradiction.
      - destruct Hm' as [->|Hm']; [now rewrite String.eqb_refl in E|].
        cbn [has get] in Hal. rewrite E in Hal. cbn [orb] in Hal.
        rewrite Hm'. now apply Hal. }
    destruct (nullish v) eqn:Hn.
    { apply IH; [assumption|assumption|]. apply Hrest. now right. }
    assert (Hnested : forall ea eb, v = VObj eb ->
              exists m, mergeConfig ea eb false = Ret m).
    { intros ea eb ->. now apply mergeConfig_nested_total. }
    assert (Hf : exists v', mergeField true k (existingOf merged k) v = Ret v').
    { unfold mergeField.
      destruct (String.eqb k "alias") eqn:E.
      - apply String.eqb_eq in E. subst k.
        rewrite existingOf_get by reflexivity.
        cbn [has get] in Hal. rewrite String.eqb_refl in Hal.
        destruct (Hal eq_refl) as [Ta Tb].
        destruct (get "alias" merged) eqn:Hg, v;
          cbn [nullish negb andb] in *; try discriminate;
          try (eexists; reflexivity);
          try (apply mergeAlias_total; solve [reflexivity|assumption]).
        match goal with
        | |- context [mergeConfig ?x ?y false] =>
            destruct (Hnested x y eq_refl) as [m Hm]
        end.
        unfold omap. rewrite Hm. eexists; reflexivity.
      - destruct (existingOf merged k) eqn:Hg, v; cbn [nullish negb andb];
          try (eexists; reflexivity);
          try (destruct (String.eqb k "assetsInclude"); eexists; reflexivity).
        match goal with
        | |- context [mergeConfig ?x ?y false] =>
            destruct (Hnested x y eq_refl) as [m Hm]
        end.
        unfold omap. rewrite Hm. eexists; reflexivity. }
    destruct Hf as [v' Hf]. rewrite Hf. cbn [bind].
    rewrite assign_other by assumption. cbn [bind].
    apply IH; [assumption|assumption|]. apply Hrest.
    destruct (String.eqb k "alias") eqn:E.
    + left. now apply String.eqb_eq.
    + right. apply get_set_other. intros Heq. subst k.
      now rewrite String.eqb_refl in E.
Qed.

Lemma mergeField_alias (existing val : value) :
  nullish existing = false ->
  isArray existing && isArray val = false ->
  isObject existing && isObject val = false ->
  mergeField true "alias" existing val = mergeAlias existing val.
Proof.
  destruct existing, val; cbn [nullish isArray isObject andb];
    intros; try discriminate; reflexivity.
Qed.

Lemma mergeField_assetsInclude (existing val : value) :
  nullish existing = false ->
  isObject existing && isObject val = false ->
  mergeField true "assetsInclude" existing val
  = Ret (VArr (concatSpread existing ++ concatSpread val)).
Proof.
  destruct existing, val; cbn [nullish isObject andb];
    intros; try discriminate; reflexivity.
Qed.

Lemma mergeField_nested (key : string) (existing val : value) :
  isArray existing && isArray val = false ->
  isObject existing && isObject val = false ->
  mergeField false key existing val = Ret val.
Proof.
  destruct existing, val; cbn [isArray isObject andb];
    intros; try discriminate; reflexivity.
Qed.

Lemma mergeAlias_inv (x y al : value) :
  nullish x = false -> nullish y = false ->
  mergeAlias x y = Ret al ->
  exists xs ys,
    normalizeAlias x = Ret xs /\ normalizeAlias y = Ret ys /\
    al = VArr (xs ++ ys).
Proof.
  intros Hx Hy H. unfold mergeAlias in H.
  assert (Ex : match x with VUndefined => VArr [] | _ => x end = x)
    by (destruct x; try reflexivity; discriminate).
  assert (Ey : match y with VUndefined => VArr [] | _ => y end = y)
    by (destruct y; try reflexivity; discriminate).
  cbv zeta in H. rewrite Ex, Ey in H.
  destruct (normalizeAlias x) as [xs| |]; cbn [bind] in H; try discriminate.
  destruct (normalizeAlias y) as [ys| |]; cbn [bind] in H; try discriminate.
  exists xs, ys. repeat split. congruence.
Qed.

(** C5, the claim as stated fails: with a list of aliases on both sides the
    merged [alias] is the plain concatenation, without the trim rule, and
    with a mapping on both sides it is a mapping in which the override wins;
    neither is what the alias normalizer's merge gives. *)
Lemma mergeConfig_alias_counterexample :
  mergeConfig [("alias", VArr [Examples.srcAlias])]
              [("alias", VArr [Examples.libAlias])] true
    = Ret [("alias", VArr [Examples.srcAlias; Examples.libAlias])] /\
  mergeAlias (VArr [Examples.srcAlias]) (VArr [Examples.libAlias])
    = Ret (VArr [VObj [("find", VStr "/src"); ("replacement", VStr "/root")];
                 Examples.libAlias]) /\
  VArr [Examples.srcAlias; Examples.libAlias]
    <> VArr [VObj [("find", VStr "/src"); ("replacement", VStr "/root")];
             Examples.libAlias] /\
  mergeConfig [("alias", VObj [("@", VStr "/a")])]
              [("alias", VObj [("@", VStr "/b")])] true
    = Ret [("alias", VObj [("@", VStr "/b")])] /\
  mergeAlias (VObj [("@", VStr "/a")]) (VObj [("@", VStr "/b")])
    = Ret (VArr [VObj [("find", VStr "@"); ("replacement", VStr "/a")];
                 VObj [("find", VStr "@"); ("replacement", VStr "/b")]]).
Proof. repeat split; try reflexivity; discriminate. Qed.

(** C5 (as amended). At the root, after the rules for two arrays and for
    two plain mappings and ahead of plain replacement: two [alias] arrays
    are concatenated as they are, without normalization, and two [alias]
    mappings are merged as nested mappings; when [alias] is non-nullish on
    both sides and the two values are neither both arrays nor both plain
    mappings, the merged [alias] is the alias normalizer's merge (each side
    normalized, base entries first, then override entries; an entry with
    string [find] and [replacement] loses one trailing separator on both
    exactly when both end in one); when [assetsInclude] is non-nullish on
    both sides and the two values are not both plain mappings, the merged
    value is the list of the base side's elements followed by the override
    side's, a scalar counting as one element. Below the root neither key is
    special: whatever is not a pair of arrays or of plain mappings is
    replaced by the override's value (a [__proto__] that reaches the
    accessor of Object.prototype apart). *)
Theorem mergeConfig_root_special (a b m : obj) :
  NoDup (keys b) ->
  mergeConfig a b true = Ret m ->
  (forall xs ys, get "alias" a = VArr xs -> get "alias" b = VArr ys ->
     get "alias" m = VArr (xs ++ ys)) /\
  (forall ea eb, get "alias" a = VObj ea -> get "alias" b = VObj eb ->
     exists r, mergeConfig ea eb false = Ret r /\ get "alias" m = VObj r) /\
  (nullish (get "alias" a) = false -> nullish (get "alias" b) = false ->
   isArray (get "alias" a) && isArray (get "alias" b) = false ->
   isObject (get "alias" a) && isObject (get "alias" b) = false ->
     exists xs ys,
       normalizeAlias (get "alias" a) = Ret xs /\
       normalizeAlias (get "alias" b) = Ret ys /\
       get "alias" m = VArr (xs ++ ys)) /\
  (forall f r : string,
     normalizeSingleAlias (VObj [("find", VStr f); ("replacement", VStr r)])
     = Ret (if endsWith f "/" && endsWith r "/"
            then VObj [("find", VStr (dropLast f));
                       ("replacement", VStr (dropLast r))]
            else VObj [("find", VStr f); ("replacement", VStr r)])) /\
  (nullish (get "assetsInclude" a) = false ->
   nullish (get "assetsInclude" b) = false ->
   isObject (get "assetsInclude" a) && isObject (get "assetsInclude" b) = false ->
     get "assetsInclude" m
     = VArr (concatSpread (get "assetsInclude" a)
             ++ concatSpread (get "assetsInclude" b))) /\
  (forall (a' b' m' : obj) (key : string),
     NoDup (keys b') -> mergeConfig a' b' false = Ret m' ->
     nullish (get key b') = false ->
     isArray (get key a') && isArray (get key b') = false ->
     isObject (get key a') && isObject (get key b') = false ->
     reachesPrototype key a' = false ->
       get key m' = get key b').
Proof.
  intros Hnd Hm.
  pose proof (mergeConfig_get a b m true Hnd Hm "alias") as Hal.
  rewrite (reachesPrototype_other "alias" a eq_refl), orb_false_r in Hal.
  split; [|split; [|split; [|split; [|split]]]].
  - intros xs ys Ha Hb. rewrite Ha, Hb in Hal. cbn in Hal.
    destruct Hal as [H _]. congruence.
  - intros ea eb Ha Hb. rewrite Ha, Hb in Hal.
    cbn [nullish mergeField] in Hal. destruct Hal as [H _]. unfold omap in H.
    destruct (mergeConfig ea eb false) as [r| |]; cbn [bind] in H;
      try discriminate.
    exists r. split; [reflexivity|congruence].
  - intros Ha Hb Harr Hobj.
    rewrite Hb in Hal. destruct Hal as [H _].
    rewrite mergeField_alias in H by assumption.
    now apply mergeAlias_inv.
  - apply normalizeSingleAlias_strings.
  - intros Ha Hb Hobj.
    pose proof (mergeConfig_get a b m true Hnd Hm "assetsInclude") as H.
    rewrite (reachesPrototype_other "assetsInclude" a eq_refl), orb_false_r
      in H.
    rewrite Hb in H. destruct H as [H _].
    rewrite mergeField_assetsInclude in H by assumption.
    congruence.
  - intros a' b' m' key Hnd' Hm' Hb Harr Hobj Hr.
    pose proof (mergeConfig_get a' b' m' false Hnd' Hm' key) as H.
    rewrite Hb, Hr in H. cbn [orb] in H. destruct H as [H _].
    rewrite mergeField_nested in H by assumption.
    congruence.
Qed.

(** The bespoke handling at a concrete pair: a list of aliases merged with
    a mapping. *)
Lemma mergeConfig_root_special_witness :
  exists xs ys,
    normalizeAlias (VArr [Examples.srcAlias]) = Ret xs /\
    normalizeAlias (VObj [("@/", VStr "/x/")]) = Ret ys /\
    VArr [VObj [("find", VStr "/src"); ("replacement", VStr "/root")];
          VObj [("find", VStr "@"); ("replacement", VStr "/x")]]
    = VArr (xs ++ ys).
Proof.
  assert (Hnd : NoDup (keys [("alias", VObj [("@/", VStr "/x/")])])).
  { repeat constructor; cbn; intuition discriminate. }
  destruct (mergeConfig_root_special
              [("alias", VArr [Examples.srcAlias])]
              [("alias", VObj [("@/", VStr "/x/")])]
              [("alias",
                VArr [VObj [("find", VStr "/src"); ("replacement", VStr "/root")];
                      VObj [("find", VStr "@"); ("replacement", VStr "/x")]])]
              Hnd eq_refl) as (_ & _ & Halias & _).
  apply Halias; reflexivity.
Defined.

(** C9, the claim as stated fails: an alias entry whose literal [find] ends
    in a separator and whose replacement is not a string makes the merge
    throw. *)
Lemma mergeConfig_throws_counterexample :
  mergeConfig [("alias", VArr [Examples.badAlias])] [("alias", VObj [])] true
  = Throw "replacement.endsWith is not a function".
Proof. reflexivity. Qed.

(** C9 (as amended). The merge returns a merged copy, without throwing, for
    every base and every override (finite trees of plain data, keys
    pairwise distinct) such that no mapping of the override owns a
    property named [__proto__] and the root-level [alias] values hold no
    entry the normalizer fails on: no entry is null or undefined, and a
    literal [find] ending in a separator comes with a string replacement,
    as the declared alias type has it. [assetsInclude] may have any shape,
    and below the root the merge returns for all values of an override
    without a [__proto__] property. *)
Theorem mergeConfig_total (a b : obj) :
  NoDup (keys b) ->
  protoFree (VObj b) = true ->
  aliasTyped (get "alias" a) = true ->
  aliasTyped (get "alias" b) = true ->
  (exists m, mergeConfig a b true = Ret m) /\
  (forall a' b' : obj, protoFree (VObj b') = true ->
     exists m', mergeConfig a' b' false = Ret m').
Proof.
  intros Hnd Hp Ta Tb. split.
  - rewrite mergeConfig_loop. apply mergeLoop_root_total; auto.
  - intros a' b' Hp'. now apply mergeConfig_nested_total.
Qed.

(** Totality at a concrete pair with mixed alias shapes and a scalar
    [assetsInclude]. *)
Lemma mergeConfig_total_witness :
  exists m,
    mergeConfig [("alias", VArr [Examples.srcAlias]);
                 ("assetsInclude", VStr "**/*.gltf")]
                [("alias", VObj [("@/", VStr "/x/")]);
                 ("assetsInclude", VArr [VRegExp "\.hdr$"])] true
    = Ret m.
Proof.
  refine (proj1 (mergeConfig_total
                   [("alias", VArr [Examples.srcAlias]);
                    ("assetsInclude", VStr "**/*.gltf")]
                   [("alias", VObj [("@/", VStr "/x/")]);
                    ("assetsInclude", VArr [VRegExp "\.hdr$"])] _ _ _ _)).
  - repeat constructor; cbn; intuition discriminate.
  - reflexivity.
  - reflexivity.
  - reflexivity.
Defined.

End MergeFacts.

(** ** The runtime matcher *)

Section MatcherFacts.
Import JS SSRMatch.

Lemma matchesExternal_spec (id e : string) :
  matchesExternal id e = true <->
  id = e \/
  (String.prefix (e ++ "/")%string id = true /\
   (Path.extname id = EmptyString \/ endsWith id ".js" = true)).
Proof.
  unfold matchesExternal, startsWith. cbn [truthy].
  destruct (String.eqb id e) eqn:E.
  - apply String.eqb_eq in E. tauto.
  - assert (id <> e) by (intros ->; now rewrite String.eqb_refl in E).
    destruct (String.prefix (e ++ "/")%string id); cbn [andb].
    + destruct (String.eqb (Path.extname id) EmptyString) eqn:X; cbn [negb orb].
      * apply String.eqb_eq in X. tauto.
      * assert (Path.extname id <> EmptyString)
          by (intros Heq; rewrite Heq in X; discriminate).
        destruct (endsWith id ".js"); intuition discriminate.
    + intuition discriminate.
Qed.

(** C3. [shouldExternalizeForSSR] answers true exactly when some listed id
    is the import itself, or is the package of a deep import that has no
    file extension or ends in the plain script extension; the three
    documented calls evaluate as stated. *)
Theorem shouldExternalizeForSSR_spec :
  (forall (id : string) (externals : list string),
     shouldExternalizeForSSR id externals = true
     <-> spec_externalizes id externals) /\
  shouldExternalizeForSSR "lodash/get" ["lodash"] = true /\
  shouldExternalizeForSSR "lodash/style.css" ["lodash"] = false /\
  shouldExternalizeForSSR "lodash-es" ["lodash"] = false.
Proof.
  split; [|repeat split; reflexivity].
  intros id externals. unfold shouldExternalizeForSSR, spec_externalizes.
  rewrite existsb_exists. split.
  - intros (e & Hin & Hm). exists e. split; [assumption|].
    now apply matchesExternal_spec.
  - intros (e & Hin & Hm). exists e. split; [assumption|].
    now apply matchesExternal_spec.
Qed.

End MatcherFacts.

(** ** loadEnv *)

Section EnvFacts.
Import JS Env.

Lemma dreplace_keys key v (d : dict) : map fst (dreplace key v d) = map fst d.
Proof.
  induction d as [|[k w] d IH]; cbn; [reflexivity|].
  destruct (String.eqb k key); cbn; [reflexivity|now rewrite IH].
Qed.

Lemma dset_prefixed prefix key v (env : dict) :
  startsWith key prefix = true -> allPrefixed prefix env ->
  allPrefixed prefix (dset key v env).
Proof.
  intros Hk Henv k Hin. unfold dset in Hin. destruct (dget key env).
  - rewrite dreplace_keys in Hin. now apply Henv.
  - rewrite map_app in Hin. apply in_app_or in Hin as [Hin|Hin].
    + now apply Henv.
    + cbn in Hin. destruct Hin as [<-|[]]. assumption.
Qed.

Lemma fromProcess_prefixed prefix (entries : dict) :
  forall env, allPrefixed prefix env ->
  allPrefixed prefix (fromProcess prefix entries env).
Proof.
  induction entries as [|[key v] rest IH]; intros env Henv; cbn; [assumption|].
  apply IH. destruct (startsWith key prefix) eqn:Hk; cbn [andb]; [|assumption].
  destruct (isUndefinedIn env key); [|assumption].
  now apply dset_prefixed.
Qed.

Lemma fromFile_prefixed prefix (entries : dict) :
  forall st, allPrefixed prefix (fst st) ->
  allPrefixed prefix (fst (fromFile prefix entries st)).
Proof.
  induction entries as [|[key v] rest IH]; intros [env penv] Henv; cbn;
    [assumption|].
  apply IH. destruct (startsWith key prefix) eqn:Hk; cbn [andb].
  - destruct (isUndefinedIn env key); cbn [fst].
    + now apply dset_prefixed.
    + destruct (String.eqb key "NODE_ENV"); assumption.
  - destruct (String.eqb key "NODE_ENV"); assumption.
Qed.

Lemma fromFiles_prefixed (h : host) root prefix (envFiles : list string) :
  forall st r, allPrefixed prefix (fst st) ->
  fromFiles h root prefix envFiles st = Ret r ->
  allPrefixed prefix (fst r).
Proof.
  induction envFiles as [|file rest IH]; intros st r Hst Hr;
    cbn [fromFiles] in Hr.
  - inversion Hr. now subst.
  - destruct (lookupFile h root file) as [path|]; [|now apply (IH st)].
    destruct (truthy (VStr path)); [|now apply (IH st)].
    destruct (parseFile h path) as [parsed| |]; cbn [bind] in Hr;
      try discriminate.
    apply (IH _ _ (fromFile_prefixed prefix _ st Hst) Hr).
Qed.

(** C10. Whatever the mode, the root and the prefix, every key of the
    mapping [loadEnv] returns starts with the prefix: a variable of the
    process or of a .env file whose name does not start with it is never in
    the result. *)
Theorem loadEnv_keys_start_with_prefix (h : host) (penv : dict)
  (mode root prefix : string) (env penv' : dict) :
  loadEnv h penv mode root prefix = Ret (env, penv') ->
  forall key, In key (map fst env) -> startsWith key prefix = true.
Proof.
  unfold loadEnv. destruct (String.eqb mode "local"); [discriminate|].
  intros Hr.
  apply (fromFiles_prefixed h root prefix _ _ (env, penv')) in Hr;
    [exact Hr|].
  apply fromProcess_prefixed. intros key [].
Qed.

(** The example environment: the inline variable and the two files. *)
Lemma loadEnv_keys_start_with_prefix_witness :
  loadEnv Examples.envHost Examples.processEnv "production" "/site" defaultPrefix
  = Ret ([("VITE_INLINE", "1"); ("VITE_TITLE", "prod site"); ("VITE_API", "/api")],
         [("PATH", "/usr/bin"); ("VITE_INLINE", "1"); ("HOME", "/root");
          ("VITE_USER_NODE_ENV", "production")]) /\
  startsWith "VITE_API" defaultPrefix = true.
Proof.
  assert (H : loadEnv Examples.envHost Examples.processEnv "production" "/site"
                defaultPrefix
              = Ret ([("VITE_INLINE", "1"); ("VITE_TITLE", "prod site");
                      ("VITE_API", "/api")],
                     [("PATH", "/usr/bin"); ("VITE_INLINE", "1");
                      ("HOME", "/root"); ("VITE_USER_NODE_ENV", "production")]))
    by reflexivity.
  split; [exact H|].
  apply (loadEnv_keys_start_with_prefix _ _ _ _ _ _ _ H). cbn. tauto.
Defined.

End EnvFacts.

(** ** The SSR resolver *)

Section ResolverFacts.
Import JS SSR.

Lemma mem_In (id : string) (l : list string) : mem id l = true <-> In id l.
Proof.
  unfold mem. rewrite existsb_exists. split.
  - intros (x & Hin & E). apply String.eqb_eq in E. now subst.
  - intros Hin. exists id. split; [assumption|apply String.eqb_refl].
Qed.

Lemma mem_false (id : string) (l : list string) : mem id l = false <-> ~ In id l.
Proof.
  rewrite <- mem_In. destruct (mem id l); intuition congruence.
Qed.

Lemma In_add (x id : string) (st : state) :
  In x (ssrExternals (add id st)) <-> x = id \/ In x (ssrExternals st).
Proof.
  unfold add. cbn [ssrExternals]. destruct (mem id (ssrExternals st)) eqn:E.
  - apply mem_In in E. split; [tauto|]. intros [->|H]; assumption.
  - rewrite in_app_iff. cbn. intuition congruence.
Qed.

Lemma NoDup_add (id : string) (st : state) :
  NoDup (ssrExternals st) -> NoDup (ssrExternals (add id st)).
Proof.
  intros Hnd. unfold add. cbn [ssrExternals].
  destruct (mem id (ssrExternals st)) eqn:E; [assumption|].
  apply mem_false in E. apply List.NoDup_app.
  - assumption.
  - constructor; [intros []|constructor].
  - intros x Hx [<-|[]]. now apply E.
Qed.

Lemma probes_addAll (ids : list string) :
  forall st, probes (addAll ids st) = probes st.
Proof.
  induction ids as [|id ids IH]; intros st; cbn; [reflexivity|].
  unfold addAll in IH. now rewrite IH.
Qed.

Lemma In_addAll (x : string) (ids : list string) :
  forall st, In x (ssrExternals (addAll ids st))
             <-> In x ids \/ In x (ssrExternals st).
Proof.
  induction ids as [|id ids IH]; intros st; cbn.
  - tauto.
  - unfold addAll in IH. rewrite IH, In_add. intuition congruence.
Qed.

Lemma NoDup_addAll (ids : list string) :
  forall st, NoDup (ssrExternals st) -> NoDup (ssrExternals (addAll ids st)).
Proof.
  induction ids as [|id ids IH]; intros st Hnd; cbn; [assumption|].
  apply IH. now apply NoDup_add.
Qed.

Lemma grows_refl h K st : grows h K st st.
Proof.
  repeat split; [apply incl_refl|auto|].
  exists []. split; [now rewrite app_nil_r|constructor].
Qed.

Lemma grows_trans h K st1 st2 st3 :
  grows h K st1 st2 -> grows h K st2 st3 -> grows h K st1 st3.
Proof.
  intros (I1 & N1 & e1 & P1 & F1) (I2 & N2 & e2 & P2 & F2).
  repeat split.
  - eapply incl_tran; eassumption.
  - auto.
  - exists (e1 ++ e2). split.
    + now rewrite P2, P1, app_assoc.
    + apply Forall_app. split; assumption.
Qed.

Lemma grows_add h K id st : grows h K st (add id st).
Proof.
  repeat split.
  - intros x Hx. apply In_add. now right.
  - apply NoDup_add.
  - exists []. split; [now rewrite app_nil_r|constructor].
Qed.

Lemma grows_addAll h K ids st : grows h K st (addAll ids st).
Proof.
  repeat split.
  - intros x Hx. apply In_addAll. now right.
  - apply NoDup_addAll.
  - exists []. rewrite probes_addAll. split; [now rewrite app_nil_r|constructor].
Qed.

Lemma grows_probed h K p st :
  candidate h K p -> grows h K st (probed p st).
Proof.
  intros Hp. repeat split.
  - apply incl_refl.
  - auto.
  - exists [p]. split; [reflexivity|]. repeat constructor. assumption.
Qed.

Lemma grows_probes h K st st' p :
  grows h K st st' -> In p (probes st) -> In p (probes st').
Proof.
  intros (_ & _ & e & P & _) Hin. rewrite P. apply in_app_iff. now left.
Qed.

Lemma grows_new_probe h K st st' p :
  grows h K st st' -> In p (probes st') ->
  In p (probes st) \/ candidate h K p.
Proof.
  intros (_ & _ & e & P & F) Hin. rewrite P in Hin.
  apply in_app_iff in Hin as [Hin|Hin]; [now left|right].
  exact (proj1 (List.Forall_forall _ _) F p Hin).
Qed.

Lemma grows_probes_incl h K st st' (l : list probe) :
  grows h K st st' -> incl l (probes st) -> incl l (probes st').
Proof. intros G Hl p Hp. eapply grows_probes; [exact G|now apply Hl]. Qed.

(** One round of the walk: the candidate is classified in full, whatever
    the set holds, and every probe made is justified. *)
Lemma classify_grows recur h K config devDeps pkgDeps id st st' :
  (forall c s s', recur c s = Ret s' -> grows h K s s') ->
  manifestOf h (root config) devDeps pkgDeps ->
  In id (K ++ pkgDeps) ->
  classify recur h config id st = Ret st' ->
  grows h K st st' /\
  incl (classificationProbes h (root config) id) (probes st').
Proof.
  intros Hrec Hman Hin H. unfold classify in H.
  unfold classificationProbes.
  assert (Hc : candidateOf h K (root config) id).
  { exists devDeps, pkgDeps. auto. }
  set (st1 := probed (PResolve (root config) id) st) in *.
  assert (G1 : grows h K st st1) by (now apply grows_probed).
  assert (I1 : incl [PResolve (root config) id] (probes st1)).
  { intros p [<-|[]]. cbn. apply in_app_iff. right. now left. }
  destruct (tryNodeResolve h id (root config)) as [entry| |] eqn:E1;
    try discriminate.
  2:{ inversion H; subst. split; [exact G1|exact I1]. }
  set (st2 := probed (PRequireResolve (root config) id) st1) in *.
  assert (G2 : grows h K st st2).
  { eapply grows_trans; [exact G1|]. apply grows_probed.
    split; [exact Hc|]. now exists entry. }
  assert (I2 : incl [PResolve (root config) id;
                     PRequireResolve (root config) id] (probes st2)).
  { intros p [<-|[<-|[]]].
    - cbn. apply in_app_iff. left. apply I1. now left.
    - cbn. apply in_app_iff. right. now left. }
  assert (Hgoal : forall s, grows h K st2 s ->
            grows h K st s /\
            incl [PResolve (root config) id;
                  PRequireResolve (root config) id] (probes s)).
  { intros s G. split; [eapply grows_trans; eassumption|].
    eapply grows_probes_incl; eassumption. }
  destruct (requireResolve h id (root config)) as [requireEntry| |] eqn:E2;
    try discriminate.
  2:{ inversion H; subst. apply Hgoal, grows_refl. }
  destruct entry as [entry|];
    [|inversion H; subst; apply Hgoal, grows_add].
  destruct (truthy (VStr entry)) eqn:Et; cbn [negb andb] in *;
    [|inversion H; subst; apply Hgoal, grows_add].
  destruct (includes entry "node_modules") eqn:Ei; cbn [negb andb] in *.
  2:{ destruct (resolveFrom h (id ++ "/package.json")%string (root config))
        as [pkgPath| |]; cbn [bind] in H; try discriminate.
      apply Hrec in H. now apply Hgoal. }
  destruct (String.eqb entry requireEntry) eqn:Ee; cbn [negb andb] in *;
    [|inversion H; subst; apply Hgoal, grows_add].
  destruct (isJsEntry entry) eqn:Ej; cbn [negb] in *;
    [|inversion H; subst; apply Hgoal, grows_refl].
  apply String.eqb_eq in Ee. subst requireEntry.
  destruct (readFileSync h entry) as [content| |]; cbn [bind] in H;
    try discriminate.
  set (st3 := probed (PRead (root config) id entry) st2) in *.
  assert (G3 : grows h K st2 st3).
  { apply grows_probed. cbn. auto. }
  assert (I3 : incl [PResolve (root config) id;
                     PRequireResolve (root config) id; PRead (root config) id entry]
                    (probes st3)).
  { intros p [<-|[<-|[<-|[]]]].
    - cbn. apply in_app_iff. left. apply I2. now left.
    - cbn. apply in_app_iff. left. apply I2. right. now left.
    - cbn. apply in_app_iff. right. now left. }
  assert (Hend : forall s, grows h K st3 s ->
            grows h K st s /\
            incl [PResolve (root config) id;
                  PRequireResolve (root config) id; PRead (root config) id entry] (probes s)).
  { intros s G. split.
    - eapply grows_trans; [exact G2|]. eapply grows_trans; eassumption.
    - eapply grows_probes_incl; eassumption. }
  destruct (hasCjsMarkers content); inversion H; subst; apply Hend;
    [apply grows_add|apply grows_refl].
Qed.

Lemma classifyAll_grows recur h K config devDeps pkgDeps (deps : list string) :
  (forall c s s', recur c s = Ret s' -> grows h K s s') ->
  manifestOf h (root config) devDeps pkgDeps ->
  incl deps (K ++ pkgDeps) ->
  forall st st', classifyAll recur h config deps st = Ret st' ->
  grows h K st st' /\
  forall id, In id deps ->
    exists s s',
      classify recur h config id s = Ret s' /\ grows h K s' st' /\
      incl (classificationProbes h (root config) id) (probes st').
Proof.
  intros Hrec Hman. induction deps as [|id rest IH]; intros Hincl st st' H.
  - inversion H; subst. split; [apply grows_refl|intros ? []].
  - cbn [classifyAll] in H.
    destruct (classify recur h config id st) as [s1| |] eqn:Hc;
      cbn [bind] in H; try discriminate.
    pose proof Hc as Hc'.
    eapply classify_grows in Hc' as [G1 P1]; try eassumption.
    2:{ apply Hincl. now left. }
    apply IH in H as [G2 P2].
    2:{ intros x Hx. apply Hincl. now right. }
    split; [eapply grows_trans; eassumption|].
    intros x [<-|Hx].
    + exists st, s1. split; [exact Hc|]. split; [exact G2|].
      eapply grows_probes_incl; eassumption.
    + now apply P2.
Qed.

(** With the manifest found, a call is the seeding, the walk and the final
    adjustment. *)
Lemma resolveSSRExternal_found fuel h config K st devDeps pkgDeps :
  manifestOf h (root config) devDeps pkgDeps ->
  resolveSSRExternal (S fuel) h config K st
  = bind (classifyAll
            (fun c s => omap snd (resolveSSRExternal fuel h c K s))
            h config (K ++ pkgDeps) (addAll devDeps st))
         (fun st' => Ret (finish config st')).
Proof.
  intros (pkgContent & pkg & Hl & Ht & Hp & Hd & Hk).
  cbn [resolveSSRExternal]. rewrite Hl, Ht. cbn [negb].
  rewrite Hp. cbn [bind]. rewrite Hd. cbn [bind]. rewrite Hk. reflexivity.
Qed.

(** A call that returns either found no manifest and returned the empty
    list at once, or ran the seeding, the walk and the final adjustment. *)
Lemma resolveSSRExternal_inv fuel h config K st r st' :
  resolveSSRExternal fuel h config K st = Ret (r, st') ->
  (~ manifestFound h (root config) /\ r = [] /\ st' = st) \/
  (exists fuel' devDeps pkgDeps s1,
     fuel = S fuel' /\
     manifestOf h (root config) devDeps pkgDeps /\
     classifyAll (fun c s => omap snd (resolveSSRExternal fuel' h c K s))
                 h config (K ++ pkgDeps) (addAll devDeps st) = Ret s1 /\
     (r, st') = finish config s1).
Proof.
  destruct fuel as [|fuel]; [discriminate|]. cbn [resolveSSRExternal].
  destruct (lookupFile h (root config)) as [pkgContent|] eqn:Hl.
  2:{ intros H. inversion H; subst. left. repeat split.
      intros (c & Hc & _). congruence. }
  destruct (truthy (VStr pkgContent)) eqn:Ht; cbn [negb].
  2:{ intros H. inversion H; subst. left. repeat split.
      intros (c & Hc & Hc'). congruence. }
  destruct (jsonParse h pkgContent) as [pkg| |] eqn:Hp; cbn [bind];
    try discriminate.
  destruct (manifestKeys pkg "devDependencies") as [devDeps| |] eqn:Hd;
    cbn [bind]; try discriminate.
  destruct (manifestKeys pkg "dependencies") as [pkgDeps| |] eqn:Hk;
    cbn [bind]; try discriminate.
  destruct (classifyAll _ h config (K ++ pkgDeps) (addAll devDeps st))
    as [s1| |] eqn:Hc; cbn [bind]; try discriminate.
  intros H. right. exists fuel, devDeps, pkgDeps, s1.
  repeat split; [|exact Hc|now inversion H].
  exists pkgContent, pkg. auto.
Qed.

Lemma manifestOf_unique h root d1 p1 d2 p2 :
  manifestOf h root d1 p1 -> manifestOf h root d2 p2 -> d1 = d2 /\ p1 = p2.
Proof.
  intros (c1 & k1 & L1 & _ & J1 & D1 & P1) (c2 & k2 & L2 & _ & J2 & D2 & P2).
  rewrite L1 in L2. inversion L2; subst c2.
  rewrite J1 in J2. inversion J2; subst k2.
  rewrite D1 in D2. rewrite P1 in P2. split; congruence.
Qed.

Lemma manifestOf_found h root d p : manifestOf h root d p -> manifestFound h root.
Proof. intros (c & k & L & T & _). exists c. auto. Qed.

Lemma grows_finish h K config st :
  grows h K st (snd (finish config st)).
Proof.
  unfold finish. cbn [snd]. destruct (configExternal config);
    [apply grows_addAll|apply grows_refl].
Qed.

Lemma recur_grows fuel h K :
  (forall config st r st',
     resolveSSRExternal fuel h config K st = Ret (r, st') -> grows h K st st') ->
  forall c s s',
    omap snd (resolveSSRExternal fuel h c K s) = Ret s' -> grows h K s s'.
Proof.
  intros IH c s s' Hs. unfold omap in Hs.
  destruct (resolveSSRExternal fuel h c K s) as [[r' s'']| |] eqn:Hr;
    cbn [bind snd] in Hs; try discriminate.
  inversion Hs; subst. eapply IH; eassumption.
Qed.

Lemma resolveSSRExternal_grows fuel h K :
  forall config st r st',
    resolveSSRExternal fuel h config K st = Ret (r, st') ->
    grows h K st st'.
Proof.
  induction fuel as [|fuel IH]; intros config st r st' H; [discriminate|].
  apply resolveSSRExternal_inv in H
    as [(_ & _ & ->)|(f & devDeps & pkgDeps & s1 & Hf & Hman & Hc & Hfin)].
  - apply grows_refl.
  - inversion Hf; subst f.
    eapply classifyAll_grows in Hc as [G _]; try eassumption.
    + assert (st' = snd (finish config s1)) as -> by now rewrite <- Hfin.
      eapply grows_trans; [apply grows_addAll|].
      eapply grows_trans; [exact G|apply grows_finish].
    + now apply recur_grows.
    + apply incl_refl.
Qed.

(** The walk of a call that found its manifest, in one statement. *)
Lemma resolveSSRExternal_walk fuel h config K st r st' devDeps pkgDeps :
  resolveSSRExternal fuel h config K st = Ret (r, st') ->
  manifestOf h (root config) devDeps pkgDeps ->
  exists fuel' s1,
    fuel = S fuel' /\
    grows h K (addAll devDeps st) s1 /\
    (forall id, In id (K ++ pkgDeps) ->
       exists s s',
         classify (fun c s => omap snd (resolveSSRExternal fuel' h c K s))
                  h config id s = Ret s' /\ grows h K s' s1 /\
         incl (classificationProbes h (root config) id) (probes s1)) /\
    (r, st') = finish config s1.
Proof.
  intros H Hman.
  apply resolveSSRExternal_inv in H
    as [(Hno & _)|(f & d' & p' & s1 & Hf & Hman' & Hc & Hfin)].
  - exfalso. apply Hno. eapply manifestOf_found; eassumption.
  - destruct (manifestOf_unique _ _ _ _ _ _ Hman Hman') as [<- <-].
    exists f, s1. eapply (classifyAll_grows _ h K) in Hc as [G P];
      try eassumption.
    + auto.
    + apply recur_grows. intros; eapply resolveSSRExternal_grows; eassumption.
    + apply incl_refl.
Qed.

Lemma In_finish config st x :
  In x (fst (finish config st)) <->
  In x (ssrExternals (snd (finish config st)))
  /\ listedNoExternal config x = false /\ x <> "vite".
Proof.
  unfold finish, listedNoExternal. cbn [fst snd].
  rewrite filter_In.
  assert (V : negb (String.eqb x "vite") = true <-> x <> "vite").
  { destruct (String.eqb x "vite") eqn:E; cbn.
    - apply String.eqb_eq in E. intuition congruence.
    - split; [|reflexivity]. intros _ ->. now rewrite String.eqb_refl in E. }
  rewrite V. destruct (configNoExternal config) as [no|].
  - rewrite filter_In. destruct (mem x no); cbn; intuition congruence.
  - tauto.
Qed.

Lemma In_finish_external config st x :
  listedExternal config x = true ->
  In x (ssrExternals (snd (finish config st))).
Proof.
  unfold finish, listedExternal. cbn [snd].
  destruct (configExternal config) as [ext|]; [|discriminate].
  intros H. apply In_addAll. left. now apply mem_In.
Qed.

Lemma NoDup_finish config st :
  NoDup (ssrExternals st) ->
  NoDup (ssrExternals (snd (finish config st))) /\
  NoDup (fst (finish config st)).
Proof.
  intros Hnd.
  assert (N : NoDup (ssrExternals (snd (finish config st)))).
  { unfold finish. cbn [snd]. destruct (configExternal config);
      [now apply NoDup_addAll|assumption]. }
  split; [exact N|].
  unfold finish in *. cbn [fst snd] in *.
  apply List.NoDup_filter. destruct (configNoExternal config);
    [now apply List.NoDup_filter|assumption].
Qed.

(** *** The directories a pass enters *)

Lemma classify_link recur h config id s s' entry requireEntry pkgPath :
  classify recur h config id s = Ret s' ->
  tryNodeResolve h id (root config) = Ret (Some entry) ->
  requireResolve h id (root config) = Ret requireEntry ->
  truthy (VStr entry) = true ->
  includes entry "node_modules" = false ->
  resolveFrom h (id ++ "/package.json")%string (root config) = Ret pkgPath ->
  recur (mkConfig (Path.dirname pkgPath) (ssr config))
        (probed (PRequireResolve (root config) id)
                (probed (PResolve (root config) id) s)) = Ret s'.
Proof.
  intros H E1 E2 Et Ei Ef. unfold classify in H.
  rewrite E1, E2, Et, Ei, Ef in H. exact H.
Qed.

(** A pass that returns has run, and returned from, a pass at every
    directory it enters. *)
Lemma resolveSSRExternal_enters fuel h config K st r st' root' :
  resolveSSRExternal fuel h config K st = Ret (r, st') ->
  visited h K (root config) root' ->
  exists fuel' sa rb sb,
    resolveSSRExternal fuel' h (mkConfig root' (ssr config)) K sa
      = Ret (rb, sb) /\
    grows h K sb st'.
Proof.
  intros H V.
  induction V as [|r0 id entry requireEntry pkgPath V IH Hc E1 E2 Et Ei Ef].
  - exists fuel, st, r, st'. split; [now destruct config|apply grows_refl].
  - destruct IH as (f & sa & rb & sb & Hrun & G).
    destruct Hc as (dd & pd & Hman & Hin).
    destruct (resolveSSRExternal_walk f h (mkConfig r0 (ssr config)) K sa rb
                sb dd pd Hrun Hman)
      as (f' & s1 & -> & _ & P & Hfin).
    destruct (P id Hin) as (s & s' & Hcl & Gs & _).
    apply (classify_link _ _ _ _ _ _ entry requireEntry pkgPath) in Hcl;
      try assumption.
    cbn [root ssr] in Hcl. unfold omap in Hcl.
    destruct (resolveSSRExternal f' h
                (mkConfig (Path.dirname pkgPath) (ssr config)) K _)
      as [[r2 s2]| |] eqn:Hsub; cbn [bind snd] in Hcl; try discriminate.
    inversion Hcl; subst s2.
    eexists f', _, r2, s'. split; [exact Hsub|].
    eapply grows_trans; [exact Gs|].
    eapply grows_trans; [|exact G].
    assert (sb = snd (finish (mkConfig r0 (ssr config)) s1)) as ->
      by now rewrite <- Hfin.
    apply grows_finish.
Qed.

Lemma visited_trans h K r0 r1 r2 :
  visited h K r0 r1 -> visited h K r1 r2 -> visited h K r0 r2.
Proof.
  intros V1 V2. induction V2; [exact V1|].
  eapply visited_link; eassumption.
Qed.

(** *** The same pass from two initial sets *)

Lemma twin_probed S1 S2 p s1 s2 :
  twin S1 S2 s1 s2 -> twin S1 S2 (probed p s1) (probed p s2).
Proof.
  intros [P (A & H1 & H2)]. split; [cbn; now rewrite P|].
  exists A. split; assumption.
Qed.

Lemma twin_add S1 S2 id s1 s2 :
  twin S1 S2 s1 s2 -> twin S1 S2 (add id s1) (add id s2).
Proof.
  intros [P (A & H1 & H2)]. split; [exact P|].
  exists (id :: A). split; intros x.
  - rewrite In_add, H1. cbn. intuition congruence.
  - rewrite In_add, H2. cbn. intuition congruence.
Qed.

Lemma twin_addAll S1 S2 (ids : list string) :
  forall s1 s2, twin S1 S2 s1 s2 ->
                twin S1 S2 (addAll ids s1) (addAll ids s2).
Proof.
  induction ids as [|id ids IH]; intros s1 s2 T; [exact T|].
  cbn. apply IH. now apply twin_add.
Qed.

Lemma twin_finish S1 S2 config s1 s2 :
  twin S1 S2 s1 s2 ->
  twin S1 S2 (snd (finish config s1)) (snd (finish config s2)).
Proof.
  intros T. unfold finish. cbn [snd].
  destruct (configExternal config); [now apply twin_addAll|exact T].
Qed.

(** One round from two sets: the same questions are asked of the host,
    the same id is added or not. *)
Lemma classify_twin recur h config id S1 S2 s1 s2 s1' :
  (forall c t1 t2 t1', twin S1 S2 t1 t2 -> recur c t1 = Ret t1' ->
     exists t2', recur c t2 = Ret t2' /\ twin S1 S2 t1' t2') ->
  twin S1 S2 s1 s2 ->
  classify recur h config id s1 = Ret s1' ->
  exists s2', classify recur h config id s2 = Ret s2' /\ twin S1 S2 s1' s2'.
Proof.
  intros Hrec T H. unfold classify in *.
  pose proof (twin_probed _ _ (PResolve (root config) id) _ _ T) as T1.
  pose proof (twin_probed _ _ (PRequireResolve (root config) id) _ _ T1)
    as T2.
  destruct (tryNodeResolve h id (root config)) as [entry| |];
    try discriminate.
  2:{ inversion H; subst. eexists; split; [reflexivity|exact T1]. }
  destruct (requireResolve h id (root config)) as [requireEntry| |];
    try discriminate.
  2:{ inversion H; subst. eexists; split; [reflexivity|exact T2]. }
  destruct entry as [entry|].
  2:{ inversion H; subst. eexists; split; [reflexivity|].
      now apply twin_add. }
  destruct (negb (truthy (VStr entry))).
  { inversion H; subst. eexists; split; [reflexivity|]. now apply twin_add. }
  destruct (negb (includes entry "node_modules")).
  { destruct (resolveFrom h (id ++ "/package.json")%string (root config))
      as [pkgPath| |]; cbn [bind] in *; try discriminate.
    eapply Hrec; eassumption. }
  destruct (negb (String.eqb entry requireEntry)).
  { inversion H; subst. eexists; split; [reflexivity|]. now apply twin_add. }
  destruct (negb (isJsEntry entry)).
  { inversion H; subst. eexists; split; [reflexivity|exact T2]. }
  destruct (readFileSync h entry) as [content| |]; cbn [bind] in *;
    try discriminate.
  pose proof (twin_probed _ _ (PRead (root config) id entry) _ _ T2) as T3.
  destruct (hasCjsMarkers content); inversion H; subst;
    (eexists; split; [reflexivity|]); [now apply twin_add|exact T3].
Qed.

Lemma classifyAll_twin recur h config S1 S2 (deps : list string) :
  (forall c t1 t2 t1', twin S1 S2 t1 t2 -> recur c t1 = Ret t1' ->
     exists t2', recur c t2 = Ret t2' /\ twin S1 S2 t1' t2') ->
  forall s1 s2 s1',
    twin S1 S2 s1 s2 ->
    classifyAll recur h config deps s1 = Ret s1' ->
    exists s2',
      classifyAll recur h config deps s2 = Ret s2' /\ twin S1 S2 s1' s2'.
Proof.
  intros Hrec. induction deps as [|id rest IH]; intros s1 s2 s1' T H.
  - inversion H; subst. exists s2. split; [reflexivity|exact T].
  - cbn [classifyAll] in *.
    destruct (classify recur h config id s1) as [m1| |] eqn:Hc;
      cbn [bind] in H; try discriminate.
    destruct (classify_twin _ _ _ _ _ _ _ _ _ Hrec T Hc) as (m2 & Hc2 & Tm).
    rewrite Hc2. cbn [bind]. eapply IH; eassumption.
Qed.

(** The whole pass from two sets. *)
Lemma resolveSSRExternal_twin fuel h K S1 S2 :
  forall config s1 s2 r1 s1',
    twin S1 S2 s1 s2 ->
    resolveSSRExternal fuel h config K s1 = Ret (r1, s1') ->
    exists r2 s2',
      resolveSSRExternal fuel h config K s2 = Ret (r2, s2') /\
      twin S1 S2 s1' s2'.
Proof.
  induction fuel as [|fuel IH]; intros config s1 s2 r1 s1' T H;
    [discriminate|].
  cbn [resolveSSRExternal] in *.
  destruct (lookupFile h (root config)) as [pkgContent|].
  2:{ inversion H; subst. exists [], s2. split; [reflexivity|exact T]. }
  destruct (negb (truthy (VStr pkgContent))).
  { inversion H; subst. exists [], s2. split; [reflexivity|exact T]. }
  destruct (jsonParse h pkgContent) as [pkg| |]; cbn [bind] in *;
    try discriminate.
  destruct (manifestKeys pkg "devDependencies") as [devDeps| |];
    cbn [bind] in *; try discriminate.
  destruct (manifestKeys pkg "dependencies") as [pkgDeps| |];
    cbn [bind] in *; try discriminate.
  destruct (classifyAll _ h config (K ++ pkgDeps) (addAll devDeps s1))
    as [m1| |] eqn:Hc; cbn [bind] in H; try discriminate.
  eapply (classifyAll_twin _ h config S1 S2) in Hc as (m2 & Hc2 & Tm).
  - rewrite Hc2. cbn [bind].
    exists (fst (finish config m2)), (snd (finish config m2)).
    split; [now destruct (finish config m2)|].
    assert (s1' = snd (finish config m1)) as -> by (inversion H; reflexivity).
    now apply twin_finish.
  - intros c t1 t2 t1' Tt Hr. unfold omap in *.
    destruct (resolveSSRExternal fuel h c K t1) as [[r' t']| |] eqn:Hrun;
      cbn [bind snd] in Hr; try discriminate.
    inversion Hr; subst t'.
    destruct (IH _ _ _ _ _ Tt Hrun) as (r2 & t2' & Hrun2 & T2).
    rewrite Hrun2. cbn [bind snd]. exists t2'. split; [reflexivity|exact T2].
  - now apply twin_addAll.
Qed.

(** C1, the claim as stated fails: the tool's own name, listed in
    [ssr.external] and not in [ssr.noExternal], with the manifest found, is
    not in the result. *)
Lemma resolveSSRExternal_vite_counterexample :
  resolveSSRExternal 1 Examples.plainHost Examples.plainConfig []
                     Examples.emptyState
    = Ret ([], mkState ["vite"] []) /\
  lookupFile Examples.plainHost (root Examples.plainConfig) = Some "{}" /\
  listedExternal Examples.plainConfig "vite" = true /\
  listedNoExternal Examples.plainConfig "vite" = false /\
  ~ In "vite" (@nil string).
Proof. repeat split; try reflexivity. intros []. Qed.

(** C1 (as amended). The list [resolveSSRExternal] returns never contains
    the tool's own name, even when the user lists it in [ssr.external];
    never contains an id listed in [ssr.noExternal], whether the user also
    lists it in [ssr.external] or the walk added it; and, when the root's
    manifest is found, contains every id listed in [ssr.external] that is
    not listed in [ssr.noExternal] and is not the tool's own name. *)
Theorem resolveSSRExternal_user_lists fuel h config K st r st' :
  resolveSSRExternal fuel h config K st = Ret (r, st') ->
  ~ In "vite" r /\
  (forall id, listedNoExternal config id = true -> ~ In id r) /\
  (manifestFound h (root config) ->
   forall id, listedExternal config id = true ->
              listedNoExternal config id = false ->
              id <> "vite" -> In id r).
Proof.
  intros H.
  apply resolveSSRExternal_inv in H
    as [(Hno & -> & _)|(f & d & p & s1 & _ & _ & _ & Hfin)].
  - repeat split; try (intros; intros []). intros Hf. contradiction.
  - assert (r = fst (finish config s1)) as -> by now rewrite <- Hfin.
    split; [|split].
    + intros Hin. apply In_finish in Hin. tauto.
    + intros id Hl Hin. apply In_finish in Hin. intuition congruence.
    + intros _ id He Hn Hv. apply In_finish. repeat split; try assumption.
      now apply In_finish_external.
Qed.

(** The example project: forced is added, lodash and the tool are removed. *)
Lemma resolveSSRExternal_user_lists_witness :
  ~ In "vite" ["mocha"; "left-pad"; "cjs-dep"; "forced"] /\
  ~ In "lodash" ["mocha"; "left-pad"; "cjs-dep"; "forced"] /\
  In "forced" ["mocha"; "left-pad"; "cjs-dep"; "forced"].
Proof.
  destruct (resolveSSRExternal_user_lists 2 Examples.ssrHost Examples.appConfig
              ["left-pad"] Examples.emptyState
              ["mocha"; "left-pad"; "cjs-dep"; "forced"]
              (mkState ["mocha"; "left-pad"; "lodash"; "cjs-dep"; "forced"; "vite"]
                 [PResolve "/app" "left-pad"; PRequireResolve "/app" "left-pad";
                  PResolve "/app" "lodash"; PRequireResolve "/app" "lodash";
                  PRead "/app" "lodash" "/app/node_modules/lodash/lodash.js";
                  PResolve "/app" "linked"; PRequireResolve "/app" "linked";
                  PResolve "/ws/linked" "left-pad";
                  PRequireResolve "/ws/linked" "left-pad";
                  PResolve "/ws/linked" "cjs-dep";
                  PRequireResolve "/ws/linked" "cjs-dep";
                  PResolve "/app" "esm-only"; PRequireResolve "/app" "esm-only";
                  PRead "/app" "esm-only" "/app/node_modules/esm-only/index.mjs"])
              eq_refl) as (Hv & Hno & Hext).
  split; [exact Hv|split].
  - apply Hno. reflexivity.
  - apply Hext.
    + exists "<package.json of /app>". split; reflexivity.
    + reflexivity.
    + reflexivity.
    + discriminate.
Defined.

(** C2, the claim as stated fails: a devDependency that is also a known
    import (or a dependency) is a candidate of the walk, and the walk
    resolves it and reads its entry. *)
Lemma devDependencies_probed_counterexample :
  manifestKeys Examples.devManifest "devDependencies" = Ret ["mocha"] /\
  resolveSSRExternal 1 Examples.devHost Examples.devConfig ["mocha"]
                     Examples.emptyState
    = Ret (["mocha"],
           mkState ["mocha"]
             [PResolve "/dev" "mocha"; PRequireResolve "/dev" "mocha";
              PRead "/dev" "mocha" "/dev/node_modules/mocha/index.js"]) /\
  In (PResolve "/dev" "mocha")
     [PResolve "/dev" "mocha"; PRequireResolve "/dev" "mocha";
      PRead "/dev" "mocha" "/dev/node_modules/mocha/index.js"].
Proof. repeat split; try reflexivity. now left. Qed.

(** C2 (as amended). When the root's manifest is found, every name under
    its [devDependencies] is in the result, whatever the host answers to
    any resolution or read (so also when the package does not resolve),
    unless the name is listed in [ssr.noExternal] or is the tool's own
    name. The seeding resolves nothing and reads nothing: every resolution
    the pass makes, of either kind, is of a candidate of its root (a known
    import or a [dependencies] name of the manifest found there), and every
    file it reads is the entry of such a candidate; so a devDependency that
    is no candidate is never resolved, and one that is a candidate is
    resolved and scanned like any other. *)
Theorem devDependencies_externalized fuel h config K st r st' devDeps pkgDeps :
  resolveSSRExternal fuel h config K st = Ret (r, st') ->
  manifestOf h (root config) devDeps pkgDeps ->
  (forall d, In d devDeps -> listedNoExternal config d = false ->
             d <> "vite" -> In d r) /\
  (exists made,
     probes st' = probes st ++ made /\
     Forall (candidate h K) made /\
     forall d, (forall root', ~ candidateOf h K root' d) ->
       forall root', ~ In (PResolve root' d) made /\
                     ~ In (PRequireResolve root' d) made /\
                     forall entry, ~ In (PRead root' d entry) made).
Proof.
  intros H Hman. split.
  - intros d Hd Hno Hv.
    destruct (resolveSSRExternal_walk _ _ _ _ _ _ _ _ _ H Hman)
      as (f & s1 & _ & (I & _) & _ & Hfin).
    assert (r = fst (finish config s1)) as -> by now rewrite <- Hfin.
    apply In_finish. repeat split; try assumption.
    eapply (grows_finish h K). apply I. apply In_addAll. now left.
  - apply resolveSSRExternal_grows in H. destruct H as (_ & _ & made & P & F).
    exists made. split; [exact P|]. split; [exact F|].
    intros d Hd root'. split; [|split; [|intros entry]]; intros Hin;
      apply (proj1 (List.Forall_forall _ _) F) in Hin; cbn in Hin.
    + exact (Hd root' Hin).
    + exact (Hd root' (proj1 Hin)).
    + exact (Hd root' (proj1 Hin)).
Qed.

(** The example project: mocha does not resolve and is in the result; it
    is no candidate and is never resolved. *)
Lemma devDependencies_externalized_witness :
  In "mocha" ["mocha"; "left-pad"; "cjs-dep"; "forced"] /\
  tryNodeResolve Examples.ssrHost "mocha" "/app" = Throw "Cannot find module".
Proof.
  assert (Hman : manifestOf Examples.ssrHost (root Examples.appConfig)
                   ["mocha"] ["lodash"; "linked"; "esm-only"]).
  { exists "<package.json of /app>", Examples.appManifest.
    repeat split; reflexivity. }
  destruct (devDependencies_externalized 2 Examples.ssrHost Examples.appConfig
              ["left-pad"] Examples.emptyState
              ["mocha"; "left-pad"; "cjs-dep"; "forced"]
              (mkState ["mocha"; "left-pad"; "lodash"; "cjs-dep"; "forced"; "vite"]
                 [PResolve "/app" "left-pad"; PRequireResolve "/app" "left-pad";
                  PResolve "/app" "lodash"; PRequireResolve "/app" "lodash";
                  PRead "/app" "lodash" "/app/node_modules/lodash/lodash.js";
                  PResolve "/app" "linked"; PRequireResolve "/app" "linked";
                  PResolve "/ws/linked" "left-pad";
                  PRequireResolve "/ws/linked" "left-pad";
                  PResolve "/ws/linked" "cjs-dep";
                  PRequireResolve "/ws/linked" "cjs-dep";
                  PResolve "/app" "esm-only"; PRequireResolve "/app" "esm-only";
                  PRead "/app" "esm-only" "/app/node_modules/esm-only/index.mjs"])
              ["mocha"] ["lodash"; "linked"; "esm-only"] eq_refl Hman)
    as (Hdev & _).
  split; [|reflexivity].
  apply Hdev; [now left|reflexivity|discriminate].
Defined.

(** C8, the claim as stated fails: a candidate that is already a member of
    the set is classified all the same (both resolutions and the content
    scan are applied to it). *)
Lemma member_reprocessed_counterexample :
  In "mocha" (ssrExternals (mkState ["mocha"] [])) /\
  classify (fun _ s => Ret s) Examples.devHost Examples.devConfig "mocha"
           (mkState ["mocha"] [])
    = Ret (mkState ["mocha"]
             [PResolve "/dev" "mocha"; PRequireResolve "/dev" "mocha";
              PRead "/dev" "mocha" "/dev/node_modules/mocha/index.js"]).
Proof. split; [now left|reflexivity]. Qed.

(** Nor does the set bound the recursion: a linked package is never put in
    it, and one that resolves to itself is entered again and again. *)
Lemma self_linked_package_never_returns (fuel : nat) :
  forall st,
    resolveSSRExternal fuel Examples.loopHost (mkConfig "/loop" None) [] st
    = Unknown.
Proof.
  induction fuel as [|fuel IH]; intros st; [reflexivity|].
  rewrite (resolveSSRExternal_found fuel Examples.loopHost
             (mkConfig "/loop" None) [] st [] ["loop"]).
  - cbn [app classifyAll]. unfold classify.
    cbn [Examples.loopHost tryNodeResolve requireResolve resolveFrom root ssr].
    change (negb (truthy (VStr "/loop/index.js"))) with false.
    change (negb (includes "/loop/index.js" "node_modules")) with true.
    cbn [bind]. change (Path.dirname "/loop/package.json") with "/loop".
    rewrite IH. reflexivity.
  - exists "<package.json of /loop>",
           (VObj [("dependencies", VObj [("loop", VStr "workspace:*")])]).
    repeat split; reflexivity.
Qed.

(** C8 (as amended). Membership in the set has no influence on the walk.
    A pass that returns has classified, in full, every candidate of every
    directory it entered (the root and the linked packages): the first
    resolution was attempted, the second when the first returned, and the
    entry was read when both returned the same script inside an
    installation directory, whether or not the id was a member of the
    set. Started from the empty set the pass asks the host the very same
    questions, and what it returns from a set is that set together with
    what it returns from the empty one. Membership only makes the addition
    idempotent: the set, and with it the returned list, never holds an id
    twice. *)
Theorem candidates_always_classified fuel h config K st r st' :
  resolveSSRExternal fuel h config K st = Ret (r, st') ->
  (forall root' id,
     visited h K (root config) root' -> candidateOf h K root' id ->
     incl (classificationProbes h root' id) (probes st')) /\
  (exists r0 st0',
     resolveSSRExternal fuel h config K (mkState [] (probes st))
       = Ret (r0, st0') /\
     probes st0' = probes st' /\
     forall x, In x (ssrExternals st') <->
               In x (ssrExternals st) \/ In x (ssrExternals st0')) /\
  (NoDup (ssrExternals st) -> NoDup (ssrExternals st') /\ NoDup r).
Proof.
  intros H. split; [|split].
  - intros root' id V (dd & pd & Hman & Hin).
    destruct (resolveSSRExternal_enters _ _ _ _ _ _ _ _ H V)
      as (f & sa & rb & sb & Hrun & G).
    destruct (resolveSSRExternal_walk _ _ _ _ _ _ _ _ _ Hrun Hman)
      as (f' & s1 & _ & _ & P & Hfin).
    destruct (P id Hin) as (_ & _ & _ & _ & Hp).
    eapply grows_probes_incl; [exact G|].
    assert (sb = snd (finish (mkConfig root' (ssr config)) s1)) as ->
      by now rewrite <- Hfin.
    eapply grows_probes_incl; [apply (grows_finish h K)|exact Hp].
  - assert (T : twin (ssrExternals st) [] st (mkState [] (probes st))).
    { split; [reflexivity|]. exists []. split; intros x; cbn; tauto. }
    destruct (resolveSSRExternal_twin _ _ _ _ _ _ _ _ _ _ T H)
      as (r0 & st0' & Hrun & P & A & H1 & H2).
    exists r0, st0'. split; [exact Hrun|]. split; [now symmetry|].
    intros x. rewrite H1. specialize (H2 x). cbn in H2. tauto.
  - intros Hnd.
    apply resolveSSRExternal_inv in H
      as [(_ & -> & ->)|(f & d & p & s1 & _ & Hman & Hc & Hfin)].
    + split; [exact Hnd|constructor].
    + assert (r = fst (finish config s1)) as -> by now rewrite <- Hfin.
      assert (st' = snd (finish config s1)) as -> by now rewrite <- Hfin.
      apply NoDup_finish.
      eapply (classifyAll_grows _ h K) in Hc as [G _]; try eassumption.
      * apply G. now apply NoDup_addAll.
      * apply recur_grows.
        intros; eapply resolveSSRExternal_grows; eassumption.
      * apply incl_refl.
Qed.

(** The example project: cjs-dep is a candidate of the linked package the
    pass enters, and both resolutions are made there. *)
Lemma candidates_always_classified_witness :
  incl (classificationProbes Examples.ssrHost "/ws/linked" "cjs-dep")
       [PResolve "/app" "left-pad"; PRequireResolve "/app" "left-pad";
        PResolve "/app" "lodash"; PRequireResolve "/app" "lodash";
        PRead "/app" "lodash" "/app/node_modules/lodash/lodash.js";
        PResolve "/app" "linked"; PRequireResolve "/app" "linked";
        PResolve "/ws/linked" "left-pad";
        PRequireResolve "/ws/linked" "left-pad";
        PResolve "/ws/linked" "cjs-dep";
        PRequireResolve "/ws/linked" "cjs-dep";
        PResolve "/app" "esm-only"; PRequireResolve "/app" "esm-only";
        PRead "/app" "esm-only" "/app/node_modules/esm-only/index.mjs"].
Proof.
  destruct (candidates_always_classified 2 Examples.ssrHost
              Examples.appConfig ["left-pad"] Examples.emptyState
              ["mocha"; "left-pad"; "cjs-dep"; "forced"]
              (mkState ["mocha"; "left-pad"; "lodash"; "cjs-dep"; "forced";
                        "vite"]
                 [PResolve "/app" "left-pad";
                  PRequireResolve "/app" "left-pad";
                  PResolve "/app" "lodash"; PRequireResolve "/app" "lodash";
                  PRead "/app" "lodash" "/app/node_modules/lodash/lodash.js";
                  PResolve "/app" "linked"; PRequireResolve "/app" "linked";
                  PResolve "/ws/linked" "left-pad";
                  PRequireResolve "/ws/linked" "left-pad";
                  PResolve "/ws/linked" "cjs-dep";
                  PRequireResolve "/ws/linked" "cjs-dep";
                  PResolve "/app" "esm-only";
                  PRequireResolve "/app" "esm-only";
                  PRead "/app" "esm-only" "/app/node_modules/esm-only/index.mjs"])
              eq_refl) as (Hp & _).
  apply (Hp "/ws/linked" "cjs-dep").
  - apply (visited_link Examples.ssrHost ["left-pad"] "/app" "/app" "linked"
             "/ws/linked/index.js" "/ws/linked/index.js"
             "/ws/linked/package.json").
    + apply visited_root.
    + exists ["mocha"], ["lodash"; "linked"; "esm-only"]. split.
      * exists "<package.json of /app>", Examples.appManifest.
        repeat split; reflexivity.
      * cbn. tauto.
    + reflexivity.
    + reflexivity.
    + reflexivity.
    + reflexivity.
    + reflexivity.
  - exists [], ["cjs-dep"]. split.
    + exists "<package.json of linked>", Examples.linkedManifest.
      repeat split; reflexivity.
    + cbn. tauto.
Defined.

End ResolverFacts.

(** ** Config loading and the plugin pipeline *)

Section Preservation.
Import JS Config.
Context {R : world -> world -> Prop}.
Hypothesis Rrefl : forall w, R w w.
Hypothesis Rtrans : forall w1 w2 w3, R w1 w2 -> R w2 w3 -> R w1 w3.

Lemma preserves_ret {A} (a : A) : preserves R (ret a).
Proof using Rrefl. intros w r w' H. inversion H; subst. apply Rrefl. Qed.

Lemma preserves_throw {A} (msg : string) : preserves R (@throw A msg).
Proof using Rrefl. intros w r w' H. inversion H; subst. apply Rrefl. Qed.

Lemma preserves_lift {A} (m : outcome A) : preserves R (lift m).
Proof using Rrefl. intros w r w' H. inversion H; subst. apply Rrefl. Qed.

Lemma preserves_bind {A B} (m : M A) (k : A -> M B) :
  preserves R m -> (forall a, preserves R (k a)) -> preserves R (bindM m k).
Proof using Rtrans.
  intros Hm Hk w r w' H. unfold bindM in H.
  destruct (m w) as [[a|e|] w1] eqn:E.
  - eapply Rtrans; [eapply Hm; eassumption|eapply Hk; eassumption].
  - inversion H; subst. eapply Hm; eassumption.
  - inversion H; subst. eapply Hm; eassumption.
Qed.

Lemma preserves_tryCatch {A} (body : M A) (handler : string -> M A) :
  preserves R body -> (forall e, preserves R (handler e)) ->
  preserves R (tryCatch body handler).
Proof using Rtrans.
  intros Hb Hh w r w' H. unfold tryCatch in H.
  destruct (body w) as [[a|e|] w1] eqn:E.
  - inversion H; subst. eapply Hb; eassumption.
  - eapply Rtrans; [eapply Hb; eassumption|eapply Hh; eassumption].
  - inversion H; subst. eapply Hb; eassumption.
Qed.

Lemma preserves_tryFinally {A} (body : M A) (cleanup : M unit) :
  preserves R body -> preserves R cleanup ->
  preserves R (tryFinally body cleanup).
Proof using Rtrans.
  intros Hb Hc w r w' H. unfold tryFinally in H.
  destruct (body w) as [[a|e|] w1] eqn:E;
    try (inversion H; subst; eapply Hb; eassumption);
    destruct (cleanup w1) as [[[]|e'|] w2] eqn:E'; inversion H; subst;
    (eapply Rtrans; [eapply Hb; eassumption|eapply Hc; eassumption]).
Qed.

End Preservation.

Section ConfigFacts.
Import JS Config.

Lemma sameHooks_refl w : sameHooks w w.
Proof. reflexivity. Qed.

Lemma sameHooks_trans w1 w2 w3 :
  sameHooks w1 w2 -> sameHooks w2 w3 -> sameHooks w1 w3.
Proof. unfold sameHooks. congruence. Qed.

Lemma staysAbsent_refl p w : staysAbsent p w w.
Proof. intros H. exact H. Qed.

Lemma staysAbsent_trans p w1 w2 w3 :
  staysAbsent p w1 w2 -> staysAbsent p w2 w3 -> staysAbsent p w1 w3.
Proof. unfold staysAbsent. auto. Qed.

Lemma sameHooks_emit e :
  (match e with EHook _ _ => false | _ => true end) = true ->
  preserves sameHooks (emit e).
Proof.
  intros He w r w' H. inversion H; subst. unfold sameHooks, hookEvents.
  cbn [log]. rewrite List.filter_app. cbn. destruct e; try discriminate;
    now rewrite app_nil_r.
Qed.

Lemma sameHooks_files {A} (m : M A) :
  (forall w r w', m w = (r, w') -> log w' = log w) -> preserves sameHooks m.
Proof. intros Hm w r w' H. unfold sameHooks. now rewrite (Hm _ _ _ H). Qed.

Lemma writeFileSync_log path code w r w' :
  writeFileSync path code w = (r, w') -> log w' = log w.
Proof. intros H. inversion H. reflexivity. Qed.

Lemma unlinkSync_log path w r w' :
  unlinkSync path w = (r, w') -> log w' = log w.
Proof.
  unfold unlinkSync. destruct (files w !! path); intros H; inversion H;
    reflexivity.
Qed.

Lemma readModule_same path w r w' : readModule path w = (r, w') -> w' = w.
Proof.
  unfold readModule. destruct (files w !! path); intros H; now inversion H.
Qed.

Lemma staysAbsent_emit p e : preserves (staysAbsent p) (emit e).
Proof. intros w r w' H. inversion H; subst. intros Hp. exact Hp. Qed.

Lemma staysAbsent_unlinkSync p path : preserves (staysAbsent p) (unlinkSync path).
Proof.
  intros w r w' H Hp. unfold unlinkSync in H.
  destruct (files w !! path); inversion H; subst; cbn [files]; [|assumption].
  destruct (decide (path = p)) as [->|Hne].
  - apply lookup_delete_eq.
  - now rewrite lookup_delete_ne.
Qed.

Lemma preserves_readModule R path :
  (forall w, R w w) -> preserves R (readModule path).
Proof. intros Hr w r w' H. apply readModule_same in H. subst. apply Hr. Qed.

Ltac preserve_step R Rrefl Rtrans :=
  first
    [ apply (@preserves_bind R Rtrans); [|intros ?]
    | apply (@preserves_ret R Rrefl)
    | apply (@preserves_throw R Rrefl)
    | apply (@preserves_lift R Rrefl)
    | apply (@preserves_tryCatch R Rtrans); [|intros ?]
    | apply (@preserves_tryFinally R Rtrans)
    | apply preserves_readModule; exact Rrefl
    | match goal with
      | |- preserves _ (if ?c then _ else _) => destruct c
      | |- preserves _ (match ?x with _ => _ end) => destruct x
      end ].

Ltac preserve_hooks :=
  repeat first
    [ preserve_step sameHooks sameHooks_refl sameHooks_trans
    | apply sameHooks_emit; reflexivity
    | apply sameHooks_files; intros ? ? ?;
      first [apply writeFileSync_log|apply unlinkSync_log] ].

Ltac preserve_absent p :=
  repeat first
    [ preserve_step (staysAbsent p) (staysAbsent_refl p) (staysAbsent_trans p)
    | apply staysAbsent_emit
    | apply staysAbsent_unlinkSync ].

Lemma loadConfigFromBundledFile_hooks h fileName code :
  preserves sameHooks (loadConfigFromBundledFile h fileName code).
Proof. unfold loadConfigFromBundledFile. preserve_hooks. Qed.

Lemma loadBody_hooks h configEnv resolvedPath isTS isMjs :
  preserves sameHooks (loadBody h configEnv resolvedPath isTS isMjs).
Proof.
  unfold loadBody. preserve_hooks.
Qed.

(** Loading the config file calls no plugin hook. *)
Lemma loadConfigFromFile_hooks h configEnv configFile configRoot :
  preserves sameHooks (loadConfigFromFile h configEnv configFile configRoot).
Proof.
  intros w r w' H. unfold loadConfigFromFile in H.
  destruct (discover h _ _ _ w) as [[[resolvedPath|] isTS] isMjs].
  - revert H. generalize w r w'.
    change (preserves sameHooks
              (tryFinally
                 (tryCatch
                    (let* r := loadBody h configEnv resolvedPath isTS isMjs
                     in ret (Some r))
                    (fun msg =>
                       run emit (ELogError
                                   ("failed to load config from " ++ resolvedPath)%string)
                       in throw msg))
                 (emit EStopService))).
    preserve_hooks.
  - inversion H; subst. apply sameHooks_refl.
Qed.

Lemma mergedUserConfig_hooks h inlineConfig configEnv :
  preserves sameHooks (mergedUserConfig h inlineConfig configEnv).
Proof.
  unfold mergedUserConfig.
  destruct (get "configFile" inlineConfig) as [| |[]| | | | | |];
    preserve_hooks; try apply loadConfigFromFile_hooks.
Qed.

(** Everything the loader does after the transient artifact is gone leaves
    it gone. *)
Lemma loadConfigFromBundledFile_absent p h fileName code :
  preserves (staysAbsent p) (loadConfigFromBundledFile h fileName code).
Proof. unfold loadConfigFromBundledFile. preserve_absent p. Qed.

(** When the TypeScript config of an ES-module package loads, the
    transient artifact is deleted before [loadConfigFromFile] returns. *)
Lemma loadBody_success_removes_artifact h configEnv resolvedPath w r w' :
  loadBody h configEnv resolvedPath true true w = (Ret r, w') ->
  files w' !! (resolvedPath ++ ".js")%string = None.
Proof.
  unfold loadBody. set (p := (resolvedPath ++ ".js")%string).
  match goal with
  | |- bindM ?first ?rest w = _ -> _ => set (m1 := first); set (k := rest)
  end.
  intros H. unfold bindM at 1 in H.
  destruct (m1 w) as [[u|e|] w1] eqn:E1; try discriminate.
  assert (Hgone : files w1 !! p = None).
  { subst m1. cbv beta iota in E1. unfold bindM, lift, writeFileSync in E1.
    destruct (bundleConfigFile h resolvedPath true); try discriminate.
    unfold readModule in E1. cbn [files] in E1.
    rewrite lookup_insert_eq in E1.
    destruct (importModule h a); try discriminate.
    destruct (member a0 "default"); try discriminate.
    unfold unlinkSync in E1. cbn [files] in E1.
    rewrite lookup_insert_eq in E1. inversion E1; subst. cbn [files].
    apply lookup_delete_eq. }
  assert (Hk : preserves (staysAbsent p) (k u)).
  { subst k. cbv beta. preserve_absent p. }
  exact (Hk _ _ _ H Hgone).
Qed.

(** C7, evaluated at the failing input: the compiled config of /site throws
    while it is imported. The artifact vite.config.ts.js, absent before the
    call, is still on disk after [loadConfigFromFile] has thrown: the
    [unlinkSync] after the import is skipped, and neither the [catch] nor
    the [finally] of the function removes the file. *)
Lemma loadConfigFromFile_leaves_artifact :
  files Examples.siteWorld !! "/site/vite.config.ts.js" = None /\
  fst (loadConfigFromFile Examples.brokenSite Examples.buildEnv None
         (Some "/site") Examples.siteWorld) = Throw "boom" /\
  files (snd (loadConfigFromFile Examples.brokenSite Examples.buildEnv None
                (Some "/site") Examples.siteWorld))
    !! "/site/vite.config.ts.js"
  = Some "<bundle of /site/vite.config.ts>" /\
  log (snd (loadConfigFromFile Examples.brokenSite Examples.buildEnv None
              (Some "/site") Examples.siteWorld))
  = [ELogError "failed to load config from /site/vite.config.ts"; EStopService].
Proof. repeat split; vm_compute; reflexivity. Qed.

(** *** Plugin order *)

Lemma member_value p name v : member p name = Ret v -> v = prop p name.
Proof. destruct p; cbn; intros H; try discriminate; congruence. Qed.

Lemma hasTag_normal p :
  hasTag "normal" p = negb (hasTag "pre" p) && negb (hasTag "post" p).
Proof.
  unfold hasTag, enforceTag. destruct (prop p "enforce"); try reflexivity.
  destruct (String.eqb s "pre"); [reflexivity|].
  destruct (String.eqb s "post"); reflexivity.
Qed.

Lemma hasTag_pre_post p : hasTag "pre" p = true -> hasTag "post" p = false.
Proof.
  unfold hasTag, enforceTag. destruct (prop p "enforce"); try discriminate.
  destruct (String.eqb s "pre"); [reflexivity|].
  destruct (String.eqb s "post"); discriminate.
Qed.

Lemma enforces_pre p b : enforces "pre" p = Ret b -> b = hasTag "pre" p.
Proof.
  unfold enforces, omap. destruct (member p "enforce") as [e| |] eqn:E;
    cbn [bind]; try discriminate.
  apply member_value in E. intros H. inversion H; subst.
  unfold hasTag, enforceTag. destruct (prop p "enforce"); try reflexivity.
  destruct (String.eqb s "pre"); [reflexivity|].
  destruct (String.eqb s "post"); reflexivity.
Qed.

Lemma enforces_post p b : enforces "post" p = Ret b -> b = hasTag "post" p.
Proof.
  unfold enforces, omap. destruct (member p "enforce") as [e| |] eqn:E;
    cbn [bind]; try discriminate.
  apply member_value in E. intros H. inversion H; subst.
  unfold hasTag, enforceTag. destruct (prop p "enforce"); try reflexivity.
  destruct (String.eqb s "pre") eqn:E1.
  - apply String.eqb_eq in E1. now subst.
  - destruct (String.eqb s "post"); reflexivity.
Qed.

(** The three arrays [sortUserPlugins] fills are the three stable
    sub-lists. *)
Lemma pushPlugins_spec (l : list value) :
  forall pre normal post r,
    pushPlugins (pre, normal, post) l = Ret r ->
    r = (pre ++ List.filter (hasTag "pre") l,
         normal ++ List.filter (hasTag "normal") l,
         post ++ List.filter (hasTag "post") l).
Proof.
  induction l as [|p l IH]; intros pre normal post r H; cbn in H.
  - inversion H. now rewrite !app_nil_r.
  - destruct (enforces "pre" p) as [isPre| |] eqn:E1; cbn [bind] in H;
      try discriminate.
    apply enforces_pre in E1. cbn [List.filter]. rewrite hasTag_normal.
    destruct isPre.
    + cbn [bind] in H. apply IH in H. rewrite <- E1.
      rewrite (hasTag_pre_post p (eq_sym E1)). cbn [negb andb].
      now rewrite <- app_assoc in H.
    + destruct (enforces "post" p) as [isPost| |] eqn:E2; cbn [bind] in H;
        try discriminate.
      apply enforces_post in E2. rewrite <- E1, <- E2. cbn [negb andb].
      destruct isPost; cbn [bind] in H; apply IH in H;
        now rewrite <- app_assoc in H.
Qed.

Lemma flat_no_arrays (l : list value) :
  Forall (fun p => isArray p = false) l -> flat l = l.
Proof.
  induction 1 as [|p l Hp Hl IH]; [reflexivity|].
  unfold flat in *. cbn [flat_map]. rewrite IH.
  destruct p; try reflexivity. discriminate.
Qed.

Lemma appliesTo_spec command p b :
  appliesTo command p = Ret b -> b = negb (hasApplyOther command p).
Proof.
  unfold appliesTo, omap. destruct (member p "apply") as [a| |] eqn:E;
    cbn [bind]; try discriminate.
  apply member_value in E. intros H. inversion H; subst.
  unfold hasApplyOther. now rewrite negb_andb, negb_involutive.
Qed.

Lemma filterO_spec {A} (f : A -> outcome bool) (g : A -> bool) (l : list A) :
  (forall x b, f x = Ret b -> b = g x) ->
  forall r, filterO f l = Ret r -> r = List.filter g l.
Proof.
  intros Hf. induction l as [|x l IH]; intros r H; cbn in H.
  - now inversion H.
  - destruct (f x) as [keep| |] eqn:E; cbn [bind] in H; try discriminate.
    destruct (filterO f l) as [r'| |]; cbn [bind] in H; try discriminate.
    inversion H; subst. cbn. rewrite <- (Hf _ _ E), <- (IH _ eq_refl).
    reflexivity.
Qed.

Lemma rawUserPlugins_spec config command raw :
  rawUserPlugins config command = Ret raw ->
  raw = List.filter (fun p => negb (hasApplyOther command p))
                    (registeredPlugins config).
Proof.
  unfold rawUserPlugins, registeredPlugins.
  destruct (get "plugins" config) eqn:E; cbn [truthy];
    try (intros H; now inversion H);
    try (destruct (truthy _); intros H; now inversion H).
  - destruct b; intros H; now inversion H.
  - destruct (negb (Z.eqb n 0)); intros H; now inversion H.
  - destruct (negb (String.eqb s EmptyString)); intros H; now inversion H.
  - apply filterO_spec. apply appliesTo_spec.
Qed.

Lemma Forall_filter_keep {A} (P : A -> Prop) (g : A -> bool) (l : list A) :
  Forall P l -> Forall P (List.filter g l).
Proof.
  induction 1 as [|x l Hx Hl IH]; cbn; [constructor|].
  destruct (g x); [constructor; assumption|assumption].
Qed.

Lemma hookCalls_cons name p l :
  hookCalls name (p :: l)
  = (if hasHook name p then [EHook p name] else []) ++ hookCalls name l.
Proof. unfold hookCalls. cbn. destruct (hasHook name p); reflexivity. Qed.

Lemma invokeHook_log h p name f args w r w' :
  invokeHook h p name f args w = (Ret r, w') ->
  log w' = log w ++ [EHook p name] /\ files w' = files w.
Proof.
  unfold invokeHook. destruct f; try discriminate.
  unfold bindM, emit, lift. destruct (callFunction h p (VFun id) args);
    intros H; inversion H; subst. auto.
Qed.

Lemma configHook_log h configEnv config p w config' w' :
  configHook h configEnv config p w = (Ret config', w') ->
  log w' = log w ++ (if hasHook "config" p then [EHook p "config"] else []).
Proof.
  unfold configHook, bindM at 1, lift at 1.
  destruct (member p "config") as [hook| |] eqn:E; try discriminate.
  apply member_value in E.
  assert (Hh : hasHook "config" p = truthy hook) by now subst hook.
  rewrite Hh. destruct (truthy hook).
  - unfold bindM.
    destruct (invokeHook h p "config" hook [VObj config; configEnv] w)
      as [[res|e|] w1] eqn:Ei; try discriminate.
    apply invokeHook_log in Ei as [L _].
    destruct (truthy res); unfold lift, ret;
      try destruct (Merge.mergeConfig config (ownProps res) true);
      intros H; inversion H; subst; exact L.
  - intros H. inversion H; subst. now rewrite app_nil_r.
Qed.

Lemma configHooks_log h configEnv (l : list value) :
  forall config w config' w',
    foldM (configHook h configEnv) config l w = (Ret config', w') ->
    log w' = log w ++ hookCalls "config" l.
Proof.
  induction l as [|p l IH]; intros config w config' w' H; cbn [foldM] in H.
  - inversion H; subst. now rewrite app_nil_r.
  - unfold bindM in H.
    destruct (configHook h configEnv config p w) as [[c1|e|] w1] eqn:E;
      try discriminate.
    apply configHook_log in E. apply IH in H.
    rewrite hookCalls_cons, H, E. now rewrite app_assoc.
Qed.

Lemma configResolvedHook_log h resolved p w w' :
  configResolvedHook h resolved p w = (Ret tt, w') ->
  log w' = log w
           ++ (if hasHook "configResolved" p then [EHook p "configResolved"]
               else []).
Proof.
  unfold configResolvedHook, bindM at 1, lift at 1.
  destruct (member p "configResolved") as [hook| |] eqn:E; try discriminate.
  apply member_value in E.
  assert (Hh : hasHook "configResolved" p = truthy hook) by now subst hook.
  rewrite Hh. destruct (truthy hook).
  - unfold bindM.
    destruct (invokeHook h p "configResolved" hook [resolved] w)
      as [[res|e|] w1] eqn:Ei; try discriminate.
    apply invokeHook_log in Ei as [L _].
    intros H; inversion H; subst; exact L.
  - intros H. inversion H; subst. now rewrite app_nil_r.
Qed.

Lemma configResolvedHooks_log h resolved (l : list value) :
  forall w w',
    forEach (configResolvedHook h resolved) l w = (Ret tt, w') ->
    log w' = log w ++ hookCalls "configResolved" l.
Proof.
  induction l as [|p l IH]; intros w w' H; cbn [forEach] in H.
  - inversion H; subst. now rewrite app_nil_r.
  - unfold bindM in H.
    destruct (configResolvedHook h resolved p w) as [[[]|e|] w1] eqn:E;
      try discriminate.
    apply configResolvedHook_log in E. apply IH in H.
    rewrite hookCalls_cons, H, E. now rewrite app_assoc.
Qed.

(** The pipeline on the merged config: the order of the plugins and the
    calls it makes. *)
Lemma resolvePlugins_spec h configEnv config command w userPlugins resolved w' :
  resolvePlugins h configEnv config command w
    = (Ret (userPlugins, resolved), w') ->
  Forall (fun p => isArray p = false) (registeredPlugins config) ->
  userPlugins = spec_order command (registeredPlugins config) /\
  log w' = log w ++ hookCalls "config" userPlugins
                 ++ hookCalls "configResolved" userPlugins.
Proof.
  intros H Hty. unfold resolvePlugins in H.
  unfold bindM at 1, lift at 1 in H.
  destruct (rawUserPlugins config command) as [raw| |] eqn:Eraw;
    try discriminate.
  apply rawUserPlugins_spec in Eraw.
  unfold bindM at 1, lift at 1 in H. unfold sortUserPlugins in H.
  rewrite flat_no_arrays in H
    by (subst raw; now apply Forall_filter_keep).
  destruct (pushPlugins ([], [], []) raw) as [sorted| |] eqn:Es;
    try discriminate.
  apply pushPlugins_spec in Es. subst sorted. cbn [app] in H.
  set (ups := List.filter (hasTag "pre") raw
              ++ List.filter (hasTag "normal") raw
              ++ List.filter (hasTag "post") raw) in *.
  assert (Hups : ups = spec_order command (registeredPlugins config)).
  { unfold spec_order. now rewrite <- Eraw. }
  unfold bindM at 1 in H.
  destruct (foldM (configHook h configEnv) config ups w)
    as [[config'|e|] w1] eqn:E1; try discriminate.
  apply configHooks_log in E1.
  unfold bindM at 1, lift at 1 in H.
  destruct (finishResolve h config' ups) as [res| |]; try discriminate.
  unfold bindM in H.
  destruct (forEach (configResolvedHook h res) ups w1)
    as [[[]|e|] w2] eqn:E2; try discriminate.
  apply configResolvedHooks_log in E2.
  unfold ret in H. inversion H; subst userPlugins res w2.
  split; [exact Hups|]. rewrite E2, E1. now rewrite app_assoc.
Qed.

Lemma hookEvents_calls name l : hookEvents (hookCalls name l) = hookCalls name l.
Proof.
  unfold hookCalls. induction (List.filter (hasHook name) l) as [|p l' IH];
    [reflexivity|]. cbn. now rewrite <- IH at 2.
Qed.

(** C6. In config resolution the plugins whose [apply] is set and differs
    from the command are dropped, the remaining ones are split, each group
    in registration order, into the [pre], the untagged and the [post]
    plugins and put together in that order, and exactly this order is the
    order in which the [config] hooks, and after them the [configResolved]
    hooks, are called (plugins registered in lists nested at most once, as
    the declared type has them). Registered as A (untagged), B (pre),
    C (post), D (pre), the plugins sort to B, D, A, C. *)
Theorem plugin_order_is_hook_order h inlineConfig command defaultMode w
  config w1 resolved w' :
  mergedUserConfig h inlineConfig
    (configEnvValue (VStr command)
       (if truthy (get "mode" inlineConfig) then get "mode" inlineConfig
        else VStr defaultMode)) w = (Ret config, w1) ->
  Forall (fun p => isArray p = false) (registeredPlugins config) ->
  resolveConfig h inlineConfig command defaultMode w = (Ret resolved, w') ->
  hookEvents (log w')
  = hookEvents (log w)
    ++ hookCalls "config" (spec_order command (registeredPlugins config))
    ++ hookCalls "configResolved"
                 (spec_order command (registeredPlugins config)) /\
  sortUserPlugins (Some [Examples.pluginA; Examples.pluginB;
                         Examples.pluginC; Examples.pluginD])
  = Ret ([Examples.pluginB; Examples.pluginD], [Examples.pluginA],
         [Examples.pluginC]) /\
  spec_order command [Examples.pluginA; Examples.pluginB;
                      Examples.pluginC; Examples.pluginD]
  = [Examples.pluginB; Examples.pluginD; Examples.pluginA; Examples.pluginC].
Proof.
  intros E1 Hty H. split; [|split; reflexivity].
  unfold resolveConfig in H. unfold bindM at 1 in H. rewrite E1 in H.
  unfold bindM in H.
  destruct (resolvePlugins h _ config command w1)
    as [[[ups res]|e|] w2] eqn:E2; try discriminate.
  unfold ret in H. inversion H; subst resolved w2.
  apply resolvePlugins_spec in E2 as [-> L]; [|assumption].
  apply mergedUserConfig_hooks in E1. unfold sameHooks in E1.
  rewrite L. unfold hookEvents at 1. rewrite !List.filter_app.
  fold (hookEvents (log w1)). rewrite E1.
  fold (hookEvents (hookCalls "config"
          (spec_order command (registeredPlugins config)))).
  fold (hookEvents (hookCalls "configResolved"
          (spec_order command (registeredPlugins config)))).
  now rewrite !hookEvents_calls.
Qed.

(** The example site under the command build: the serve-only plugin E is
    dropped, and both rounds of hooks run in the order B, D, A, C. *)
Lemma plugin_order_is_hook_order_witness :
  hookEvents
    (log (snd (resolveConfig Examples.goodSite [("root", VStr "/site")]
                 "build" "production" Examples.siteWorld)))
  = [EHook Examples.pluginB "config"; EHook Examples.pluginD "config";
     EHook Examples.pluginA "config"; EHook Examples.pluginC "config";
     EHook Examples.pluginB "configResolved";
     EHook Examples.pluginD "configResolved";
     EHook Examples.pluginA "configResolved";
     EHook Examples.pluginC "configResolved"].
Proof.
  refine (eq_trans
            (proj1 (plugin_order_is_hook_order Examples.goodSite
                      [("root", VStr "/site")] "build" "production"
                      Examples.siteWorld
                      [("plugins",
                        VArr [Examples.pluginA;
                              VArr [Examples.pluginB; Examples.pluginE];
                              Examples.pluginC; Examples.pluginD]);
                       ("root", VStr "/site")]
                      (snd (mergedUserConfig Examples.goodSite
                              [("root", VStr "/site")]
                              Examples.buildEnv Examples.siteWorld))
                      (match fst (resolveConfig Examples.goodSite
                                    [("root", VStr "/site")] "build"
                                    "production" Examples.siteWorld) with
                       | Ret v => v
                       | _ => VUndefined
                       end)
                      (snd (resolveConfig Examples.goodSite
                              [("root", VStr "/site")] "build" "production"
                              Examples.siteWorld))
                      _ _ _)) _).
  - vm_compute. reflexivity.
  - repeat constructor.
  - vm_compute. reflexivity.
  - reflexivity.
Defined.

End ConfigFacts.

(** ** The definitions on documented inputs *)

Section Checks.
Import JS.

(** The examples of Node's documentation of [path.extname] and
    [path.dirname]. *)
Example extname_documented :
  Path.extname "index.html" = ".html" /\
  Path.extname "index.coffee.md" = ".md" /\
  Path.extname "index." = "." /\
  Path.extname "index" = EmptyString /\
  Path.extname ".index" = EmptyString /\
  Path.extname ".index.md" = ".md".
Proof. repeat split; reflexivity. Qed.

Example dirname_documented :
  Path.dirname "/foo/bar/baz/asdf/quux" = "/foo/bar/baz/asdf" /\
  Path.dirname "/ws/linked/package.json" = "/ws/linked".
Proof. repeat split; reflexivity. Qed.

(** The trim rule on the specification's two examples. *)
Example alias_trim_documented :
  Merge.normalizeSingleAlias
    (VObj [("find", VStr "/src/"); ("replacement", VStr "/root/")])
  = Ret (VObj [("find", VStr "/src"); ("replacement", VStr "/root")]) /\
  Merge.normalizeSingleAlias
    (VObj [("find", VStr "/src"); ("replacement", VStr "/root/")])
  = Ret (VObj [("find", VStr "/src"); ("replacement", VStr "/root/")]).
Proof. repeat split; reflexivity. Qed.

(** The CommonJS markers need a word boundary in front. *)
Example cjs_markers :
  SSR.hasCjsMarkers "module.exports = {}" = true /\
  SSR.hasCjsMarkers "exports.default = 1" = true /\
  SSR.hasCjsMarkers "exports['a'] = 1" = true /\
  SSR.hasCjsMarkers "const a = require ('a')" = true /\
  SSR.hasCjsMarkers "export default function exportsTable () {}" = false /\
  SSR.hasCjsMarkers "module.exportsAll = 1" = false /\
  SSR.hasCjsMarkers "my_require('a')" = false.
Proof. repeat split; reflexivity. Qed.

(** The white space between [require] and the parenthesis may be any
    character of [\s]: here U+00A0 and U+2028 in UTF-8; a stray
    continuation byte is none. *)
Example cjs_markers_white_space :
  SSR.hasCjsMarkers
    ("require" ++ String (ascii_of_nat 194) (String (ascii_of_nat 160)
                                               "('a')"))%string = true /\
  SSR.hasCjsMarkers
    ("require" ++ String (ascii_of_nat 226) (String (ascii_of_nat 128)
                    (String (ascii_of_nat 168) "('a')")))%string = true /\
  SSR.hasCjsMarkers
    ("require" ++ String (ascii_of_nat 160) "('a')")%string = false.
Proof. repeat split; vm_compute; reflexivity. Qed.

(** An override that owns a property named [__proto__]: a primitive is
    ignored and leaves no property; an object would become the prototype
    of the copy, which no value describes; a base that owns the property
    has it overwritten like any other. *)
Example mergeConfig_proto_key :
  Merge.mergeConfig [] [("__proto__", VNum 5); ("x", VNum 1)] true
    = Ret [("x", VNum 1)] /\
  Merge.mergeConfig [] [("__proto__", VObj [("x", VNum 1)])] true = Unknown /\
  Merge.mergeConfig [("__proto__", VNum 1)] [("__proto__", VNum 5)] true
    = Ret [("__proto__", VNum 5)] /\
  Merge.mergeConfig [] [("constructor", VArr [VNum 1])] true
    = Ret [("constructor", VArr [VNum 1])].
Proof. repeat split; reflexivity. Qed.

(** The example site loads: the config is returned and the transient
    artifact is gone. *)
Example loadConfigFromFile_example :
  fst (Config.loadConfigFromFile Examples.goodSite Examples.buildEnv None
         (Some "/site") Examples.siteWorld)
  = Ret (Some ("/site/vite.config.ts", Examples.siteConfig)) /\
  Config.files
    (snd (Config.loadConfigFromFile Examples.goodSite Examples.buildEnv None
            (Some "/site") Examples.siteWorld))
    !! "/site/vite.config.ts.js" = None.
Proof. split; vm_compute; reflexivity. Qed.

(** A function registered in place of a plugin object has an [apply]
    member (every function has), so the filter drops it. *)
Example function_as_plugin_is_dropped :
  Config.rawUserPlugins [("plugins", VArr [VFun "vue"; Examples.pluginA])] "build"
  = Ret [Examples.pluginA].
Proof. reflexivity. Qed.

End Checks.

(** ** More on the config merger *)

Section MergeMore.
Import JS Merge Resolve.

(** X1. The merged copy has exactly the keys of the base and the keys the
    override holds with a non-nullish value, [__proto__] apart: the merge
    never drops a key of the base, never invents one, and never creates a
    property named [__proto__] (the assignment reaches the accessor of
    Object.prototype instead). *)
Theorem mergeConfig_keys (a b m : obj) (isRoot : bool) :
  NoDup (keys b) ->
  mergeConfig a b isRoot = Ret m ->
  forall key,
    has key m
    = has key a
      || (negb (nullish (get key b)) && negb (String.eqb key "__proto__")).
Proof.
  intros Hnd Hm key.
  pose proof (mergeConfig_get a b m isRoot Hnd Hm key) as G.
  unfold reachesPrototype in G.
  destruct (nullish (get key b)), (has key a),
    (String.eqb key "__proto__"); cbn in G |- *;
    destruct G as [_ G]; exact G.
Qed.

Lemma mergeConfig_keys_witness :
  has "__proto__" [("build", VObj []); ("root", VStr "/site")]
  = has "__proto__" [("build", VObj [])]
    || (negb (nullish (get "__proto__"
                         [("__proto__", VNum 5); ("root", VStr "/site");
                          ("mode", VNull)]))
        && negb (String.eqb "__proto__" "__proto__")).
Proof.
  apply (mergeConfig_keys [("build", VObj [])]
           [("__proto__", VNum 5); ("root", VStr "/site"); ("mode", VNull)]
           [("build", VObj []); ("root", VStr "/site")] true).
  - repeat constructor; cbn; intuition discriminate.
  - reflexivity.
Defined.

(** X2. Folding two overrides onto a base, as the config hooks of two
    plugins do, accumulates a list-valued option: the base's elements, then
    the first override's, then the second's, none dropped; an override that
    lacks the option contributes nothing. *)
Theorem mergeConfig_lists_accumulate (a b c m1 m2 : obj) (r1 r2 : bool)
  (key : string) (xs zs : list value) :
  NoDup (keys b) -> NoDup (keys c) ->
  mergeConfig a b r1 = Ret m1 ->
  mergeConfig m1 c r2 = Ret m2 ->
  get key a = VArr xs -> get key c = VArr zs ->
  (forall ys, get key b = VArr ys -> get key m2 = VArr (xs ++ ys ++ zs)) /\
  (nullish (get key b) = true -> get key m2 = VArr (xs ++ zs)).
Proof.
  intros Hb Hc H1 H2 Ha Hcz.
  pose proof (mergeConfig_get _ _ _ _ Hb H1 key) as G1.
  pose proof (mergeConfig_get _ _ _ _ Hc H2 key) as G2.
  rewrite own_value_not_prototype, orb_false_r in G1 by now rewrite Ha.
  rewrite Hcz in G2. cbn [nullish orb] in G2. split.
  - intros ys Hy. rewrite Hy, Ha in G1. cbn in G1. destruct G1 as [G1 _].
    inversion G1 as [E1].
    rewrite own_value_not_prototype in G2 by now rewrite <- E1.
    rewrite <- E1 in G2. cbn in G2. destruct G2 as [G2 _].
    inversion G2. now rewrite <- app_assoc.
  - intros Hn. rewrite Hn in G1. destruct G1 as [G1 _].
    rewrite own_value_not_prototype in G2 by now rewrite G1, Ha.
    rewrite G1, Ha in G2. cbn in G2. destruct G2 as [G2 _]. now inversion G2.
Qed.

Lemma mergeConfig_lists_accumulate_witness :
  get "plugins" [("plugins", VArr [VStr "a"; VStr "b"; VStr "c"])]
  = VArr ([VStr "a"] ++ [VStr "b"] ++ [VStr "c"]).
Proof.
  refine (proj1 (mergeConfig_lists_accumulate
                   [("plugins", VArr [VStr "a"])]
                   [("plugins", VArr [VStr "b"])]
                   [("plugins", VArr [VStr "c"])]
                   [("plugins", VArr [VStr "a"; VStr "b"])]
                   [("plugins", VArr [VStr "a"; VStr "b"; VStr "c"])]
                   true true "plugins" [VStr "a"] [VStr "c"]
                   _ _ eq_refl eq_refl eq_refl eq_refl) [VStr "b"] eq_refl);
    repeat constructor; cbn; intuition discriminate.
Defined.

(** *** The alias normalizer *)

Lemma substring_full (s : string) : substring 0 (String.length s) s = s.
Proof. induction s as [|c s IH]; cbn; [reflexivity|now rewrite IH]. Qed.

Lemma substring_split (s : string) :
  forall n, n <= String.length s ->
    (substring 0 n s ++ substring n (String.length s - n) s)%string = s.
Proof.
  induction s as [|c s IH]; intros n Hn; cbn in Hn.
  - assert (n = 0) by lia. subst. reflexivity.
  - destruct n as [|n].
    + rewrite Nat.sub_0_r. change (substring 0 0 (String c s)) with EmptyString.
      cbn [String.append]. apply substring_full.
    + change (String c (substring 0 n s
                        ++ substring n (String.length s - n) s)%string
              = String c s).
      now rewrite IH by lia.
Qed.

Lemma dropLast_restore (s : string) :
  endsWith s "/" = true -> (dropLast s ++ "/")%string = s.
Proof.
  unfold endsWith, dropLast. cbn [String.length]. intros H.
  apply andb_true_iff in H as [Hlen Heq].
  apply Nat.leb_le in Hlen. apply String.eqb_eq in Heq.
  pose proof (substring_split s (String.length s - 1)) as Hs.
  replace (String.length s - (String.length s - 1)) with 1 in Hs by lia.
  rewrite Heq in Hs. apply Hs. lia.
Qed.

(** X3. The trim rule removes exactly one trailing separator from both
    sides or nothing at all: the normalized entry is the entry itself, or
    the entry is the normalized one with a separator appended to [find] and
    to [replacement]. *)
Theorem normalizeSingleAlias_trims_one_separator (f r : string) :
  exists f' r',
    normalizeSingleAlias (VObj [("find", VStr f); ("replacement", VStr r)])
    = Ret (VObj [("find", VStr f'); ("replacement", VStr r')]) /\
    ((f' = f /\ r' = r) \/
     (f = (f' ++ "/")%string /\ r = (r' ++ "/")%string)).
Proof.
  rewrite normalizeSingleAlias_strings.
  destruct (endsWith f "/") eqn:Ef; cbn [andb].
  - destruct (endsWith r "/") eqn:Er.
    + exists (dropLast f), (dropLast r). split; [reflexivity|]. right.
      now rewrite !dropLast_restore.
    + exists f, r. auto.
  - exists f, r. auto.
Qed.

Lemma mapM_length {A B} (f : A -> outcome B) (l : list A) :
  forall r, mapM f l = Ret r -> List.length r = List.length l.
Proof.
  induction l as [|x l IH]; intros r H; cbn in H.
  - now inversion H.
  - destruct (f x); cbn [bind] in H; try discriminate.
    destruct (mapM f l) as [ys| |]; cbn [bind] in H; try discriminate.
    inversion H. cbn. now rewrite (IH ys eq_refl).
Qed.

Lemma normalizeAlias_length (o : value) (l : list value) :
  o <> VUndefined ->
  normalizeAlias o = Ret l -> List.length l = aliasEntries o.
Proof.
  intros Hu H. destruct o; cbn [normalizeAlias aliasEntries] in *;
    try discriminate; try contradiction;
    apply mapM_length in H; rewrite H; unfold keys;
    try apply length_map; reflexivity.
Qed.

(** X4. Merging two alias sources keeps every entry of both: the merged
    list has as many entries as the two sources together (the elements of
    a list, the keys of a mapping), so an entry whose [find] repeats an
    earlier one is still there. *)
Theorem mergeAlias_keeps_every_entry (a b al : value) :
  mergeAlias a b = Ret al ->
  exists out, al = VArr out /\
              List.length out = aliasEntries a + aliasEntries b.
Proof.
  unfold mergeAlias. cbv zeta.
  set (a' := match a with VUndefined => VArr [] | _ => a end).
  set (b' := match b with VUndefined => VArr [] | _ => b end).
  assert (Ha : aliasEntries a' = aliasEntries a /\ a' <> VUndefined)
    by (subst a'; destruct a; split; try reflexivity; discriminate).
  assert (Hb : aliasEntries b' = aliasEntries b /\ b' <> VUndefined)
    by (subst b'; destruct b; split; try reflexivity; discriminate).
  destruct Ha as [Ha Ha'], Hb as [Hb Hb'].
  destruct (normalizeAlias a') as [xs| |] eqn:Ex; cbn [bind];
    try discriminate.
  destruct (normalizeAlias b') as [ys| |] eqn:Ey; cbn [bind];
    try discriminate.
  intros H. inversion H. exists (xs ++ ys). split; [reflexivity|].
  rewrite length_app, (normalizeAlias_length _ _ Ha' Ex),
    (normalizeAlias_length _ _ Hb' Ey). congruence.
Qed.

Lemma mergeAlias_keeps_every_entry_witness :
  exists out,
    VArr [VObj [("find", VStr "/src"); ("replacement", VStr "/root")];
          VObj [("find", VStr "/src"); ("replacement", VStr "/other")]]
    = VArr out /\
    List.length out
    = aliasEntries (VArr [Examples.srcAlias])
      + aliasEntries (VObj [("/src/", VStr "/other/")]).
Proof.
  apply (mergeAlias_keeps_every_entry (VArr [Examples.srcAlias])
           (VObj [("/src/", VStr "/other/")])).
  reflexivity.
Defined.

(** X5. The alias list of the resolved config starts with the internal
    alias, unchanged, ahead of every alias of the user; the user's aliases
    are those of [resolve.alias] when that is set, of the deprecated
    [alias] otherwise, normalized. *)
Theorem resolvedAlias_client_first (config : obj) (al : value) :
  resolvedAlias config = Ret al ->
  exists rest,
    al = VArr (clientAlias :: rest) /\
    normalizeAlias (userAliasOption config) = Ret rest.
Proof.
  unfold resolvedAlias. intros H.
  assert (Hn : nullish (userAliasOption config) = false).
  { unfold userAliasOption. cbv zeta.
    destruct (truthy _) eqn:E1; [now destruct (match get "resolve" config with
                                               | VUndefined | VNull => VUndefined
                                               | r => prop r "alias" end)|].
    destruct (truthy (get "alias" config)) eqn:E2; [|reflexivity].
    now destruct (get "alias" config). }
  apply mergeAlias_inv in H as (xs & ys & Hx & Hy & ->);
    [|reflexivity|assumption].
  cbn in Hx. inversion Hx; subst xs. exists ys. split; [reflexivity|exact Hy].
Qed.

Lemma resolvedAlias_client_first_witness :
  exists rest,
    VArr [clientAlias; VObj [("find", VStr "@"); ("replacement", VStr "/src")]]
    = VArr (clientAlias :: rest) /\
    normalizeAlias
      (userAliasOption
         [("alias", VObj [("old", VStr "/old")]);
          ("resolve", VObj [("alias", VObj [("@/", VStr "/src/")])])])
    = Ret rest.
Proof.
  apply (resolvedAlias_client_first
           [("alias", VObj [("old", VStr "/old")]);
            ("resolve", VObj [("alias", VObj [("@/", VStr "/src/")])])]).
  reflexivity.
Defined.

End MergeMore.

(** ** More on plugin ordering and the hook pipeline *)

Section PluginsMore.
Import JS Config.

Lemma enforces_nonnull tag p :
  nullish p = false -> exists b, enforces tag p = Ret b.
Proof.
  intros H. unfold enforces, omap, member.
  destruct p; try discriminate; cbn [bind]; eexists; reflexivity.
Qed.

Lemma enforces_null tag p :
  nullish p = true -> exists msg, enforces tag p = Throw msg.
Proof.
  intros H. unfold enforces, omap, member.
  destruct p; try discriminate; cbn [bind]; eexists; reflexivity.
Qed.

Lemma pushPlugin_returns acc p :
  nullish p = false -> exists acc', pushPlugin acc p = Ret acc'.
Proof.
  intros H. destruct acc as [[pre normal] post]. unfold pushPlugin.
  destruct (enforces_nonnull "pre" p H) as [b1 E1].
  destruct (enforces_nonnull "post" p H) as [b2 E2].
  rewrite E1. cbn [bind]. destruct b1; [eexists; reflexivity|].
  rewrite E2. cbn [bind]. destruct b2; eexists; reflexivity.
Qed.

Lemma pushPlugin_null acc p :
  nullish p = true -> exists msg, pushPlugin acc p = Throw msg.
Proof.
  intros H. destruct acc as [[pre normal] post]. unfold pushPlugin.
  destruct (enforces_null "pre" p H) as [msg E]. rewrite E. cbn [bind].
  eexists; reflexivity.
Qed.

Lemma pushPlugins_returns (l : list value) :
  Forall (fun p => nullish p = false) l ->
  forall acc, exists r, pushPlugins acc l = Ret r.
Proof.
  induction 1 as [|p l Hp Hl IH]; intros acc; cbn [pushPlugins].
  - eexists; reflexivity.
  - destruct (pushPlugin_returns acc p Hp) as [acc' E]. rewrite E.
    cbn [bind]. apply IH.
Qed.

Lemma pushPlugins_nonnull (l : list value) :
  forall acc r, pushPlugins acc l = Ret r ->
  Forall (fun p => nullish p = false) l.
Proof.
  induction l as [|p l IH]; intros acc r H; [constructor|].
  cbn [pushPlugins] in H. destruct (nullish p) eqn:Hp.
  - destruct (pushPlugin_null acc p Hp) as [msg E]. rewrite E in H.
    discriminate.
  - constructor; [assumption|].
    destruct (pushPlugin acc p); cbn [bind] in H; try discriminate.
    eapply IH; eassumption.
Qed.

(** X8. [sortUserPlugins] returns exactly when no registered plugin (nested
    lists flattened once) is null or undefined; such an entry makes it
    throw at the read of [enforce]. *)
Theorem sortUserPlugins_returns_iff (plugins : list value) :
  (exists r, sortUserPlugins (Some plugins) = Ret r)
  <-> Forall (fun p => nullish p = false) (flat plugins).
Proof.
  unfold sortUserPlugins. split.
  - intros [r H]. eapply pushPlugins_nonnull; eassumption.
  - intros H. now apply pushPlugins_returns.
Qed.

Lemma filter_tags_permutation (l : list value) :
  Permutation
    (List.filter (hasTag "pre") l ++ List.filter (hasTag "normal") l
     ++ List.filter (hasTag "post") l) l.
Proof.
  induction l as [|p l IH]; [constructor|].
  cbn [List.filter]. rewrite hasTag_normal.
  destruct (hasTag "pre" p) eqn:E1.
  - rewrite (hasTag_pre_post p E1). cbn [negb andb app].
    now constructor.
  - destruct (hasTag "post" p) eqn:E2; cbn [negb andb].
    + rewrite app_assoc. apply Permutation_sym.
      apply Permutation_cons_app. rewrite <- app_assoc.
      now apply Permutation_sym.
    + apply Permutation_sym. apply Permutation_cons_app.
      now apply Permutation_sym.
Qed.

(** X6. Sorting loses no plugin and repeats none: the three lists of
    [sortUserPlugins], put together, are a rearrangement of the registered
    plugins (nested lists flattened once). *)
Theorem sortUserPlugins_permutation (plugins pre normal post : list value) :
  sortUserPlugins (Some plugins) = Ret (pre, normal, post) ->
  Permutation (pre ++ normal ++ post) (flat plugins).
Proof.
  unfold sortUserPlugins. intros H. apply pushPlugins_spec in H.
  cbn [app] in H. inversion H; subst. apply filter_tags_permutation.
Qed.

Lemma sortUserPlugins_permutation_witness :
  Permutation
    ([Examples.pluginB; Examples.pluginD] ++ [Examples.pluginA; Examples.pluginE]
     ++ [Examples.pluginC])
    (flat [Examples.pluginA; VArr [Examples.pluginB; Examples.pluginE];
           Examples.pluginC; Examples.pluginD]).
Proof.
  apply (sortUserPlugins_permutation
           [Examples.pluginA; VArr [Examples.pluginB; Examples.pluginE];
            Examples.pluginC; Examples.pluginD]).
  reflexivity.
Defined.

Lemma filter_filter_same {A} (f : A -> bool) (l : list A) :
  List.filter f (List.filter f l) = List.filter f l.
Proof.
  induction l as [|x l IH]; [reflexivity|]. cbn.
  destruct (f x) eqn:E; cbn; [rewrite E, IH; reflexivity|exact IH].
Qed.

Lemma filter_filter_none {A} (f g : A -> bool) (l : list A) :
  (forall x, g x = true -> f x = false) ->
  List.filter f (List.filter g l) = [].
Proof.
  intros Hfg. induction l as [|x l IH]; [reflexivity|]. cbn.
  destruct (g x) eqn:E; cbn; [rewrite (Hfg x E)|]; exact IH.
Qed.

Lemma hasTag_exclusive (s t : string) p :
  s <> t -> hasTag s p = true -> hasTag t p = false.
Proof.
  unfold hasTag. intros Hne Hs. apply String.eqb_eq in Hs.
  destruct (String.eqb (enforceTag p) t) eqn:E; [|reflexivity].
  apply String.eqb_eq in E. congruence.
Qed.

Lemma filter_tag_sorted (t : string) (l : list value) :
  List.filter (hasTag t)
    (List.filter (hasTag "pre") l ++ List.filter (hasTag "normal") l
     ++ List.filter (hasTag "post") l)
  = (if String.eqb t "pre" then List.filter (hasTag "pre") l else [])
    ++ (if String.eqb t "normal" then List.filter (hasTag "normal") l else [])
    ++ (if String.eqb t "post" then List.filter (hasTag "post") l else []).
Proof.
  rewrite !List.filter_app.
  assert (H : forall s, List.filter (hasTag t) (List.filter (hasTag s) l)
                        = if String.eqb t s then List.filter (hasTag s) l
                          else []).
  { intros s. destruct (String.eqb t s) eqn:E.
    - apply String.eqb_eq in E. subst. apply filter_filter_same.
    - apply filter_filter_none. intros x Hx.
      apply (hasTag_exclusive s t); [|assumption].
      intros ->. now rewrite String.eqb_refl in E. }
  now rewrite !H.
Qed.

(** X7. The order is fixed by the first sort: sorting the sorted list again
    gives the same three lists (plugins nested at most once, as the
    declared type has them). *)
Theorem sortUserPlugins_again (plugins pre normal post : list value) :
  Forall (fun p => isArray p = false) (flat plugins) ->
  sortUserPlugins (Some plugins) = Ret (pre, normal, post) ->
  sortUserPlugins (Some (pre ++ normal ++ post)) = Ret (pre, normal, post).
Proof.
  unfold sortUserPlugins. intros Harr H.
  pose proof (pushPlugins_nonnull _ _ _ H) as Hnn.
  apply pushPlugins_spec in H. cbn [app] in H. inversion H; subst. clear H.
  set (L := flat plugins) in *.
  set (S := List.filter (hasTag "pre") L ++ List.filter (hasTag "normal") L
            ++ List.filter (hasTag "post") L).
  assert (HS : forall (P : value -> Prop), Forall P L -> Forall P S).
  { intros P HP. unfold S. rewrite !Forall_app.
    repeat split; now apply Forall_filter_keep. }
  rewrite (flat_no_arrays S (HS _ Harr)).
  destruct (pushPlugins_returns S (HS _ Hnn) ([], [], [])) as [r Hr].
  rewrite Hr. apply pushPlugins_spec in Hr. cbn [app] in Hr. subst r.
  unfold S. rewrite !filter_tag_sorted. cbn. now rewrite !app_nil_r.
Qed.

Lemma sortUserPlugins_again_witness :
  sortUserPlugins
    (Some ([Examples.pluginB; Examples.pluginD] ++ [Examples.pluginA]
           ++ [Examples.pluginC]))
  = Ret ([Examples.pluginB; Examples.pluginD], [Examples.pluginA],
         [Examples.pluginC]).
Proof.
  apply (sortUserPlugins_again
           [Examples.pluginA; Examples.pluginB; Examples.pluginC;
            Examples.pluginD]).
  - repeat constructor.
  - reflexivity.
Defined.

(** *** Hooks when something fails *)

Lemma invokeHook_log_any h p name f args w r w' :
  invokeHook h p name f args w = (r, w') ->
  files w' = files w /\
  match r with
  | Throw _ => log w' = log w \/ log w' = log w ++ [EHook p name]
  | _ => log w' = log w ++ [EHook p name]
  end.
Proof.
  unfold invokeHook. destruct f;
    try (unfold throw; intros H; inversion H; subst; split;
         [reflexivity|now left]).
  unfold bindM, emit, lift. destruct (callFunction h p (VFun id) args);
    intros H; inversion H; subst; cbn [log files]; auto.
Qed.

(** One round of the first loop, however it ends: the call it records is
    the expected one or, when the round throws before the call, none. *)
Lemma configHook_log_any h configEnv config p w r w' :
  configHook h configEnv config p w = (r, w') ->
  exists calls rest,
    log w' = log w ++ calls /\
    (if hasHook "config" p then [EHook p "config"] else []) = calls ++ rest /\
    match r with Ret _ => rest = [] | _ => True end.
Proof.
  unfold configHook, bindM at 1, lift at 1.
  destruct (member p "config") as [hook| |] eqn:E.
  2,3: intros H; inversion H; subst; exists []; eexists;
       rewrite app_nil_r; repeat split; reflexivity.
  apply member_value in E.
  assert (Hh : hasHook "config" p = truthy hook) by now subst hook.
  rewrite Hh. destruct (truthy hook).
  - unfold bindM.
    destruct (invokeHook h p "config" hook [VObj config; configEnv] w)
      as [[res|e|] w1] eqn:Ei;
      apply invokeHook_log_any in Ei as [_ L].
    + assert (L' : log w' = log w1 -> log w' = log w ++ [EHook p "config"])
        by congruence.
      destruct (truthy res); unfold lift, ret;
        try destruct (Merge.mergeConfig config (ownProps res) true);
        intros H; inversion H; subst;
        exists [EHook p "config"], []; repeat split; auto.
    + intros H; inversion H; subst. destruct L as [L|L].
      * exists [], [EHook p "config"]. rewrite app_nil_r. auto.
      * exists [EHook p "config"], []. auto.
    + intros H; inversion H; subst. exists [EHook p "config"], []. auto.
  - intros H. inversion H; subst. exists [], []. rewrite app_nil_r. auto.
Qed.

Lemma configHooks_log_any h configEnv (l : list value) :
  forall config w r w',
    foldM (configHook h configEnv) config l w = (r, w') ->
    exists calls rest,
      log w' = log w ++ calls /\
      hookCalls "config" l = calls ++ rest /\
      match r with Ret _ => rest = [] | _ => True end.
Proof.
  induction l as [|p l IH]; intros config w r w' H; cbn [foldM] in H.
  - inversion H; subst. exists [], []. rewrite app_nil_r. auto.
  - rewrite hookCalls_cons. unfold bindM in H.
    destruct (configHook h configEnv config p w) as [[c1|e|] w1] eqn:E;
      apply configHook_log_any in E as (c & rs & L & Hc & Hr).
    + subst rs. rewrite app_nil_r in Hc.
      apply IH in H as (c' & rs' & L' & Hc' & Hr').
      exists (c ++ c'), rs'. rewrite L', L, Hc, Hc', !app_assoc. auto.
    + inversion H; subst. exists c, (rs ++ hookCalls "config" l).
      rewrite Hc, app_assoc. auto.
    + inversion H; subst. exists c, (rs ++ hookCalls "config" l).
      rewrite Hc, app_assoc. auto.
Qed.

Lemma configResolvedHook_log_any h resolved p w r w' :
  configResolvedHook h resolved p w = (r, w') ->
  exists calls rest,
    log w' = log w ++ calls /\
    (if hasHook "configResolved" p then [EHook p "configResolved"] else [])
    = calls ++ rest /\
    match r with Ret _ => rest = [] | _ => True end.
Proof.
  unfold configResolvedHook, bindM at 1, lift at 1.
  destruct (member p "configResolved") as [hook| |] eqn:E.
  2,3: intros H; inversion H; subst; exists []; eexists;
       rewrite app_nil_r; repeat split; reflexivity.
  apply member_value in E.
  assert (Hh : hasHook "configResolved" p = truthy hook) by now subst hook.
  rewrite Hh. destruct (truthy hook).
  - unfold bindM.
    destruct (invokeHook h p "configResolved" hook [resolved] w)
      as [[res|e|] w1] eqn:Ei;
      apply invokeHook_log_any in Ei as [_ L];
      intros H; inversion H; subst.
    + exists [EHook p "configResolved"], []. auto.
    + destruct L as [L|L].
      * exists [], [EHook p "configResolved"]. rewrite app_nil_r. auto.
      * exists [EHook p "configResolved"], []. auto.
    + exists [EHook p "configResolved"], []. auto.
  - intros H. inversion H; subst. exists [], []. rewrite app_nil_r. auto.
Qed.

Lemma configResolvedHooks_log_any h resolved (l : list value) :
  forall w r w',
    forEach (configResolvedHook h resolved) l w = (r, w') ->
    exists calls rest,
      log w' = log w ++ calls /\
      hookCalls "configResolved" l = calls ++ rest /\
      match r with Ret _ => rest = [] | _ => True end.
Proof.
  induction l as [|p l IH]; intros w r w' H; cbn [forEach] in H.
  - inversion H; subst. exists [], []. rewrite app_nil_r. auto.
  - rewrite hookCalls_cons. unfold bindM in H.
    destruct (configResolvedHook h resolved p w) as [[[]|e|] w1] eqn:E;
      apply configResolvedHook_log_any in E as (c & rs & L & Hc & Hr).
    + subst rs. rewrite app_nil_r in Hc.
      apply IH in H as (c' & rs' & L' & Hc' & Hr').
      exists (c ++ c'), rs'. rewrite L', L, Hc, Hc', !app_assoc. auto.
    + inversion H; subst. exists c, (rs ++ hookCalls "configResolved" l).
      rewrite Hc, app_assoc. auto.
    + inversion H; subst. exists c, (rs ++ hookCalls "configResolved" l).
      rewrite Hc, app_assoc. auto.
Qed.

(** X9. However the pipeline ends (also when a hook, a merge or the
    resolution in between throws), the hook calls it has made are an initial
    part of the calls of a complete run, in the same order: no hook is
    called out of turn or twice, none is called after the failure, and no
    [configResolved] hook is called unless every [config] hook returned. *)
Theorem hooks_called_are_a_prefix h configEnv config command w r w' :
  Forall (fun p => isArray p = false) (registeredPlugins config) ->
  resolvePlugins h configEnv config command w = (r, w') ->
  exists calls rest,
    log w' = log w ++ calls /\
    hookCalls "config" (spec_order command (registeredPlugins config))
    ++ hookCalls "configResolved"
                 (spec_order command (registeredPlugins config))
    = calls ++ rest /\
    match r with Ret _ => rest = [] | _ => True end.
Proof.
  intros Hty H. unfold resolvePlugins in H.
  unfold bindM at 1, lift at 1 in H.
  assert (Hnone : forall (r0 : outcome (list value * value)) w0,
            (r0, w0) = (r, w') -> (forall x, r0 <> Ret x) ->
            exists calls rest,
              log w' = log w0 ++ calls /\
              hookCalls "config" (spec_order command (registeredPlugins config))
              ++ hookCalls "configResolved"
                   (spec_order command (registeredPlugins config))
              = calls ++ rest /\
              match r with Ret _ => rest = [] | _ => True end).
  { intros r0 w0 E Hr. inversion E; subst. exists []; eexists.
    rewrite app_nil_r. repeat split.
    destruct r; auto. exfalso. eapply Hr. reflexivity. }
  destruct (rawUserPlugins config command) as [raw| |] eqn:Eraw;
    try (apply (Hnone _ _ H); discriminate).
  apply rawUserPlugins_spec in Eraw.
  unfold bindM at 1, lift at 1 in H. unfold sortUserPlugins in H.
  rewrite flat_no_arrays in H
    by (subst raw; now apply Forall_filter_keep).
  destruct (pushPlugins ([], [], []) raw) as [sorted| |] eqn:Es;
    try (apply (Hnone _ _ H); discriminate).
  apply pushPlugins_spec in Es. subst sorted. cbn [app] in H.
  set (ups := List.filter (hasTag "pre") raw
              ++ List.filter (hasTag "normal") raw
              ++ List.filter (hasTag "post") raw) in *.
  assert (Hups : spec_order command (registeredPlugins config) = ups).
  { unfold spec_order. now rewrite <- Eraw. }
  rewrite Hups. clear Hnone.
  unfold bindM at 1 in H.
  destruct (foldM (configHook h configEnv) config ups w)
    as [[config'|e|] w1] eqn:E1;
    apply configHooks_log_any in E1 as (c1 & rs1 & L1 & Hc1 & Hr1).
  2,3: inversion H; subst; exists c1, (rs1 ++ hookCalls "configResolved" ups);
       rewrite Hc1, app_assoc; auto.
  subst rs1. rewrite app_nil_r in Hc1. subst c1.
  unfold bindM at 1, lift at 1 in H.
  destruct (finishResolve h config' ups) as [res| |].
  2,3: inversion H; subst;
       exists (hookCalls "config" ups), (hookCalls "configResolved" ups);
       auto.
  unfold bindM in H.
  destruct (forEach (configResolvedHook h res) ups w1)
    as [[[]|e|] w2] eqn:E2;
    apply configResolvedHooks_log_any in E2 as (c2 & rs2 & L2 & Hc2 & Hr2);
    unfold ret in H; inversion H; subst w'; subst r;
    exists (hookCalls "config" ups ++ c2), rs2;
    rewrite L2, L1, Hc2, !app_assoc; auto.
Qed.

Lemma hooks_called_are_a_prefix_witness :
  exists calls rest,
    log (snd (resolvePlugins Examples2.failingHooks Examples.buildEnv
                Examples2.fourPlugins "build" Examples2.emptyWorld))
    = log Examples2.emptyWorld ++ calls /\
    hookCalls "config"
      (spec_order "build" (registeredPlugins Examples2.fourPlugins))
    ++ hookCalls "configResolved"
         (spec_order "build" (registeredPlugins Examples2.fourPlugins))
    = calls ++ rest /\
    True.
Proof.
  apply (hooks_called_are_a_prefix Examples2.failingHooks Examples.buildEnv
           Examples2.fourPlugins "build" Examples2.emptyWorld
           (Throw "A failed")).
  - repeat constructor.
  - vm_compute. reflexivity.
Defined.

End PluginsMore.

(** ** More on the config loader *)

Section LoaderMore.
Import JS Config Effects.

Lemma bindM_ret_inv {A B} (m : M A) (k : A -> M B) w b w' :
  bindM m k w = (Ret b, w') ->
  exists a w1, m w = (Ret a, w1) /\ k a w1 = (Ret b, w').
Proof.
  unfold bindM. destruct (m w) as [[a|e|] w1]; try discriminate.
  intros H. exists a, w1. auto.
Qed.

(** What [loadConfigFromFile] is around the body of its [try]. *)
Lemma loadConfigFromFile_inv h configEnv configFile configRoot w r w' :
  loadConfigFromFile h configEnv configFile configRoot w = (r, w') ->
  match discovered h configFile configRoot w with
  | (None, _, _) => r = Ret None /\ w' = w
  | (Some path, isTS, isMjs) =>
      exists r0 w0,
        loadBody h configEnv path isTS isMjs w = (r0, w0) /\
        files w' = files w0 /\
        match r0 with
        | Ret x => r = Ret (Some x) /\ log w' = log w0 ++ [EStopService]
        | Throw e =>
            r = Throw e /\
            log w' = log w0
                     ++ [ELogError ("failed to load config from " ++ path)%string;
                         EStopService]
        | Unknown => r = Unknown /\ log w' = log w0
        end
  end.
Proof.
  unfold loadConfigFromFile, discovered.
  destruct (discover h _ _ _ w) as [[[path|] isTS] isMjs].
  - unfold tryFinally, tryCatch, bindM at 1.
    destruct (loadBody h configEnv path isTS isMjs w) as [[x|e|] w0] eqn:E;
      cbn; intros H; inversion H; eexists; eexists;
      (split; [reflexivity|]); cbn [files log]; auto.
    now rewrite <- app_assoc.
  - intros H. now inversion H.
Qed.

Lemma onlyConfigFn_refl w : onlyConfigFn w w.
Proof. exists []. split; [now rewrite app_nil_r|constructor]. Qed.

Lemma onlyConfigFn_trans w1 w2 w3 :
  onlyConfigFn w1 w2 -> onlyConfigFn w2 w3 -> onlyConfigFn w1 w3.
Proof.
  intros (l1 & E1 & F1) (l2 & E2 & F2). exists (l1 ++ l2). split.
  - now rewrite E2, E1, app_assoc.
  - apply Forall_app. auto.
Qed.

Lemma onlyConfigFn_emit : preserves onlyConfigFn (emit EConfigFn).
Proof.
  intros w r w' H. inversion H; subst. exists [EConfigFn].
  split; [reflexivity|]. repeat constructor.
Qed.

Lemma onlyConfigFn_log {A} (m : M A) :
  (forall w r w', m w = (r, w') -> log w' = log w) ->
  preserves onlyConfigFn m.
Proof.
  intros Hm w r w' H. exists []. rewrite app_nil_r.
  split; [eapply Hm; eassumption|constructor].
Qed.

Lemma filesSame_refl w : filesSame w w.
Proof. reflexivity. Qed.

Lemma filesSame_trans w1 w2 w3 :
  filesSame w1 w2 -> filesSame w2 w3 -> filesSame w1 w3.
Proof. unfold filesSame. congruence. Qed.

Lemma filesSame_emit e : preserves filesSame (emit e).
Proof. intros w r w' H. now inversion H. Qed.

Lemma sameAt_refl p w : sameAt p w w.
Proof. reflexivity. Qed.

Lemma sameAt_trans p w1 w2 w3 :
  sameAt p w1 w2 -> sameAt p w2 w3 -> sameAt p w1 w3.
Proof. unfold sameAt. congruence. Qed.

Lemma sameAt_emit p e : preserves (sameAt p) (emit e).
Proof. intros w r w' H. now inversion H. Qed.

Lemma sameAt_writeFileSync p path code :
  path <> p -> preserves (sameAt p) (writeFileSync path code).
Proof.
  intros Hne w r w' H. inversion H; subst. unfold sameAt. cbn [files].
  now apply lookup_insert_ne.
Qed.

Lemma sameAt_unlinkSync p path :
  path <> p -> preserves (sameAt p) (unlinkSync path).
Proof.
  intros Hne w r w' H. unfold unlinkSync in H.
  destruct (files w !! path); inversion H; subst; unfold sameAt;
    cbn [files]; [now apply lookup_delete_ne|reflexivity].
Qed.

Ltac step_through R Rrefl Rtrans :=
  first
    [ apply (@preserves_bind R Rtrans); [|intros ?]
    | apply (@preserves_ret R Rrefl)
    | apply (@preserves_throw R Rrefl)
    | apply (@preserves_lift R Rrefl)
    | apply (@preserves_tryCatch R Rtrans); [|intros ?]
    | apply (@preserves_tryFinally R Rtrans)
    | apply preserves_readModule; exact Rrefl
    | match goal with
      | |- preserves _ (if ?c then _ else _) => destruct c
      | |- preserves _ (match ?x with _ => _ end) => destruct x
      end ].

Ltac preserve_log :=
  repeat first
    [ step_through onlyConfigFn onlyConfigFn_refl onlyConfigFn_trans
    | apply onlyConfigFn_emit
    | apply onlyConfigFn_log; intros ? ? ?;
      first [apply writeFileSync_log|apply unlinkSync_log] ].

Ltac preserve_files :=
  repeat first
    [ step_through filesSame filesSame_refl filesSame_trans
    | apply filesSame_emit ].

Ltac preserve_at p :=
  repeat first
    [ step_through (sameAt p) (sameAt_refl p) (sameAt_trans p)
    | apply sameAt_emit
    | apply sameAt_writeFileSync; assumption
    | apply sameAt_unlinkSync; assumption ].

Lemma loadBody_log h configEnv path isTS isMjs :
  preserves onlyConfigFn (loadBody h configEnv path isTS isMjs).
Proof. unfold loadBody. preserve_log. Qed.

Lemma loadBody_sameAt p h configEnv path isTS isMjs :
  (path ++ ".js")%string <> p ->
  preserves (sameAt p) (loadBody h configEnv path isTS isMjs).
Proof. intros Hne. unfold loadBody. preserve_at p. Qed.

Lemma loadBody_filesSame h configEnv path isTS isMjs :
  isTS && isMjs = false ->
  preserves filesSame (loadBody h configEnv path isTS isMjs).
Proof.
  intros Hb. unfold loadBody.
  destruct isTS, isMjs; try discriminate; preserve_files.
Qed.

Lemma loadBody_ret h configEnv path isTS isMjs w p c w' :
  loadBody h configEnv path isTS isMjs w = (Ret (p, c), w') ->
  p = normalizePath h path /\ isObject c = true.
Proof.
  unfold loadBody. intros H.
  apply bindM_ret_inv in H as (u1 & w1 & _ & H).
  apply bindM_ret_inv in H as (u2 & w2 & _ & H).
  apply bindM_ret_inv in H as (u3 & w3 & _ & H).
  apply bindM_ret_inv in H as (config & w4 & _ & H).
  destruct (isObject config) eqn:E; cbn [negb] in H; inversion H; subst.
  auto.
Qed.

(** X10. When no config file is named and none of vite.config.js,
    vite.config.mjs, vite.config.ts exists under the root, the loader
    returns null and leaves the world as it was: nothing is written or
    logged, and the compilation service is not stopped. *)
Theorem loadConfigFromFile_discovery_miss h configEnv configRoot w :
  let root := match configRoot with Some r => r | None => cwd h end in
  existsSync (pathResolve h [root; "vite.config.js"]) w = false ->
  existsSync (pathResolve h [root; "vite.config.mjs"]) w = false ->
  existsSync (pathResolve h [root; "vite.config.ts"]) w = false ->
  loadConfigFromFile h configEnv None configRoot w = (Ret None, w).
Proof.
  intros root Hjs Hmjs Hts. unfold loadConfigFromFile, discover.
  fold root. now rewrite Hjs, Hmjs, Hts.
Qed.

Lemma loadConfigFromFile_discovery_miss_witness :
  loadConfigFromFile Examples2.cjsHost Examples.buildEnv None (Some "/empty")
    Examples2.emptyWorld
  = (Ret None, Examples2.emptyWorld).
Proof.
  apply (loadConfigFromFile_discovery_miss Examples2.cjsHost Examples.buildEnv
           (Some "/empty") Examples2.emptyWorld); reflexivity.
Defined.

Lemma loadConfigFromFile_ret h configEnv configFile configRoot w p c w' :
  loadConfigFromFile h configEnv configFile configRoot w
    = (Ret (Some (p, c)), w') ->
  exists path isTS isMjs,
    discovered h configFile configRoot w = (Some path, isTS, isMjs) /\
    p = normalizePath h path /\ isObject c = true.
Proof.
  intros H. apply loadConfigFromFile_inv in H.
  destruct (discovered h configFile configRoot w) as [[[path|] isTS] isMjs].
  - destruct H as ([x|e|] & w0 & Hb & _ & Hr); cbn in Hr;
      destruct Hr as [Hr _]; try discriminate.
    inversion Hr; subst x. exists path, isTS, isMjs.
    split; [reflexivity|]. eapply loadBody_ret; eassumption.
  - destruct H as [H _]. discriminate.
Qed.

(** X11. Which file is loaded: a config file that is named is the one
    loaded, whatever lies under the root; when none is named,
    vite.config.js wins over the other two whenever it exists, and
    vite.config.mjs wins over vite.config.ts. The path returned is the
    normalized path of that file. *)
Theorem loadConfigFromFile_precedence h configEnv configFile configRoot w
  p c w' :
  let root := match configRoot with Some r => r | None => cwd h end in
  loadConfigFromFile h configEnv configFile configRoot w
    = (Ret (Some (p, c)), w') ->
  (forall f, configFile = Some f -> truthy (VStr f) = true ->
     p = normalizePath h (pathResolve h [f])) /\
  (configFile = None ->
   existsSync (pathResolve h [root; "vite.config.js"]) w = true ->
     p = normalizePath h (pathResolve h [root; "vite.config.js"])) /\
  (configFile = None ->
   existsSync (pathResolve h [root; "vite.config.js"]) w = false ->
   existsSync (pathResolve h [root; "vite.config.mjs"]) w = true ->
     p = normalizePath h (pathResolve h [root; "vite.config.mjs"])).
Proof.
  intros root H.
  apply loadConfigFromFile_ret in H as (path & isTS & isMjs & Hd & -> & _).
  unfold discovered, discover in Hd. fold root in Hd.
  split; [|split].
  - intros f -> Ht. rewrite Ht in Hd. now inversion Hd.
  - intros -> Hjs. rewrite Hjs in Hd. now inversion Hd.
  - intros -> Hjs Hmjs. rewrite Hjs, Hmjs in Hd. now inversion Hd.
Qed.

Lemma loadConfigFromFile_precedence_witness :
  "/cjs/vite.config.js"
  = normalizePath Examples2.cjsHost
      (pathResolve Examples2.cjsHost ["/cjs"; "vite.config.js"]).
Proof.
  refine (proj1 (proj2 (loadConfigFromFile_precedence Examples2.cjsHost
                          Examples.buildEnv None (Some "/cjs")
                          Examples2.cjsWorld "/cjs/vite.config.js"
                          (VObj [("base", VStr "/app/")])
                          (snd (loadConfigFromFile Examples2.cjsHost
                                  Examples.buildEnv None (Some "/cjs")
                                  Examples2.cjsWorld))
                          _)) eq_refl _).
  - vm_compute. reflexivity.
  - vm_compute. reflexivity.
Defined.

(** X12. A config the loader returns is a plain object: an export (or the
    result of an exported function) of any other kind makes the load
    throw. *)
Theorem loadConfigFromFile_returns_object h configEnv configFile configRoot w
  p c w' :
  loadConfigFromFile h configEnv configFile configRoot w
    = (Ret (Some (p, c)), w') ->
  isObject c = true.
Proof.
  intros H. apply loadConfigFromFile_ret in H as (? & ? & ? & _ & _ & H).
  exact H.
Qed.

Lemma loadConfigFromFile_returns_object_witness :
  isObject Examples.siteConfig = true.
Proof.
  apply (loadConfigFromFile_returns_object Examples.goodSite Examples.buildEnv
           None (Some "/site") Examples.siteWorld "/site/vite.config.ts"
           Examples.siteConfig
           (snd (loadConfigFromFile Examples.goodSite Examples.buildEnv None
                   (Some "/site") Examples.siteWorld))).
  vm_compute. reflexivity.
Defined.

(** X13. Once a config file is resolved, the compilation service is
    stopped last thing, whether the load returns or throws; a load that
    throws reports the resolved path to the logger just before; apart from
    that the loader records nothing but calls of the exported function. A
    load that finds no file records nothing. *)
Theorem loadConfigFromFile_stops_service h configEnv configFile configRoot w
  r w' :
  loadConfigFromFile h configEnv configFile configRoot w = (r, w') ->
  match r with
  | Ret None => w' = w
  | Ret (Some _) =>
      exists l, log w' = log w ++ l ++ [EStopService]
                /\ Forall (fun e => e = EConfigFn) l
  | Throw _ =>
      exists path l,
        fst (fst (discovered h configFile configRoot w)) = Some path /\
        log w' = log w ++ l
                 ++ [ELogError ("failed to load config from " ++ path)%string;
                     EStopService] /\
        Forall (fun e => e = EConfigFn) l
  | Unknown => True
  end.
Proof.
  intros H. apply loadConfigFromFile_inv in H.
  destruct (discovered h configFile configRoot w) as [[[path|] isTS] isMjs].
  - destruct H as (r0 & w0 & Hb & _ & Hr).
    apply loadBody_log in Hb as (l & L & F).
    destruct r0 as [x|e|]; destruct Hr as [-> Hr]; [| |exact I].
    + exists l. rewrite Hr, L, <- app_assoc. auto.
    + exists path, l. rewrite Hr, L, <- app_assoc. auto.
  - destruct H as [-> ->]. reflexivity.
Qed.

Lemma loadConfigFromFile_stops_service_witness :
  exists path l,
    fst (fst (discovered Examples.brokenSite None (Some "/site")
                Examples.siteWorld)) = Some path /\
    log (snd (loadConfigFromFile Examples.brokenSite Examples.buildEnv None
                (Some "/site") Examples.siteWorld))
    = log Examples.siteWorld ++ l
      ++ [ELogError ("failed to load config from " ++ path)%string;
          EStopService] /\
    Forall (fun e => e = EConfigFn) l.
Proof.
  apply (loadConfigFromFile_stops_service Examples.brokenSite Examples.buildEnv
           None (Some "/site") Examples.siteWorld (Throw "boom")).
  vm_compute. reflexivity.
Defined.

(** X14. The loader touches the file system at one path only, the
    transient artifact next to the resolved config file: every other path
    holds after the call what it held before, however the call ends. When
    the file is not a discovered TypeScript config of an ES-module package
    (in particular whenever the config file is named by the caller), the
    file system is left exactly as it was. *)
Theorem loadConfigFromFile_file_system h configEnv configFile configRoot w
  r w' path isTS isMjs :
  loadConfigFromFile h configEnv configFile configRoot w = (r, w') ->
  discovered h configFile configRoot w = (Some path, isTS, isMjs) ->
  (forall p, p <> (path ++ ".js")%string -> files w' !! p = files w !! p) /\
  (isTS && isMjs = false -> files w' = files w) /\
  (forall f, configFile = Some f -> truthy (VStr f) = true ->
     files w' = files w).
Proof.
  intros H Hd. apply loadConfigFromFile_inv in H. rewrite Hd in H.
  destruct H as (r0 & w0 & Hb & Hf & _).
  assert (Hsame : isTS && isMjs = false -> files w' = files w).
  { intros Hb'. rewrite Hf.
    exact (loadBody_filesSame _ _ _ _ _ Hb' _ _ _ Hb). }
  split; [|split].
  - intros p Hp. rewrite Hf.
    apply (loadBody_sameAt p _ _ _ _ _ (not_eq_sym Hp) _ _ _ Hb).
  - exact Hsame.
  - intros f -> Ht. apply Hsame.
    unfold discovered, discover in Hd. rewrite Ht in Hd. now inversion Hd.
Qed.

Lemma loadConfigFromFile_file_system_witness :
  files (snd (loadConfigFromFile Examples.brokenSite Examples.buildEnv None
                (Some "/site") Examples.siteWorld))
    !! "/site/vite.config.ts"
  = files Examples.siteWorld !! "/site/vite.config.ts".
Proof.
  refine (proj1 (loadConfigFromFile_file_system Examples.brokenSite
                   Examples.buildEnv None (Some "/site") Examples.siteWorld
                   (Throw "boom")
                   (snd (loadConfigFromFile Examples.brokenSite
                           Examples.buildEnv None (Some "/site")
                           Examples.siteWorld))
                   "/site/vite.config.ts" true true _ _)
            "/site/vite.config.ts" _).
  - vm_compute. reflexivity.
  - vm_compute. reflexivity.
  - discriminate.
Defined.

(** X15. When the discovered TypeScript config of an ES-module package
    loads, no file is left at the artifact's path once the loader has
    returned: the artifact is deleted, and so is any file that had that
    name before the call. *)
Theorem loadConfigFromFile_success_removes_artifact h configEnv configFile
  configRoot w r w' path :
  discovered h configFile configRoot w = (Some path, true, true) ->
  loadConfigFromFile h configEnv configFile configRoot w = (Ret r, w') ->
  files w' !! (path ++ ".js")%string = None.
Proof.
  intros Hd H. apply loadConfigFromFile_inv in H. rewrite Hd in H.
  destruct H as ([x|e|] & w0 & Hb & Hf & Hr); cbn in Hr;
    destruct Hr as [Hr _]; try discriminate.
  rewrite Hf. eapply loadBody_success_removes_artifact. eassumption.
Qed.

Lemma loadConfigFromFile_success_removes_artifact_witness :
  files (snd (loadConfigFromFile Examples.goodSite Examples.buildEnv None
                (Some "/site")
                (mkWorld (<[ "/site/vite.config.ts.js" := "<a file of the user>" ]>
                            (files Examples.siteWorld)) [])))
    !! "/site/vite.config.ts.js" = None.
Proof.
  refine (loadConfigFromFile_success_removes_artifact Examples.goodSite
            Examples.buildEnv None (Some "/site")
            (mkWorld (<[ "/site/vite.config.ts.js" := "<a file of the user>" ]>
                        (files Examples.siteWorld)) [])
            (Some ("/site/vite.config.ts", Examples.siteConfig))
            _ "/site/vite.config.ts" _ _).
  - vm_compute. reflexivity.
  - vm_compute. reflexivity.
Defined.

End LoaderMore.

(** ** More on loadEnv *)

Section EnvMore.
Import JS Env.

Lemma dget_dreplace_same key v (d : dict) :
  dget key d <> None -> dget key (dreplace key v d) = Some v.
Proof.
  induction d as [|[k w] d IH]; cbn; [congruence|].
  destruct (String.eqb k key) eqn:E; cbn; rewrite E; auto.
Qed.

Lemma dget_dreplace_other key k v (d : dict) :
  k <> key -> dget k (dreplace key v d) = dget k d.
Proof.
  intros Hne. induction d as [|[k' w] d IH]; cbn; [reflexivity|].
  destruct (String.eqb k' key) eqn:E; cbn.
  - apply String.eqb_eq in E. subst k'.
    destruct (String.eqb key k) eqn:E'; [|reflexivity].
    apply String.eqb_eq in E'. congruence.
  - destruct (String.eqb k' k); auto.
Qed.

Lemma dget_app_new key k v (d : dict) :
  dget k (d ++ [(key, v)])
  = match dget k d with
    | Some x => Some x
    | None => if String.eqb key k then Some v else None
    end.
Proof.
  induction d as [|[k' w] d IH]; cbn; [reflexivity|].
  destruct (String.eqb k' k); auto.
Qed.

Lemma dget_dset_same key v (d : dict) : dget key (dset key v d) = Some v.
Proof.
  unfold dset. destruct (dget key d) eqn:E.
  - apply dget_dreplace_same. congruence.
  - now rewrite dget_app_new, E, String.eqb_refl.
Qed.

Lemma dget_dset_other key k v (d : dict) :
  k <> key -> dget k (dset key v d) = dget k d.
Proof.
  intros Hne. unfold dset. destruct (dget key d).
  - now apply dget_dreplace_other.
  - rewrite dget_app_new. destruct (dget k d); [reflexivity|].
    destruct (String.eqb key k) eqn:E; [|reflexivity].
    apply String.eqb_eq in E. congruence.
Qed.

Lemma isUndefinedIn_None env key :
  isUndefinedIn env key = true -> dget key env = None.
Proof. unfold isUndefinedIn. destruct (dget key env); [discriminate|auto]. Qed.

(** A value that is set is never set again. *)
Lemma guarded_dset_keeps prefix key v k x (env : dict) :
  dget key env = Some v ->
  dget key (if startsWith k prefix && isUndefinedIn env k
            then dset k x env else env) = Some v.
Proof.
  intros H. destruct (startsWith k prefix); cbn [andb]; [|assumption].
  destruct (isUndefinedIn env k) eqn:U; [|assumption].
  apply isUndefinedIn_None in U. rewrite dget_dset_other; [assumption|].
  intros ->. congruence.
Qed.

Lemma fromProcess_keeps prefix key v (entries : dict) :
  forall env, dget key env = Some v ->
              dget key (fromProcess prefix entries env) = Some v.
Proof.
  induction entries as [|[k x] rest IH]; intros env H; cbn; [assumption|].
  apply IH. now apply guarded_dset_keeps.
Qed.

Lemma fromProcess_takes prefix key v (entries : dict) :
  startsWith key prefix = true ->
  existsb (String.eqb key) inherited = false ->
  dget key entries = Some v ->
  forall env, dget key env = None ->
              dget key (fromProcess prefix entries env) = Some v.
Proof.
  intros Hp Hi. induction entries as [|[k x] rest IH]; intros Hv env He;
    cbn in Hv; [discriminate|]. cbn [fromProcess].
  destruct (String.eqb k key) eqn:E.
  - apply String.eqb_eq in E. subst k. inversion Hv; subst x.
    apply fromProcess_keeps. unfold isUndefinedIn. rewrite Hp, He, Hi.
    cbn. apply dget_dset_same.
  - apply IH; [assumption|].
    destruct (startsWith k prefix && isUndefinedIn env k); [|assumption].
    rewrite dget_dset_other; [assumption|].
    intros ->. now rewrite String.eqb_refl in E.
Qed.

Lemma fromFile_keeps prefix key v (entries : dict) :
  forall st, dget key (fst st) = Some v ->
             dget key (fst (fromFile prefix entries st)) = Some v.
Proof.
  induction entries as [|[k x] rest IH]; intros [env penv] H; cbn;
    [assumption|].
  apply IH. cbn [fst] in H.
  pose proof (guarded_dset_keeps prefix key v k x env H) as G.
  destruct (startsWith k prefix && isUndefinedIn env k); cbn [fst];
    [assumption|]. destruct (String.eqb k "NODE_ENV"); assumption.
Qed.

Lemma fromFiles_keeps (h : host) root prefix key v (envFiles : list string) :
  forall st r, dget key (fst st) = Some v ->
  fromFiles h root prefix envFiles st = Ret r ->
  dget key (fst r) = Some v.
Proof.
  induction envFiles as [|file rest IH]; intros st r Hst Hr;
    cbn [fromFiles] in Hr.
  - inversion Hr. now subst.
  - destruct (lookupFile h root file) as [path|]; [|now apply (IH st)].
    destruct (truthy (VStr path)); [|now apply (IH st)].
    destruct (parseFile h path) as [parsed| |]; cbn [bind] in Hr;
      try discriminate.
    apply (IH _ _ (fromFile_keeps prefix key v _ st Hst) Hr).
Qed.

(** X16. A variable of the process whose name starts with the prefix is
    in the result with the value the process gives it, whatever the .env
    files say about it (the name not being one of the members every object
    inherits). *)
Theorem loadEnv_process_value_wins (h : host) (penv : dict)
  (mode root prefix key v : string) (env penv' : dict) :
  loadEnv h penv mode root prefix = Ret (env, penv') ->
  dget key penv = Some v ->
  startsWith key prefix = true ->
  existsb (String.eqb key) inherited = false ->
  dget key env = Some v.
Proof.
  unfold loadEnv. destruct (String.eqb mode "local"); [discriminate|].
  intros Hr Hv Hp Hi.
  apply (fromFiles_keeps h root prefix key v _ _ (env, penv')) in Hr;
    [exact Hr|].
  cbn [fst]. now apply fromProcess_takes.
Qed.

(** /site again, with the process defining a variable that both files
    define too. *)
Lemma loadEnv_process_value_wins_witness :
  dget "VITE_TITLE"
    [("VITE_TITLE", "inline"); ("VITE_API", "/api")] = Some "inline".
Proof.
  apply (loadEnv_process_value_wins Examples.envHost
           [("VITE_TITLE", "inline")] "production" "/site" defaultPrefix
           "VITE_TITLE" "inline"
           [("VITE_TITLE", "inline"); ("VITE_API", "/api")]
           [("VITE_TITLE", "inline"); ("VITE_USER_NODE_ENV", "production")]);
    reflexivity.
Defined.

Lemma fromFile_penv prefix key (entries : dict) :
  key <> "VITE_USER_NODE_ENV" ->
  forall st, dget key (snd (fromFile prefix entries st)) = dget key (snd st).
Proof.
  intros Hne. induction entries as [|[k x] rest IH]; intros [env penv]; cbn;
    [reflexivity|].
  rewrite IH. destruct (startsWith k prefix && isUndefinedIn env k);
    [reflexivity|]. destruct (String.eqb k "NODE_ENV"); [|reflexivity].
  cbn [snd]. now apply dget_dset_other.
Qed.

Lemma fromFiles_penv (h : host) root prefix key (envFiles : list string) :
  key <> "VITE_USER_NODE_ENV" ->
  forall st r, fromFiles h root prefix envFiles st = Ret r ->
               dget key (snd r) = dget key (snd st).
Proof.
  intros Hne. induction envFiles as [|file rest IH]; intros st r Hr;
    cbn [fromFiles] in Hr.
  - inversion Hr. now subst.
  - destruct (lookupFile h root file) as [path|]; [|now apply IH].
    destruct (truthy (VStr path)); [|now apply IH].
    destruct (parseFile h path) as [parsed| |]; cbn [bind] in Hr;
      try discriminate.
    rewrite (IH _ _ Hr). now apply fromFile_penv.
Qed.

(** X17. [loadEnv] changes [process.env] at one name only,
    VITE_USER_NODE_ENV: every other variable of the process reads after the
    call as it read before. *)
Theorem loadEnv_leaves_process_env (h : host) (penv : dict)
  (mode root prefix key : string) (env penv' : dict) :
  loadEnv h penv mode root prefix = Ret (env, penv') ->
  key <> "VITE_USER_NODE_ENV" ->
  dget key penv' = dget key penv.
Proof.
  unfold loadEnv. destruct (String.eqb mode "local"); [discriminate|].
  intros Hr Hne. now apply (fromFiles_penv h root prefix key _ Hne) in Hr.
Qed.

Lemma loadEnv_leaves_process_env_witness :
  dget "NODE_ENV"
    [("NODE_ENV", "development"); ("VITE_USER_NODE_ENV", "production")]
  = dget "NODE_ENV" [("NODE_ENV", "development")].
Proof.
  apply (loadEnv_leaves_process_env Examples.envHost
           [("NODE_ENV", "development")] "production" "/site" defaultPrefix
           "NODE_ENV"
           [("VITE_TITLE", "prod site"); ("VITE_API", "/api")]);
    [reflexivity|discriminate].
Defined.

Lemma dget_None_keys key (d : dict) : dget key d = None <-> ~ In key (map fst d).
Proof.
  induction d as [|[k w] d IH]; cbn; [tauto|].
  destruct (String.eqb k key) eqn:E.
  - apply String.eqb_eq in E. split; [discriminate|]. intros H. exfalso. auto.
  - rewrite IH. split.
    + intros H [->|H']; [now rewrite String.eqb_refl in E|auto].
    + tauto.
Qed.

Lemma fromFiles_last (h : host) root prefix (envFiles : list string) file :
  forall st,
    fromFiles h root prefix (envFiles ++ [file]) st
    = bind (fromFiles h root prefix envFiles st)
           (fun st' => fromFiles h root prefix [file] st').
Proof.
  induction envFiles as [|f rest IH]; intros st; cbn [app fromFiles].
  - destruct (fromFiles h root prefix [file] st); reflexivity.
  - destruct (lookupFile h root f) as [path|]; [|apply IH].
    destruct (truthy (VStr path)); [|apply IH].
    destruct (parseFile h path); cbn [bind]; [apply IH|reflexivity..].
Qed.

Lemma fromFile_no_node_env prefix (entries : dict) :
  dget "NODE_ENV" entries = None ->
  forall st, snd (fromFile prefix entries st) = snd st.
Proof.
  induction entries as [|[k x] rest IH]; intros Hn [env penv]; cbn;
    [reflexivity|]. cbn in Hn.
  destruct (String.eqb k "NODE_ENV") eqn:E; [discriminate|].
  rewrite (IH Hn). now destruct (startsWith k prefix && isUndefinedIn env k).
Qed.

Lemma fromFile_node_env prefix v (entries : dict) :
  NoDup (map fst entries) ->
  dget "NODE_ENV" entries = Some v ->
  startsWith "NODE_ENV" prefix = false ->
  forall st,
    dget "VITE_USER_NODE_ENV" (snd (fromFile prefix entries st)) = Some v.
Proof.
  intros Hnd Hv Hp. induction entries as [|[k x] rest IH]; intros [env penv];
    cbn in Hv; [discriminate|].
  inversion Hnd as [|? ? Hnotin Hnd']; subst. cbn [fromFile].
  destruct (String.eqb k "NODE_ENV") eqn:E.
  - apply String.eqb_eq in E. subst k. inversion Hv; subst x.
    rewrite Hp. cbn [andb].
    rewrite fromFile_no_node_env by (now apply dget_None_keys).
    cbn [snd]. apply dget_dset_same.
  - now apply IH.
Qed.

(** X19. For NODE_ENV the order of the files is the reverse of the order
    for the exposed variables: when the default file .env defines NODE_ENV
    (and the prefix does not claim that name), VITE_USER_NODE_ENV is set
    from it, whatever the mode-specific and local files, which are read
    earlier, say. *)
Theorem loadEnv_node_env_of_default_file (h : host) (penv : dict)
  (mode root prefix path v : string) (parsed env penv' : dict) :
  loadEnv h penv mode root prefix = Ret (env, penv') ->
  lookupFile h root ".env" = Some path ->
  truthy (VStr path) = true ->
  parseFile h path = Ret parsed ->
  NoDup (map fst (dotenvExpand h parsed)) ->
  dget "NODE_ENV" (dotenvExpand h parsed) = Some v ->
  startsWith "NODE_ENV" prefix = false ->
  dget "VITE_USER_NODE_ENV" penv' = Some v.
Proof.
  unfold loadEnv. destruct (String.eqb mode "local"); [discriminate|].
  intros Hr Hl Ht Hparse Hnd Hv Hp.
  change [(".env." ++ mode ++ ".local")%string; (".env." ++ mode)%string;
          ".env.local"; ".env"]
    with ([(".env." ++ mode ++ ".local")%string; (".env." ++ mode)%string;
           ".env.local"] ++ [".env"]) in Hr.
  rewrite fromFiles_last in Hr.
  destruct (fromFiles h root prefix _ _) as [st3| |]; cbn [bind] in Hr;
    try discriminate.
  cbn [fromFiles] in Hr. rewrite Hl, Ht, Hparse in Hr. cbn [bind] in Hr.
  inversion Hr as [E].
  change penv' with (snd (env, penv')). rewrite <- E.
  now apply fromFile_node_env.
Qed.

(** The mode file says staging, the default file says production. *)
Lemma loadEnv_node_env_of_default_file_witness :
  dget "VITE_USER_NODE_ENV" [("VITE_USER_NODE_ENV", "production")]
  = Some "production".
Proof.
  apply (loadEnv_node_env_of_default_file Examples2.nodeEnvHost []
           "staging" "/site" defaultPrefix "/site/.env" "production"
           [("NODE_ENV", "production")] []
           [("VITE_USER_NODE_ENV", "production")]);
    try reflexivity.
  repeat constructor. intros [].
Defined.

End EnvMore.

(** ** More on the SSR resolver *)

Section ResolverMore.
Import JS SSR Walk.

Lemma onlyAdmitted_refl h K config st : onlyAdmitted h K config st st.
Proof. intros x Hx. now left. Qed.

Lemma onlyAdmitted_trans h K config st1 st2 st3 :
  onlyAdmitted h K config st1 st2 -> onlyAdmitted h K config st2 st3 ->
  onlyAdmitted h K config st1 st3.
Proof.
  intros H1 H2 x Hx. destruct (H2 x Hx) as [Hx2|Ha]; [|now right].
  now apply H1.
Qed.

Lemma onlyAdmitted_probed h K config p st :
  onlyAdmitted h K config st (probed p st).
Proof. intros x Hx. now left. Qed.

(** What is admitted from a directory the pass enters is admitted from
    the root. *)
Lemma admitted_from_visited h K c config x :
  ssr c = ssr config ->
  visited h K (root config) (root c) ->
  admitted h K c x -> admitted h K config x.
Proof.
  intros Hs V [Hl|(r & dd & pd & Vr & Hm)]; [left|right].
  - unfold listedExternal, configExternal in *. now rewrite <- Hs.
  - exists r, dd, pd. split; [|exact Hm].
    eapply visited_trans; eassumption.
Qed.

Lemma classify_onlyAdmitted recur h K config devDeps pkgDeps id st st' :
  (forall c s s', ssr c = ssr config ->
                  visited h K (root config) (root c) ->
                  recur c s = Ret s' -> onlyAdmitted h K config s s') ->
  manifestOf h (root config) devDeps pkgDeps ->
  In id (K ++ pkgDeps) ->
  classify recur h config id st = Ret st' ->
  onlyAdmitted h K config st st'.
Proof.
  intros Hrec Hman Hin H. unfold classify in H.
  set (st1 := probed (PResolve (root config) id) st) in *.
  destruct (tryNodeResolve h id (root config)) as [entry| |] eqn:E1;
    try discriminate.
  2:{ inversion H; subst. apply onlyAdmitted_probed. }
  set (st2 := probed (PRequireResolve (root config) id) st1) in *.
  destruct (requireResolve h id (root config)) as [requireEntry| |] eqn:E2;
    try discriminate.
  2:{ inversion H; subst. intros x Hx. now left. }
  assert (Hadd : forall s,
            ssrExternals s = ssrExternals st ->
            match entry with
            | None => True
            | Some e =>
                truthy (VStr e) = false \/
                (includes e "node_modules" = true /\
                 (e <> requireEntry \/
                  (isJsEntry e = true /\
                   exists content,
                     readFileSync h e = Ret content /\
                     hasCjsMarkers content = true)))
            end ->
            onlyAdmitted h K config st (add id s)).
  { intros s Hs Hc x Hx. apply In_add in Hx as [->|Hx].
    - right. right. exists (root config), devDeps, pkgDeps.
      split; [apply visited_root|]. split; [assumption|].
      right. split; [assumption|].
      exists entry, requireEntry. auto.
    - left. now rewrite <- Hs. }
  destruct entry as [entry|];
    [|inversion H; subst; now apply Hadd].
  destruct (truthy (VStr entry)) eqn:Et; cbn [negb] in H;
    [|inversion H; subst; apply Hadd; auto].
  destruct (includes entry "node_modules") eqn:Ei; cbn [negb] in H.
  2:{ destruct (resolveFrom h (id ++ "/package.json")%string (root config))
        as [pkgPath| |] eqn:Ef; cbn [bind] in H; try discriminate.
      apply Hrec in H; [|reflexivity|].
      - intros x Hx. destruct (H x Hx) as [Hx'|Ha]; [now left|now right].
      - cbn [root].
        apply (visited_link h K (root config) (root config) id entry
                 requireEntry pkgPath); try assumption.
        + apply visited_root.
        + exists devDeps, pkgDeps. auto. }
  destruct (String.eqb entry requireEntry) eqn:Ee; cbn [negb] in H.
  2:{ inversion H; subst. apply Hadd; [reflexivity|]. right.
      split; [reflexivity|]. left. intros ->.
      now rewrite String.eqb_refl in Ee. }
  destruct (isJsEntry entry) eqn:Ej; cbn [negb] in H.
  2:{ inversion H; subst. intros x Hx. now left. }
  destruct (readFileSync h entry) as [content| |] eqn:Er; cbn [bind] in H;
    try discriminate.
  destruct (hasCjsMarkers content) eqn:Em; inversion H; subst.
  - apply Hadd; [reflexivity|]. right. split; [reflexivity|]. right.
    split; [reflexivity|]. exists content. auto.
  - intros x Hx. now left.
Qed.

Lemma classifyAll_onlyAdmitted recur h K config devDeps pkgDeps
  (deps : list string) :
  (forall c s s', ssr c = ssr config ->
                  visited h K (root config) (root c) ->
                  recur c s = Ret s' -> onlyAdmitted h K config s s') ->
  manifestOf h (root config) devDeps pkgDeps ->
  incl deps (K ++ pkgDeps) ->
  forall st st', classifyAll recur h config deps st = Ret st' ->
                 onlyAdmitted h K config st st'.
Proof.
  intros Hrec Hman. induction deps as [|id rest IH]; intros Hincl st st' H.
  - inversion H; subst. apply onlyAdmitted_refl.
  - cbn [classifyAll] in H.
    destruct (classify recur h config id st) as [s1| |] eqn:Hc;
      cbn [bind] in H; try discriminate.
    eapply classify_onlyAdmitted in Hc; try eassumption.
    2:{ apply Hincl. now left. }
    apply IH in H; [|intros x Hx; apply Hincl; now right].
    eapply onlyAdmitted_trans; eassumption.
Qed.

Lemma onlyAdmitted_finish h K config st :
  onlyAdmitted h K config st (snd (finish config st)).
Proof.
  unfold finish. cbn [snd]. intros x Hx.
  destruct (configExternal config) as [ext|] eqn:E; [|now left].
  apply In_addAll in Hx as [Hx|Hx]; [|now left].
  right. left. unfold listedExternal. rewrite E. now apply mem_In.
Qed.

Lemma resolveSSRExternal_onlyAdmitted fuel h K :
  forall config st r st',
    resolveSSRExternal fuel h config K st = Ret (r, st') ->
    onlyAdmitted h K config st st'.
Proof.
  induction fuel as [|fuel IH]; intros config st r st' H; [discriminate|].
  apply resolveSSRExternal_inv in H
    as [(_ & _ & ->)|(f & devDeps & pkgDeps & s1 & Hf & Hman & Hc & Hfin)].
  - apply onlyAdmitted_refl.
  - inversion Hf; subst f.
    eapply (classifyAll_onlyAdmitted _ h K) in Hc; try eassumption.
    + assert (st' = snd (finish config s1)) as -> by now rewrite <- Hfin.
      intros x Hx.
      destruct (onlyAdmitted_finish h K config s1 x Hx) as [Hx1|Ha];
        [|now right].
      destruct (Hc x Hx1) as [Hx0|Ha]; [|now right].
      apply In_addAll in Hx0 as [Hd|Hx0]; [|now left].
      right. right. exists (root config), devDeps, pkgDeps.
      split; [apply visited_root|]. auto.
    + intros c s s' Hs V Hr. unfold omap in Hr.
      destruct (resolveSSRExternal fuel h c K s) as [[r' s'']| |] eqn:Hrun;
        cbn [bind snd] in Hr; try discriminate.
      inversion Hr; subst s''. intros x Hx.
      destruct (IH _ _ _ _ Hrun x Hx) as [Hx'|Ha]; [now left|right].
      eapply admitted_from_visited; eassumption.
    + apply incl_refl.
Qed.

(** X20. Nothing gets into the result without a reason: every id of the
    returned list was in the set passed in, or is listed in [ssr.external],
    or is a devDependency of the manifest of a directory the pass entered
    (the root or a linked package reached from it), or is a candidate of
    such a manifest that the heuristic classified as CommonJS there. So
    the walk never externalizes a candidate whose resolution throws, a
    linked package (entry outside node_modules), an entry that is no
    script, or a script without a CommonJS marker. *)
Theorem resolveSSRExternal_only_admitted fuel h config K st r st' id :
  resolveSSRExternal fuel h config K st = Ret (r, st') ->
  In id r ->
  In id (ssrExternals st) \/ admitted h K config id.
Proof.
  intros H Hin.
  pose proof (resolveSSRExternal_onlyAdmitted _ _ _ _ _ _ _ H) as Ha.
  apply Ha.
  apply resolveSSRExternal_inv in H
    as [(_ & -> & _)|(f & d & p & s1 & _ & _ & _ & Hfin)]; [destruct Hin|].
  assert (r = fst (finish config s1)) by now rewrite <- Hfin.
  assert (st' = snd (finish config s1)) by now rewrite <- Hfin.
  subst. apply In_finish in Hin. tauto.
Qed.

Lemma resolveSSRExternal_only_admitted_witness :
  In "cjs-dep" (ssrExternals Examples.emptyState)
  \/ admitted Examples.ssrHost ["left-pad"] Examples.appConfig "cjs-dep".
Proof.
  apply (resolveSSRExternal_only_admitted 2 Examples.ssrHost
           Examples.appConfig ["left-pad"] Examples.emptyState
           ["mocha"; "left-pad"; "cjs-dep"; "forced"]
           (snd (match resolveSSRExternal 2 Examples.ssrHost
                         Examples.appConfig ["left-pad"] Examples.emptyState
                 with Ret x => x | _ => ([], Examples.emptyState) end))).
  - reflexivity.
  - cbn. tauto.
Defined.

Lemma classify_local recur h config id st :
  staysLocal h (root config) id ->
  exists st',
    classify recur h config id st = Ret st' /\
    classify (fun _ _ => Unknown) h config id st = Ret st'.
Proof.
  unfold staysLocal, classify. intros H.
  destruct (tryNodeResolve h id (root config)) as [entry| |];
    [|eexists; split; reflexivity|contradiction].
  destruct (requireResolve h id (root config)) as [requireEntry| |];
    [|eexists; split; reflexivity|contradiction].
  destruct entry as [e|]; [|eexists; split; reflexivity].
  destruct (truthy (VStr e)); cbn [negb]; [|eexists; split; reflexivity].
  destruct (H eq_refl) as [Hi Hread]. rewrite Hi. cbn [negb].
  destruct (String.eqb e requireEntry); cbn [negb];
    [|eexists; split; reflexivity].
  destruct (isJsEntry e); cbn [negb]; [|eexists; split; reflexivity].
  destruct (Hread eq_refl eq_refl) as [content Hc]. rewrite Hc. cbn [bind].
  eexists; split; reflexivity.
Qed.

Lemma classifyAll_local recur h config (deps : list string) :
  (forall id, In id deps -> staysLocal h (root config) id) ->
  forall st, exists st',
    classifyAll recur h config deps st = Ret st' /\
    classifyAll (fun _ _ => Unknown) h config deps st = Ret st'.
Proof.
  induction deps as [|id rest IH]; intros Hl st; cbn [classifyAll].
  - eexists; split; reflexivity.
  - destruct (classify_local recur h config id st (Hl id (or_introl eq_refl)))
      as (s1 & E1 & E2).
    rewrite E1, E2. cbn [bind]. apply IH. intros x Hx. apply Hl. now right.
Qed.

(** X21. When no candidate of the root's manifest is a linked package (and
    the host answers every resolution, and every entry to be scanned can be
    read), the pass returns without recursion: any recursion depth gives
    the same list and the same set, so the walk terminates. *)
Theorem resolveSSRExternal_returns_without_links h config K st
  devDeps pkgDeps :
  manifestOf h (root config) devDeps pkgDeps ->
  (forall id, In id (K ++ pkgDeps) -> staysLocal h (root config) id) ->
  exists r st',
    forall fuel, resolveSSRExternal (S fuel) h config K st = Ret (r, st').
Proof.
  intros Hman Hl.
  destruct (classifyAll_local (fun _ _ => Unknown) h config (K ++ pkgDeps) Hl
              (addAll devDeps st)) as (s1 & _ & E).
  exists (fst (finish config s1)), (snd (finish config s1)). intros fuel.
  rewrite (resolveSSRExternal_found _ _ _ _ _ _ _ Hman).
  destruct (classifyAll_local
              (fun c s => omap snd (resolveSSRExternal fuel h c K s))
              h config (K ++ pkgDeps) Hl (addAll devDeps st))
    as (s2 & E1 & E2).
  rewrite E1. rewrite E in E2. inversion E2; subst s2. cbn [bind].
  now destruct (finish config s1).
Qed.

Lemma resolveSSRExternal_returns_without_links_witness :
  exists r st',
    forall fuel,
      resolveSSRExternal (S fuel) Examples.devHost Examples.devConfig
        ["mocha"] Examples.emptyState = Ret (r, st').
Proof.
  apply (resolveSSRExternal_returns_without_links Examples.devHost
           Examples.devConfig ["mocha"] Examples.emptyState ["mocha"] []).
  - exists "<package.json of /dev>", Examples.devManifest.
    repeat split; reflexivity.
  - intros id _. cbn. intros _. split; [reflexivity|].
    intros _ _. eexists; reflexivity.
Defined.

(** *** The matcher on what the resolver returns *)

Lemma prefix_slash_hasSlash (e : string) :
  forall s, String.prefix (e ++ "/")%string s = true -> hasSlash s = true.
Proof.
  unfold hasSlash. induction e as [|c e IH]; intros s H.
  - change (String.prefix "/" s = true) in H.
    destruct s as [|b s]; cbn [String.prefix] in H; [discriminate|].
    destruct (ascii_dec "/" b) as [<-|]; [reflexivity|discriminate].
  - change (String.prefix (String c (e ++ "/")) s = true) in H.
    destruct s as [|b s]; cbn [String.prefix] in H; [discriminate|].
    destruct (ascii_dec c b); [|discriminate].
    cbn [list_ascii_of_string existsb]. rewrite (IH s H). apply orb_true_r.
Qed.

Lemma matchesExternal_bare (id e : string) :
  hasSlash id = false -> SSRMatch.matchesExternal id e = String.eqb id e.
Proof.
  intros Hs. unfold SSRMatch.matchesExternal, startsWith.
  destruct (String.eqb id e); [reflexivity|].
  destruct (String.prefix (e ++ "/") id) eqn:P; [|reflexivity].
  apply prefix_slash_hasSlash in P. congruence.
Qed.

(** X22. An import id without a path separator is externalized exactly
    when it is listed itself: the deep-import rule never applies to it,
    whatever packages are listed. *)
Theorem shouldExternalizeForSSR_bare_id (id : string) (externals : list string) :
  hasSlash id = false ->
  SSRMatch.shouldExternalizeForSSR id externals = mem id externals.
Proof.
  intros Hs. unfold SSRMatch.shouldExternalizeForSSR, mem.
  induction externals as [|e l IH]; [reflexivity|]. cbn [existsb].
  now rewrite IH, matchesExternal_bare.
Qed.

Lemma shouldExternalizeForSSR_bare_id_witness :
  SSRMatch.shouldExternalizeForSSR "lodash-es" ["lodash"; "lodash-es"]
  = mem "lodash-es" ["lodash"; "lodash-es"].
Proof.
  apply (shouldExternalizeForSSR_bare_id "lodash-es" ["lodash"; "lodash-es"]).
  reflexivity.
Defined.

(** X23. The resolver and the matcher together: with the list
    [resolveSSRExternal] returns, [shouldExternalizeForSSR] never
    externalizes an import of the tool itself by its bare name. *)
Theorem vite_is_never_externalized fuel h config K st r st' :
  resolveSSRExternal fuel h config K st = Ret (r, st') ->
  SSRMatch.shouldExternalizeForSSR "vite" r = false.
Proof.
  intros H. apply not_true_iff_false. intros Hm.
  unfold SSRMatch.shouldExternalizeForSSR in Hm.
  apply existsb_exists in Hm as (e & Hin & Hm).
  rewrite matchesExternal_bare in Hm by reflexivity.
  apply String.eqb_eq in Hm. subst e.
  apply resolveSSRExternal_inv in H
    as [(_ & -> & _)|(f & d & p & s1 & _ & _ & _ & Hfin)]; [destruct Hin|].
  assert (r = fst (finish config s1)) by now rewrite <- Hfin.
  subst r. apply In_finish in Hin. tauto.
Qed.

Lemma vite_is_never_externalized_witness :
  SSRMatch.shouldExternalizeForSSR "vite"
    ["mocha"; "left-pad"; "cjs-dep"; "forced"] = false.
Proof.
  apply (vite_is_never_externalized 2 Examples.ssrHost Examples.appConfig
           ["left-pad"] Examples.emptyState
           ["mocha"; "left-pad"; "cjs-dep"; "forced"]
           (snd (match resolveSSRExternal 2 Examples.ssrHost
                         Examples.appConfig ["left-pad"] Examples.emptyState
                 with Ret x => x | _ => ([], Examples.emptyState) end))).
  reflexivity.
Defined.

End ResolverMore.

(** ** The public base path *)

Section BaseUrlMore.
Import JS Resolve.

Lemma length_app_slash (s : string) :
  String.length (s ++ "/")%string = S (String.length s).
Proof.
  induction s as [|c s IH]; [reflexivity|].
  change (S (String.length (s ++ "/")%string) = S (S (String.length s))).
  now rewrite IH.
Qed.

Lemma substring_app_slash (s : string) :
  substring (String.length s) 1 (s ++ "/")%string = "/"%string.
Proof.
  induction s as [|c s IH]; [reflexivity|].
  change (substring (String.length s) 1 (s ++ "/")%string = "/"%string).
  exact IH.
Qed.

Lemma endsWith_app_slash (s : string) : endsWith (s ++ "/")%string "/" = true.
Proof.
  unfold endsWith. rewrite length_app_slash. cbn [String.length Nat.leb].
  replace (S (String.length s) - 1) with (String.length s) by lia.
  now rewrite substring_app_slash.
Qed.

Lemma startsWith_slash_inv (s : string) :
  startsWith s "/" = true -> exists t, s = String "/" t.
Proof.
  unfold startsWith. destruct s as [|c s]; cbn [String.prefix];
    [discriminate|].
  destruct (ascii_dec "/" c) as [<-|]; [|discriminate]. now exists s.
Qed.

Lemma startsWith_app_slash (s : string) :
  startsWith s "/" = true -> startsWith (s ++ "/")%string "/" = true.
Proof.
  intros H. apply startsWith_slash_inv in H as [t ->].
  change (startsWith (String "/" (t ++ "/")) "/" = true).
  unfold startsWith. cbn [String.prefix].
  destruct (ascii_dec "/" "/"); [|congruence].
  now destruct (t ++ "/")%string.
Qed.

Lemma startsWith_dot_slash (t : string) :
  startsWith (String "/" t) "." = false.
Proof.
  unfold startsWith. cbn [String.prefix].
  destruct (ascii_dec "." "/"); [discriminate|reflexivity].
Qed.

Lemma ensure_trailing_slash (base : string) :
  endsWith
    (fst (if negb (endsWith base "/")
          then ((base ++ "/")%string, [WTrailingSlash]) else (base, [])))
    "/" = true.
Proof.
  destruct (endsWith base "/") eqn:E; cbn [negb fst];
    [assumption|apply endsWith_app_slash].
Qed.

Lemma ensure_trailing_keeps_leading (base : string) :
  startsWith base "/" = true ->
  startsWith
    (fst (if negb (endsWith base "/")
          then ((base ++ "/")%string, [WTrailingSlash]) else (base, [])))
    "/" = true.
Proof.
  intros H. destruct (endsWith base "/"); cbn [negb fst];
    [assumption|now apply startsWith_app_slash].
Qed.

Lemma startsWith_cons_slash (t : string) :
  startsWith (String "/" t) "/" = true.
Proof.
  unfold startsWith. cbn [String.prefix].
  destruct (ascii_dec "/" "/"); [|congruence]. now destruct t.
Qed.

Lemma resolveBaseUrl_general h base isBuild :
  String.eqb base EmptyString || String.eqb base "./" = false ->
  exists b2,
    fst (resolveBaseUrl h (Some base) isBuild)
    = fst (if negb (endsWith b2 "/")
           then ((b2 ++ "/")%string, [WTrailingSlash]) else (b2, []))
    /\ (isExternalUrl h (if startsWith base "." then "/"%string else base)
        = false -> startsWith b2 "/" = true).
Proof.
  intros E. unfold resolveBaseUrl. rewrite E.
  destruct (startsWith base ".");
    match goal with
    | |- context [isExternalUrl h ?b] =>
        destruct (isExternalUrl h b) eqn:Ex
    end;
    try (destruct isBuild; cbn [negb]);
    try match goal with
      | |- context [startsWith ?b "/"] =>
          destruct (startsWith b "/") eqn:Es; cbn [negb]
      end;
    match goal with
    | |- context [negb (endsWith ?b "/")] =>
        exists b; destruct (endsWith b "/"); cbn [negb fst snd];
        (split; [reflexivity|])
    end;
    intros; try discriminate; try assumption;
    match goal with
    | |- startsWith ("/" ++ ?b)%string "/" = true =>
        exact (startsWith_cons_slash b)
    end.
Qed.

(** X24. Whatever base the user configures, the resolved base ends with
    a slash, with one exception: in a build, the empty string and ./ (the
    relative base) are returned as they are. *)
Theorem resolveBaseUrl_trailing_slash (h : host) (base : option string)
  (isBuild : bool) :
  let r := fst (resolveBaseUrl h base isBuild) in
  (isBuild = true /\ base = Some r /\ (r = EmptyString \/ r = "./"%string))
  \/ endsWith r "/" = true.
Proof.
  cbv zeta.
  assert (Hsome : forall b,
    (isBuild = true /\ Some b = Some (fst (resolveBaseUrl h (Some b) isBuild))
     /\ (fst (resolveBaseUrl h (Some b) isBuild) = EmptyString
         \/ fst (resolveBaseUrl h (Some b) isBuild) = "./"%string))
    \/ endsWith (fst (resolveBaseUrl h (Some b) isBuild)) "/" = true).
  { intros b.
    destruct (String.eqb b EmptyString || String.eqb b "./") eqn:E.
    - unfold resolveBaseUrl. rewrite E. destruct isBuild; cbn [fst].
      + left. split; [reflexivity|]. split; [reflexivity|].
        apply orb_true_iff in E as [E|E]; apply String.eqb_eq in E; auto.
      + right. reflexivity.
    - right. destruct (resolveBaseUrl_general h b isBuild E)
        as (b2 & Heq & _); rewrite Heq.
      apply ensure_trailing_slash. }
  destruct base as [b|]; [apply Hsome|].
  right. change (endsWith (fst (resolveBaseUrl h (Some "/"%string) isBuild))
                  "/" = true).
  destruct (resolveBaseUrl_general h "/" isBuild eq_refl) as (b2 & Heq & _).
  rewrite Heq. apply ensure_trailing_slash.
Qed.

(** X25. A base that is no external URL resolves to a path that starts
    and ends with a slash, the relative base of a build apart: a missing
    leading or trailing slash is added, and a base that starts with a dot
    is replaced by the root path. *)
Theorem resolveBaseUrl_absolute_path (h : host) (base : string)
  (isBuild : bool) :
  isExternalUrl h base = false ->
  isExternalUrl h "/" = false ->
  (isBuild = true -> base <> EmptyString /\ base <> "./"%string) ->
  let r := fst (resolveBaseUrl h (Some base) isBuild) in
  startsWith r "/" = true /\ endsWith r "/" = true.
Proof.
  intros Hb Hr Hrel. cbv zeta.
  destruct (String.eqb base EmptyString || String.eqb base "./") eqn:E.
  - destruct isBuild.
    + destruct (Hrel eq_refl) as [H1 H2].
      apply orb_true_iff in E as [E|E]; apply String.eqb_eq in E;
        contradiction.
    + unfold resolveBaseUrl. rewrite E. split; reflexivity.
  - destruct (resolveBaseUrl_general h base isBuild E)
      as (b2 & Heq & Hs); rewrite Heq.
    split; [|apply ensure_trailing_slash].
    apply ensure_trailing_keeps_leading. apply Hs.
    now destruct (startsWith base ".").
Qed.

Lemma resolveBaseUrl_absolute_path_witness :
  startsWith (fst (resolveBaseUrl Examples2.urlHost (Some "app"%string) true))
    "/" = true
  /\ endsWith (fst (resolveBaseUrl Examples2.urlHost (Some "app"%string) true))
       "/" = true.
Proof.
  apply (resolveBaseUrl_absolute_path Examples2.urlHost "app" true).
  - reflexivity.
  - reflexivity.
  - intros _. split; discriminate.
Defined.

(** X26. A base that starts and ends with a slash and is no external URL
    is returned unchanged and without a warning, in dev and in build. So
    resolving a resolved base again changes nothing. *)
Theorem resolveBaseUrl_fixed_point (h : host) (base : string)
  (isBuild : bool) :
  startsWith base "/" = true ->
  endsWith base "/" = true ->
  isExternalUrl h base = false ->
  resolveBaseUrl h (Some base) isBuild = (base, []).
Proof.
  intros Hs He Hx. pose proof Hs as Hs'.
  apply startsWith_slash_inv in Hs' as [t ->].
  unfold resolveBaseUrl.
  change (String.eqb (String "/" t) EmptyString) with false.
  change (String.eqb (String "/" t) "./") with false.
  rewrite startsWith_dot_slash.
  cbn [orb]. rewrite Hx, Hs. cbn [negb]. rewrite He. reflexivity.
Qed.

Lemma resolveBaseUrl_fixed_point_witness :
  resolveBaseUrl Examples2.urlHost (Some "/app/"%string) false
  = ("/app/"%string, []).
Proof.
  apply (resolveBaseUrl_fixed_point Examples2.urlHost "/app/" false);
    reflexivity.
Defined.

End BaseUrlMore.
